(** * WG-Go peer limiter: session tracker, endpoint parser, dump
    collector, firewall reconciliation and the iteration of the daemon,
    embedded from [src/modules/PeerLimits.py], [src/peer_limiter_daemon.py]
    and, for the session table, [src/modules/PeerLimiterState.py].

    Conventions of the embedding.
    - A Python [str] is a [string]: the sequence of its code points, each
      below 256 (the text of [wg show all dump] is ASCII).
    - A Python [int] is a [Z].
    - An aware UTC [datetime] is a [Z]: microseconds since the epoch.  A
      [timedelta(seconds=k)] is [k * 1000000].  The bounded range of
      [datetime] and [timedelta] (years 1 to 9999) is not represented.
    - A [dict] whose iteration order is observed is an association list
      in insertion order; a [dict] that is only looked up is a [gmap];
      a [set] is a [gset].
    - A method that may write [self] is a computation in a state monad,
      so that "reads only" is a statement about the final state. *)

From stdpp Require Import gmap strings list fin_maps sets sorting.
From Stdlib Require Import ZArith Lia Ascii.

Local Open Scope Z_scope.
#[local] Set Warnings "-clear-no-such-hyp".

(** ** Python string primitives *)

Module PyStr.

(** [str.isspace] on one code point below 256. *)
Definition is_space (c : ascii) : bool :=
  let n := nat_of_ascii c in
  ((9 <=? n) && (n <=? 13) || (28 <=? n) && (n <=? 32)
   || (n =? 133) || (n =? 160))%nat.

Fixpoint lstrip (s : string) : string :=
  match s with
  | String c r => if is_space c then lstrip r else s
  | EmptyString => EmptyString
  end.

Fixpoint rstrip (s : string) : string :=
  match s with
  | EmptyString => EmptyString
  | String c r =>
      match rstrip r with
      | EmptyString => if is_space c then EmptyString else String c EmptyString
      | r' => String c r'
      end
  end.

(** [s.strip()] *)
Definition strip (s : string) : string := rstrip (lstrip s).

Definition lower_char (c : ascii) : ascii :=
  let n := nat_of_ascii c in
  if ((65 <=? n) && (n <=? 90)
      || (192 <=? n) && (n <=? 222) && negb (n =? 215))%nat
  then ascii_of_nat (n + 32) else c.

(** [s.lower()] *)
Fixpoint lower (s : string) : string :=
  match s with
  | EmptyString => EmptyString
  | String c r => String (lower_char c) (lower r)
  end.

(** [strip_prefix p s] is the rest of [s] after a leading [p]. *)
Fixpoint strip_prefix (p s : string) : option string :=
  match p, s with
  | EmptyString, _ => Some s
  | String a p', String b s' =>
      if bool_decide (a = b) then strip_prefix p' s' else None
  | String _ _, EmptyString => None
  end.

(** [s.startswith(p)] *)
Definition startswith (p s : string) : bool :=
  bool_decide (is_Some (strip_prefix p s)).

(** [s[1:]] *)
Definition tail (s : string) : string :=
  match s with
  | EmptyString => EmptyString
  | String _ r => r
  end.

(** Leftmost occurrence of a non-empty [sep]: what is before and after. *)
Fixpoint split1 (sep s : string) : option (string * string) :=
  match strip_prefix sep s with
  | Some rest => Some (EmptyString, rest)
  | None =>
      match s with
      | EmptyString => None
      | String c r =>
          match split1 sep r with
          | Some (a, b) => Some (String c a, b)
          | None => None
          end
      end
  end.

(** Rightmost occurrence of a non-empty [sep]. *)
Fixpoint rsplit1 (sep s : string) : option (string * string) :=
  match s with
  | EmptyString => None
  | String c r =>
      match rsplit1 sep r with
      | Some (a, b) => Some (String c a, b)
      | None =>
          match strip_prefix sep s with
          | Some rest => Some (EmptyString, rest)
          | None => None
          end
      end
  end.

(** [s.partition(sep)] and [s.rpartition(sep)], for a non-empty [sep]. *)
Definition partition (sep s : string) : string * string * string :=
  match split1 sep s with
  | Some (a, b) => (a, sep, b)
  | None => (s, EmptyString, EmptyString)
  end.

Definition rpartition (sep s : string) : string * string * string :=
  match rsplit1 sep s with
  | Some (a, b) => (a, sep, b)
  | None => (EmptyString, EmptyString, s)
  end.

(** [sub in s] *)
Definition contains (sub s : string) : bool :=
  bool_decide (is_Some (split1 sub s)).

Definition digit_value (c : ascii) : option Z :=
  let n := nat_of_ascii c in
  if ((48 <=? n) && (n <=? 57))%nat then Some (Z.of_nat n - 48) else None.

(** The digits of a decimal literal after the first one: single
    underscores may separate digits, and the literal ends in a digit. *)
Fixpoint digits_loop (s : string) (acc : Z) (after_underscore : bool)
  : option Z :=
  match s with
  | EmptyString => if after_underscore then None else Some acc
  | String c r =>
      match digit_value c with
      | Some d => digits_loop r (10 * acc + d) false
      | None =>
          if bool_decide (c = "_"%char) && negb after_underscore
          then digits_loop r acc true
          else None
      end
  end.

Definition parse_digits (s : string) : option Z :=
  match s with
  | EmptyString => None
  | String c r =>
      match digit_value c with
      | Some d => digits_loop r d false
      | None => None
      end
  end.

(** The whitespace that [int()] skips around a number: the ASCII
    whitespace (tab to carriage return, and the space) and, from code
    point 128 on, the characters that are spaces (next line and no-break
    space).  The separators 28 to 31, which [str.strip] removes, are not
    among them: [int()] raises on them. *)
Definition is_int_space (c : ascii) : bool :=
  let n := nat_of_ascii c in
  ((9 <=? n) && (n <=? 13) || (n =? 32) || (n =? 133) || (n =? 160))%nat.

Fixpoint lstrip_by (space : ascii → bool) (s : string) : string :=
  match s with
  | String c r => if space c then lstrip_by space r else s
  | EmptyString => EmptyString
  end.

Fixpoint rstrip_by (space : ascii → bool) (s : string) : string :=
  match s with
  | EmptyString => EmptyString
  | String c r =>
      match rstrip_by space r with
      | EmptyString => if space c then EmptyString else String c EmptyString
      | r' => String c r'
      end
  end.

(** [int(s)] for a [str]: surrounding whitespace, an optional sign,
    decimal digits.  [None] stands for [ValueError].  The interpreter's
    configurable cap on the number of digits is not represented. *)
Definition int_of_str (s : string) : option Z :=
  match rstrip_by is_int_space (lstrip_by is_int_space s) with
  | String "+" r => parse_digits r
  | String "-" r => Z.opp <$> parse_digits r
  | body => parse_digits body
  end.

End PyStr.

(** ** A state monad for the methods of a mutable object *)

Definition State (S A : Type) : Type := S → A * S.

Global Instance State_ret {S} : MRet (State S) := λ A a s, (a, s).
Global Instance State_bind {S} : MBind (State S) :=
  λ A B f m s, let '(a, s') := m s in f a s'.

Definition gets {S A} (f : S → A) : State S A := λ s, (f s, s).
Definition modify {S} (f : S → S) : State S unit := λ s, (tt, f s).

(** ** Stable sorting, as [list.sort] and [sorted] *)

Fixpoint insert_by {A} (before : A → A → bool) (x : A) (l : list A) : list A :=
  match l with
  | [] => [x]
  | y :: l' => if before x y then x :: l else y :: insert_by before x l'
  end.

(** [before x y] says that [x] may stand before [y]; an element is put in
    front of the later elements it ties with, which keeps ties in their
    original order. *)
Definition stable_sort {A} (before : A → A → bool) (l : list A) : list A :=
  foldr (insert_by before) [] l.

(** ** Insertion-ordered dictionaries with string keys *)

Module Dict.
Section dict.
Context {V : Type}.

Fixpoint get (k : string) (d : list (string * V)) : option V :=
  match d with
  | [] => None
  | (k', v) :: d' => if bool_decide (k' = k) then Some v else get k d'
  end.

(** [d[k] = v]: in place for a key that is present, at the end for a
    new key. *)
Fixpoint set (k : string) (v : V) (d : list (string * V)) : list (string * V) :=
  match d with
  | [] => [(k, v)]
  | (k', v') :: d' =>
      if bool_decide (k' = k) then (k, v) :: d' else (k', v') :: set k v d'
  end.

Definition values (d : list (string * V)) : list V := d.*2.
Definition keys (d : list (string * V)) : list string := d.*1.
End dict.
End Dict.

(** ** [modules/PeerLimits.py] *)

Module PeerLimits.

Definition DEFAULT_MAX_CONCURRENT : option Z := None.
Definition DEFAULT_TTL_SECONDS : Z := 180.
Definition DEFAULT_GRACE_SECONDS : Z := 5.

Inductive PeerLimitPolicy := NEW_WINS | OLD_WINS.

Global Instance PeerLimitPolicy_eq_dec : EqDecision PeerLimitPolicy.
Proof. solve_decision. Defined.

(** A value read from a settings row: SQL NULL, an integer or text.
    [from_row] also tests for cells of other types ([bytes] for the
    limit, a float for the TTL and the grace period); these are not
    represented, and what is stated of rows is stated of rows with these
    three kinds of cells. *)
Inductive pyval := PyNone | PyInt (z : Z) | PyStr (s : string).

(** The two [ValueError]s of this module. *)
Inductive ValueError :=
| Unsupported_peer_limit_policy (value : pyval)
| invalid_literal_for_int (s : string).

Inductive result (A : Type) :=
| Ok (a : A)
| Raise (e : ValueError).
Global Arguments Ok {A} a.
Global Arguments Raise {A} e.

(** The enumeration's values, and the lookup by value [cls(value)]. *)
Definition policy_value (p : PeerLimitPolicy) : string :=
  match p with
  | NEW_WINS => "new_wins"
  | OLD_WINS => "old_wins"
  end.

Definition policy_of_value (value : pyval) : option PeerLimitPolicy :=
  match value with
  | PyStr s =>
      if bool_decide (s = policy_value NEW_WINS) then Some NEW_WINS
      else if bool_decide (s = policy_value OLD_WINS) then Some OLD_WINS
      else None
  | _ => None
  end.

Definition from_string (value : pyval) : result PeerLimitPolicy :=
  match value with
  | PyNone => Ok NEW_WINS
  | _ =>
      match policy_of_value value with
      | Some p => Ok p
      | None => Raise (Unsupported_peer_limit_policy value)
      end
  end.

Record PeerLimitSettings := {
  max_concurrent : option Z;
  policy : PeerLimitPolicy;
  ttl_seconds : Z;
  grace_seconds : Z;
}.

(** [PeerLimitSettings()] *)
Definition default_settings : PeerLimitSettings :=
  {| max_concurrent := DEFAULT_MAX_CONCURRENT;
     policy := NEW_WINS;
     ttl_seconds := DEFAULT_TTL_SECONDS;
     grace_seconds := DEFAULT_GRACE_SECONDS |}.

(** The four columns [get_peer_settings] selects. *)
Record Row := {
  row_max_concurrent : pyval;
  row_connection_policy : pyval;
  row_session_ttl : pyval;
  row_grace_seconds : pyval;
}.

Definition from_row (row : Row) : result PeerLimitSettings :=
  let coerced :=
    match row_max_concurrent row with
    | PyStr s =>
        match PyStr.int_of_str s with
        | Some n => Ok (Some n)
        | None => Raise (invalid_literal_for_int s)
        end
    | PyInt n => Ok (Some n)
    | PyNone => Ok None
    end in
  match coerced with
  | Raise e => Raise e
  | Ok max_concurrent =>
      let max_concurrent :=
        match max_concurrent with
        | Some n => if n <=? 0 then None else Some n
        | None => None
        end in
      match from_string (row_connection_policy row) with
      | Raise e => Raise e
      | Ok policy =>
          let ttl_seconds :=
            match row_session_ttl row with
            | PyInt n => n
            | _ => DEFAULT_TTL_SECONDS
            end in
          let grace_seconds :=
            match row_grace_seconds row with
            | PyInt n => n
            | _ => DEFAULT_GRACE_SECONDS
            end in
          Ok {| max_concurrent := max_concurrent;
                policy := policy;
                ttl_seconds := Z.max ttl_seconds 1;
                grace_seconds := Z.max grace_seconds 0 |}
      end
  end.

Record PeerSession := {
  endpoint : string;
  first_seen : Z;
  last_seen : Z;
  last_handshake : option Z;
  rx_bytes : Z;
  tx_bytes : Z;
  rx_delta : Z;
  tx_delta : Z;
}.

Global Instance PeerSession_eq_dec : EqDecision PeerSession.
Proof. solve_decision. Defined.

(** [timedelta(seconds=k)] and [datetime.fromtimestamp(t, tz=utc)] *)
Definition timedelta (seconds : Z) : Z := seconds * 1000000.
Definition fromtimestamp (t : Z) : Z := t * 1000000.

(** [self._sessions] *)
Abbreviation SessionTracker := (gmap (string * string) (list (string * PeerSession))).

(** [SessionTracker()] *)
Definition new_tracker : SessionTracker := ∅.

Definition _expire (key : string * string) (ttl_seconds now : Z)
  : State SessionTracker unit :=
  sessions ← gets (λ tr : SessionTracker, tr !! key);
  match sessions with
  | None | Some [] => mret tt
  | Some sessions =>
      let expiry := now - timedelta (Z.max ttl_seconds 1) in
      let stale :=
        (filter (λ kv, last_seen kv.2 < expiry) sessions).*1 in
      let sessions :=
        filter (λ kv : string * PeerSession, kv.1 ∉ stale) sessions in
      match sessions with
      | [] => modify (delete key)
      | _ => modify (<[key := sessions]>)
      end
  end.

(** An endpoint that names a session: not empty and not ["(none)"]. *)
Definition names_session (endpoint : string) : bool :=
  negb (bool_decide (endpoint = ""))
  && negb (bool_decide (PyStr.lower endpoint = "(none)")).

(** [datetime.fromtimestamp(latest_handshake, tz=utc) if latest_handshake
    else None] *)
Definition handshake_datetime (latest_handshake : option Z) : option Z :=
  match latest_handshake with
  | Some t => if bool_decide (t = 0) then None else Some (fromtimestamp t)
  | None => None
  end.

(** The assignments of the branch [if existing:] of [observe], on the
    session object the dictionary holds. *)
Definition update_existing (existing : PeerSession) (handshake_dt : option Z)
    (rx_bytes' tx_bytes' now : Z) : PeerSession :=
  let rx_delta' := Z.max 0 (rx_bytes' - rx_bytes existing) in
  let tx_delta' := Z.max 0 (tx_bytes' - tx_bytes existing) in
  let last_seen' :=
    if negb (bool_decide (rx_delta' = 0)) || negb (bool_decide (tx_delta' = 0))
    then now else last_seen existing in
  let last_handshake' :=
    match handshake_dt with
    | Some h =>
        match last_handshake existing with
        | None => Some h
        | Some stored => if bool_decide (stored < h) then Some h else Some stored
        end
    | None => last_handshake existing
    end in
  {| endpoint := endpoint existing;
     first_seen := first_seen existing;
     last_seen := last_seen';
     last_handshake := last_handshake';
     rx_bytes := rx_bytes';
     tx_bytes := tx_bytes';
     rx_delta := rx_delta';
     tx_delta := tx_delta' |}.

(** The session of the branch [else:]. *)
Definition first_observation (endpoint : string) (handshake_dt : option Z)
    (rx_bytes' tx_bytes' now : Z) : PeerSession :=
  {| endpoint := endpoint;
     first_seen := now;
     last_seen := now;
     last_handshake := handshake_dt;
     rx_bytes := rx_bytes';
     tx_bytes := tx_bytes';
     rx_delta := 0;
     tx_delta := 0 |}.

Definition observe (interface peer_id : string) (endpoint : option string)
    (latest_handshake : option Z) (rx_bytes' tx_bytes' : Z)
    (settings : PeerLimitSettings) (now : Z)
  : State SessionTracker (list PeerSession) :=
  let key := (interface, peer_id) in
  _ ← _expire key (ttl_seconds settings) now;
  let endpoint := PyStr.strip (default "" endpoint) in
  sessions ← gets (λ tr : SessionTracker, default [] (tr !! key));
  _ ← modify (<[key := sessions]>);
  if names_session endpoint then
    let existing := Dict.get endpoint sessions in
    let handshake_dt := handshake_datetime latest_handshake in
    let sessions :=
      match existing with
      | Some existing =>
          Dict.set endpoint
            (update_existing existing handshake_dt rx_bytes' tx_bytes' now) sessions
      | None =>
          Dict.set endpoint
            (first_observation endpoint handshake_dt rx_bytes' tx_bytes' now) sessions
      end in
    _ ← modify (<[key := sessions]>);
    mret (Dict.values sessions)
  else mret (Dict.values sessions).

Definition active_sessions (interface peer_id : string)
    (settings : PeerLimitSettings) (now : Z)
  : State SessionTracker (list PeerSession) :=
  let ttl_window := now - timedelta (Z.max (ttl_seconds settings) 1) in
  sessions ← gets (λ tr : SessionTracker, default [] (tr !! (interface, peer_id)));
  let active :=
    filter (λ s, ttl_window ≤ last_seen s) (Dict.values sessions) in
  mret (stable_sort (λ a b, last_seen b <=? last_seen a) active).

(** The local [append_unique] of [allowed_sessions], on the pair of the
    [allowed] list and the [seen] set it closes over. *)
Definition append_unique (items : list PeerSession)
    (acc : list PeerSession * gset string) : list PeerSession * gset string :=
  foldl (λ '(allowed, seen) session,
           if bool_decide (endpoint session ∈ seen) then (allowed, seen)
           else (allowed ++ [session], {[endpoint session]} ∪ seen))
        acc items.

Definition allowed_sessions (interface peer_id : string)
    (settings : PeerLimitSettings) (now : Z)
  : State SessionTracker (list PeerSession) :=
  active ← active_sessions interface peer_id settings now;
  match max_concurrent settings with
  | None | Some 0 => mret active
  | Some max_concurrent =>
      let grace_window := now - timedelta (Z.max (grace_seconds settings) 0) in
      let grace_sessions := filter (λ s, grace_window ≤ first_seen s) active in
      let stable_sessions := filter (λ s, s ∉ grace_sessions) active in
      let '(allowed, seen) := append_unique grace_sessions ([], ∅) in
      let stable_allowed := filter (λ s, s ∉ grace_sessions) allowed in
      let remaining := Z.max (max_concurrent - Z.of_nat (length stable_allowed)) 0 in
      if remaining <=? 0 then mret allowed
      else
        let ordered :=
          match policy settings with
          | NEW_WINS => stable_sessions
          | OLD_WINS =>
              stable_sort (λ a b, first_seen a <=? first_seen b) stable_sessions
          end in
        mret (append_unique (take (Z.to_nat remaining) ordered) (allowed, seen)).1
  end.

Definition prune_peer (interface peer_id : string) : State SessionTracker unit :=
  modify (delete (interface, peer_id)).

End PeerLimits.

(** ** The endpoint parser of the daemon *)

Definition split_endpoint (endpoint : string) : option (string * Z) :=
  let endpoint := PyStr.strip endpoint in
  if bool_decide (endpoint = "") || bool_decide (PyStr.lower endpoint = "(none)")
  then None
  else
    let '(host, _, port) :=
      if PyStr.startswith "[" endpoint
      then PyStr.partition "]:" (PyStr.tail endpoint)
      else PyStr.rpartition ":" endpoint in
    if bool_decide (host = "") || bool_decide (port = "") then None
    else
      match PyStr.int_of_str port with
      | Some n => Some (host, n)
      | None => None
      end.


(** ** [peer_limiter_daemon.py]: settings store, firewall backend, iteration *)

Module Daemon.
Import PeerLimits.

(** The per-interface settings tables of the dashboard database, by
    table name and then by the [id] column. *)
Abbreviation PeerLimitStore := (gmap string (gmap string Row)).

Definition get_peer_settings (store : PeerLimitStore)
    (interface peer_id : string) : result PeerLimitSettings :=
  match store !! interface with
  | None => Ok default_settings
  | Some table =>
      match table !! peer_id with
      | None => Ok default_settings
      | Some row => from_row row
      end
  end.

Record FirewallSyncPlan := {
  ipv4 : gset (string * Z);
  ipv6 : gset (string * Z);
  port : Z;
}.

(** One word of a command line.  [Int n] stands for [str(n)] and
    [Elements e] for the text [_format_elements] renders from the set
    [e], whose order of elements is the set's iteration order. *)
Inductive arg :=
| Word (s : string)
| Int (n : Z)
| Elements (e : gset (string * Z)).

Global Instance arg_eq_dec : EqDecision arg.
Proof. solve_decision. Defined.

Abbreviation command := (list arg).

Section host.
(** The host that executes the subprocesses: each command line takes
    the host from one state to the next and yields a return code. *)
Context {W : Type} (subprocess_run : command → W → Z * W).

(** A method of an object with state [S] that runs subprocesses: the
    new object, the new host and the command lines it ran, in order. *)
Definition Run (S A : Type) : Type := S → W → A * S * W * list command.

#[export] Instance Run_ret {S} : MRet (Run S) := λ A a s w, (a, s, w, []).
#[export] Instance Run_bind {S} : MBind (Run S) :=
  λ A B f m s w,
    let '(a, s1, w1, l1) := m s w in
    let '(b, s2, w2, l2) := f a s1 w1 in
    (b, s2, w2, l1 ++ l2).

Definition get_self {S A} (f : S → A) : Run S A := λ s w, (f s, s, w, []).
Definition set_self {S} (f : S → S) : Run S unit := λ s w, (tt, f s, w, []).
Definition exec {S} (argv : command) : Run S Z :=
  λ s w, let '(rc, w') := subprocess_run argv w in (rc, s, w', [argv]).

Fixpoint for_each {S A} (items : list A) (body : A → Run S unit) : Run S unit :=
  match items with
  | [] => mret tt
  | x :: items' => _ ← body x; for_each items' body
  end.

Definition when {S} (c : bool) (body : Run S unit) : Run S unit :=
  if c then body else mret tt.

(** The abstract [FirewallBackend]. *)
Class FirewallBackend (B : Type) := {
  ensure_interface : string → Z → Run B unit;
  sync : list (string * FirewallSyncPlan) → Run B unit;
  teardown_peer : string → Run B unit;
}.

Record NftablesBackend := {
  initialized : gset string;
  current_v4 : gmap string (gset (string * Z));
  current_v6 : gmap string (gset (string * Z));
}.

Definition TABLE_NAME : string := "wggo_limiter".

Definition new_backend : NftablesBackend :=
  {| initialized := ∅; current_v4 := ∅; current_v6 := ∅ |}.

Definition _run (command : command) : Run NftablesBackend Z :=
  exec (Word "nft" :: command).

Definition ensure_environment : Run NftablesBackend unit :=
  rc ← _run [Word "list"; Word "table"; Word "inet"; Word TABLE_NAME];
  when (negb (bool_decide (rc = 0)))
    (_ ← _run [Word "add"; Word "table"; Word "inet"; Word TABLE_NAME]; mret tt).

Definition set_v4_name (interface : string) : string :=
  "wggo_" +:+ interface +:+ "_allowed_v4".
Definition set_v6_name (interface : string) : string :=
  "wggo_" +:+ interface +:+ "_allowed_v6".

Definition nft_ensure_interface (interface : string) (port : Z)
  : Run NftablesBackend unit :=
  known ← get_self (λ b, bool_decide (interface ∈ initialized b));
  if known : bool then mret tt
  else
    let chain := "wggo_" +:+ interface in
    let set_v4 := set_v4_name interface in
    let set_v6 := set_v6_name interface in
    rc ← _run [Word "list"; Word "set"; Word "inet"; Word TABLE_NAME; Word set_v4];
    _ ← when (negb (bool_decide (rc = 0)))
          (_ ← _run [Word "add"; Word "set"; Word "inet"; Word TABLE_NAME; Word set_v4;
                     Word "{"; Word "type"; Word "ipv4_addr"; Word ".";
                     Word "inet_service;"; Word "}"]; mret tt);
    rc ← _run [Word "list"; Word "set"; Word "inet"; Word TABLE_NAME; Word set_v6];
    _ ← when (negb (bool_decide (rc = 0)))
          (_ ← _run [Word "add"; Word "set"; Word "inet"; Word TABLE_NAME; Word set_v6;
                     Word "{"; Word "type"; Word "ipv6_addr"; Word ".";
                     Word "inet_service;"; Word "}"]; mret tt);
    rc ← _run [Word "list"; Word "chain"; Word "inet"; Word TABLE_NAME; Word chain];
    _ ← when (negb (bool_decide (rc = 0)))
          (_ ← _run [Word "add"; Word "chain"; Word "inet"; Word TABLE_NAME; Word chain;
                     Word "{"; Word "type"; Word "filter"; Word "hook"; Word "input";
                     Word "priority"; Word "-150;"; Word "policy"; Word "accept;";
                     Word "}"];
           _ ← _run [Word "add"; Word "rule"; Word "inet"; Word TABLE_NAME; Word chain;
                     Word "udp"; Word "dport"; Int port; Word "ip"; Word "saddr";
                     Word "."; Word "udp"; Word "sport"; Word ("@" +:+ set_v4);
                     Word "return"];
           _ ← _run [Word "add"; Word "rule"; Word "inet"; Word TABLE_NAME; Word chain;
                     Word "udp"; Word "dport"; Int port; Word "ip6"; Word "saddr";
                     Word "."; Word "udp"; Word "sport"; Word ("@" +:+ set_v6);
                     Word "return"];
           _ ← _run [Word "add"; Word "rule"; Word "inet"; Word TABLE_NAME; Word chain;
                     Word "udp"; Word "dport"; Int port; Word "drop"];
           mret tt);
    set_self (λ b, {| initialized := {[interface]} ∪ initialized b;
                      current_v4 := current_v4 b;
                      current_v6 := current_v6 b |}).

Definition _sync_set (set_name : string) (desired current : gset (string * Z))
  : Run NftablesBackend (gset (string * Z)) :=
  let to_add := desired ∖ current in
  let to_remove := current ∖ desired in
  _ ← when (negb (bool_decide (to_add = ∅)))
        (_ ← _run [Word "add"; Word "element"; Word "inet"; Word TABLE_NAME;
                   Word set_name; Elements to_add]; mret tt);
  _ ← when (negb (bool_decide (to_remove = ∅)))
        (_ ← _run [Word "delete"; Word "element"; Word "inet"; Word TABLE_NAME;
                   Word set_name; Elements to_remove]; mret tt);
  mret desired.

(** The body of the loop of [sync], for one interface and its plan. *)
Definition nft_sync_interface (item : string * FirewallSyncPlan)
  : Run NftablesBackend unit :=
  let '(interface, plan) := item in
  _ ← nft_ensure_interface interface (port plan);
  let set_v4 := set_v4_name interface in
  let set_v6 := set_v6_name interface in
  current ← get_self (λ b, default ∅ (current_v4 b !! interface));
  synced ← _sync_set set_v4 (ipv4 plan) current;
  _ ← set_self (λ b, {| initialized := initialized b;
                        current_v4 := <[interface := synced]> (current_v4 b);
                        current_v6 := current_v6 b |});
  current ← get_self (λ b, default ∅ (current_v6 b !! interface));
  synced ← _sync_set set_v6 (ipv6 plan) current;
  set_self (λ b, {| initialized := initialized b;
                    current_v4 := current_v4 b;
                    current_v6 := <[interface := synced]> (current_v6 b) |}).

Definition nft_sync (plans : list (string * FirewallSyncPlan))
  : Run NftablesBackend unit :=
  for_each plans nft_sync_interface.

Definition nft_teardown_peer (interface : string) : Run NftablesBackend unit :=
  set_self (λ b, {| initialized := initialized b;
                    current_v4 := delete interface (current_v4 b);
                    current_v6 := delete interface (current_v6 b) |}).

#[export] Instance NftablesBackend_backend : FirewallBackend NftablesBackend := {
  ensure_interface := nft_ensure_interface;
  sync := nft_sync;
  teardown_peer := nft_teardown_peer;
}.

(** One peer line of [wg show all dump], as the collector keeps it. *)
Record PeerInfo := {
  public_key : string;
  peer_endpoint : string;
  latest_handshake : Z;
  peer_rx_bytes : Z;
  peer_tx_bytes : Z;
}.

Record InterfaceInfo := {
  listen_port : Z;
  peers : list PeerInfo;
}.

(** The record [iteration] hands to the state repository for one
    session. *)
Record SessionRecord := {
  Endpoint : string;
  LastHandshake : option Z;
  FirstSeen : Z;
  LastSeen : Z;
  RxBytes : Z;
  TxBytes : Z;
  RxDelta : Z;
  TxDelta : Z;
  IsAllowed : bool;
}.

(** The rows of [PeerLimiterSessions]: interface, peer and record.  The
    [UpdatedAt] column, a clock reading of the repository, is left
    out. *)
Abbreviation StateRepository := (list (string * string * SessionRecord)).

Definition upsert_sessions (interface peer_id : string)
    (sessions : list SessionRecord) (repo : StateRepository) : StateRepository :=
  filter (λ row, ¬ (row.1.1 = interface ∧ row.1.2 = peer_id)) repo
  ++ ((λ r, (interface, peer_id, r)) <$> sessions).

Record PeerLimiterDaemon (B : Type) := {
  store : PeerLimitStore;
  tracker : SessionTracker;
  state_repo : StateRepository;
  backend : option B;
  peers_over_limit : Z;
}.
Global Arguments store {B} _.
Global Arguments tracker {B} _.
Global Arguments state_repo {B} _.
Global Arguments backend {B} _.
Global Arguments peers_over_limit {B} _.

(** The record [iteration] appends for a session. *)
Definition session_record (allowed_endpoints : gset string)
    (session : PeerSession) : SessionRecord :=
  {| Endpoint := endpoint session;
     LastHandshake := last_handshake session;
     FirstSeen := first_seen session;
     LastSeen := last_seen session;
     RxBytes := rx_bytes session;
     TxBytes := tx_bytes session;
     RxDelta := rx_delta session;
     TxDelta := tx_delta session;
     IsAllowed := bool_decide (endpoint session ∈ allowed_endpoints) |}.

(** The body of [for session in active]: the plan and the records
    after one more session. *)
Definition record_session (allowed_endpoints : gset string)
    (acc : FirewallSyncPlan * list SessionRecord) (session : PeerSession)
  : FirewallSyncPlan * list SessionRecord :=
  let '(plan, records) := acc in
  let plan :=
    match split_endpoint (endpoint session) with
    | Some (ip, port') =>
        if PyStr.contains ":" ip
        then {| ipv4 := ipv4 plan; ipv6 := {[(ip, port')]} ∪ ipv6 plan; port := port plan |}
        else {| ipv4 := {[(ip, port')]} ∪ ipv4 plan; ipv6 := ipv6 plan; port := port plan |}
    | None => plan
    end in
  (plan, records ++ [session_record allowed_endpoints session]).

(** What the loops of [iteration] carry from one peer to the next. *)
Record Locals := {
  loc_tracker : SessionTracker;
  loc_state_repo : StateRepository;
  loc_plan : FirewallSyncPlan;
  loc_over_limit_count : Z;
}.

(** The body of [for peer_info in info.get("peers", [])].  An
    exception of the settings reader leaves the loop. *)
Definition iteration_peer (store : PeerLimitStore) (now : Z) (interface : string)
    (peer_info : PeerInfo) (loc : Locals) : Locals * option ValueError :=
  let peer_id := public_key peer_info in
  match get_peer_settings store interface peer_id with
  | Raise e => (loc, Some e)
  | Ok settings =>
      let '(sessions, tr) :=
        observe interface peer_id (Some (peer_endpoint peer_info))
          (Some (latest_handshake peer_info)) (peer_rx_bytes peer_info)
          (peer_tx_bytes peer_info) settings now (loc_tracker loc) in
      let '(active, tr) := active_sessions interface peer_id settings now tr in
      let '(allowed, tr) := allowed_sessions interface peer_id settings now tr in
      let allowed_endpoints : gset string := list_to_set (endpoint <$> allowed) in
      let over_limit_count :=
        match max_concurrent settings with
        | None | Some 0 => loc_over_limit_count loc
        | Some limit =>
            if limit <? Z.of_nat (length active)
            then loc_over_limit_count loc + 1 else loc_over_limit_count loc
        end in
      let '(plan, records) :=
        foldl (record_session allowed_endpoints) (loc_plan loc, []) active in
      ({| loc_tracker := tr;
          loc_state_repo := upsert_sessions interface peer_id records (loc_state_repo loc);
          loc_plan := plan;
          loc_over_limit_count := over_limit_count |}, None)
  end.

Fixpoint iteration_peers (store : PeerLimitStore) (now : Z) (interface : string)
    (peers : list PeerInfo) (loc : Locals) : Locals * option ValueError :=
  match peers with
  | [] => (loc, None)
  | peer_info :: peers' =>
      match iteration_peer store now interface peer_info loc with
      | (loc', None) => iteration_peers store now interface peers' loc'
      | raised => raised
      end
  end.

(** The loop [for interface, info in dump.items()], which fills
    [plans]. *)
Fixpoint iteration_interfaces (store : PeerLimitStore) (now : Z)
    (dump : list (string * InterfaceInfo))
    (tr : SessionTracker) (repo : StateRepository) (over_limit_count : Z)
    (plans : list (string * FirewallSyncPlan))
  : SessionTracker * StateRepository * Z * list (string * FirewallSyncPlan)
    * option ValueError :=
  match dump with
  | [] => (tr, repo, over_limit_count, plans, None)
  | (interface, info) :: dump' =>
      let plan := {| ipv4 := ∅; ipv6 := ∅; port := listen_port info |} in
      let '(loc, raised) :=
        iteration_peers store now interface (peers info)
          {| loc_tracker := tr; loc_state_repo := repo; loc_plan := plan;
             loc_over_limit_count := over_limit_count |} in
      match raised with
      | Some e =>
          (loc_tracker loc, loc_state_repo loc, loc_over_limit_count loc, plans, Some e)
      | None =>
          iteration_interfaces store now dump' (loc_tracker loc) (loc_state_repo loc)
            (loc_over_limit_count loc) (Dict.set interface (loc_plan loc) plans)
      end
  end.

(** [PeerLimiterDaemon.iteration], given what the collector returned
    and the clock reading.  The result is the exception that ended the
    iteration, if any. *)
Definition iteration {B} `{!FirewallBackend B}
    (dump : list (string * InterfaceInfo)) (now : Z)
  : Run (PeerLimiterDaemon B) (option ValueError) :=
  λ self w,
    let '(tr, repo, over_limit_count, plans, raised) :=
      iteration_interfaces (store self) now dump (tracker self) (state_repo self) 0 [] in
    match raised with
    | Some e =>
        (Some e,
         {| store := store self; tracker := tr; state_repo := repo;
            backend := backend self; peers_over_limit := peers_over_limit self |},
         w, [])
    | None =>
        match backend self with
        | Some b =>
            let '(_, b', w', log) := sync plans b w in
            (None,
             {| store := store self; tracker := tr; state_repo := repo;
                backend := Some b'; peers_over_limit := over_limit_count |},
             w', log)
        | None =>
            (None,
             {| store := store self; tracker := tr; state_repo := repo;
                backend := None; peers_over_limit := over_limit_count |},
             w, [])
        end
    end.

(** The plans one iteration hands to the backend. *)
Definition iteration_plans (store : PeerLimitStore)
    (dump : list (string * InterfaceInfo)) (now : Z) (tr : SessionTracker)
    (repo : StateRepository) : list (string * FirewallSyncPlan) :=
  (iteration_interfaces store now dump tr repo 0 []).1.2.

End host.
End Daemon.

(** ** States of the tracker and sequences of observations *)

Import PeerLimits Daemon.

(** What every dictionary of sessions satisfies: keys are distinct, each
    session sits under its own endpoint, and that endpoint names a
    session. *)
Definition wf_sessions (d : list (string * PeerSession)) : Prop :=
  NoDup (Dict.keys d)
  ∧ Forall (λ kv, endpoint kv.2 = kv.1 ∧ names_session kv.1 = true) d.

Definition wf_tracker (tr : SessionTracker) : Prop :=
  map_Forall (λ _ d, wf_sessions d) tr.

Global Instance wf_sessions_dec d : Decision (wf_sessions d).
Proof. unfold wf_sessions. apply _. Defined.

Global Instance wf_tracker_dec tr : Decision (wf_tracker tr).
Proof. unfold wf_tracker. apply _. Defined.

(** The sessions tracked for a key, and the one under an endpoint. *)
Definition tracked (tr : SessionTracker) (key : string * string) : list PeerSession :=
  Dict.values (default [] (tr !! key)).

Definition session_at (tr : SessionTracker) (key : string * string) (e : string)
  : option PeerSession :=
  Dict.get e (default [] (tr !! key)).

(** The arguments of one call of [observe]. *)
Record ObserveCall := {
  call_interface : string;
  call_peer_id : string;
  call_endpoint : option string;
  call_latest_handshake : option Z;
  call_rx_bytes : Z;
  call_tx_bytes : Z;
  call_settings : PeerLimitSettings;
  call_now : Z;
}.

Definition call_key (c : ObserveCall) : string * string :=
  (call_interface c, call_peer_id c).

Definition do_observe (c : ObserveCall) : State SessionTracker (list PeerSession) :=
  observe (call_interface c) (call_peer_id c) (call_endpoint c)
    (call_latest_handshake c) (call_rx_bytes c) (call_tx_bytes c)
    (call_settings c) (call_now c).

(** The tracker after a sequence of calls of [observe]. *)
Definition run_calls (calls : list ObserveCall) (tr : SessionTracker) : SessionTracker :=
  foldl (λ tr c, (do_observe c tr).2) tr calls.

(** The call [c] expires the session [s] tracked under [key]: the key is
    the call's and the session is older than the call's TTL window. *)
Definition expires (c : ObserveCall) (key : string * string) (s : PeerSession) : bool :=
  bool_decide (key = call_key c)
  && bool_decide (last_seen s
                  < call_now c - timedelta (Z.max (ttl_seconds (call_settings c)) 1)).

(** The session under [key] and [e] is tracked and no call of the sequence
    expires it. *)
Fixpoint outlives (key : string * string) (e : string) (tr : SessionTracker)
    (calls : list ObserveCall) : bool :=
  match calls with
  | [] => bool_decide (is_Some (session_at tr key e))
  | c :: calls' =>
      match session_at tr key e with
      | Some s => negb (expires c key s) && outlives key e (do_observe c tr).2 calls'
      | None => false
      end
  end.

(** The order of handshake times: an absent handshake is before any. *)
Definition handshake_le (a b : option Z) : Prop :=
  match a, b with
  | None, _ => True
  | Some x, Some y => x ≤ y
  | Some _, None => False
  end.

(** ** Element commands of the native backend *)

(** The command line [nft <verb> element inet wggo_limiter <set> <elements>]. *)
Definition element_command (verb set_name : string) (e : gset (string * Z)) : command :=
  [Word "nft"; Word verb; Word "element"; Word "inet"; Word TABLE_NAME;
   Word set_name; Elements e].

(** A command line whose object is [element]. *)
Definition is_element_command (c : command) : bool :=
  bool_decide (c !! 2%nat = Some (Word "element")).

(** An element command with this verb on this set. *)
Definition on_set (verb set_name : string) (c : command) : bool :=
  bool_decide (take 6 c = take 6 (element_command verb set_name ∅)).

(** What the spec describes for one set: one [add element] with
    [desired − current] when that is not empty, then one [delete element]
    with [current − desired] when that is not empty. *)
Definition diff_commands (set_name : string) (desired current : gset (string * Z))
  : list command :=
  (if bool_decide (desired ∖ current = ∅) then []
   else [element_command "add" set_name (desired ∖ current)])
  ++ (if bool_decide (current ∖ desired = ∅) then []
      else [element_command "delete" set_name (current ∖ desired)]).

(** The element commands the spec describes for a call of [sync]: for
    each interface in turn, those of its IPv4 set and then those of its
    IPv6 set, against the sets the backend tracks. *)
Definition expected_element_commands (b : NftablesBackend)
    (plans : list (string * FirewallSyncPlan)) : list command :=
  flat_map (λ item,
              diff_commands (set_v4_name item.1) (ipv4 item.2)
                (default ∅ (current_v4 b !! item.1))
              ++ diff_commands (set_v6_name item.1) (ipv6 item.2)
                   (default ∅ (current_v6 b !! item.1)))
           plans.

(** The backend tracks, for every interface of [plans], exactly the sets
    of its plan. *)
Definition synced (plans : list (string * FirewallSyncPlan))
    (b : NftablesBackend) : Prop :=
  ∀ i plan, (i, plan) ∈ plans →
    i ∈ initialized b
    ∧ current_v4 b !! i = Some (ipv4 plan)
    ∧ current_v6 b !! i = Some (ipv6 plan).

(** The parts of what a [Run] computation returns. *)
Definition run_self {S W A} (r : A * S * W * list command) : S := r.1.1.2.
Definition run_host {S W A} (r : A * S * W * list command) : W := r.1.2.
Definition run_log {S W A} (r : A * S * W * list command) : list command := r.2.

(** ** Scenarios *)

(** Times are microseconds; [seconds 5] is five seconds after the epoch. *)
Definition seconds (n : Z) : Z := n * 1000000.

(** The tracker of the repository's tests: one peer seen at
    [10.0.0.1:50000] at time 0 and at [10.0.0.2:50001] five seconds
    later. *)
Definition limit_one (p : PeerLimitPolicy) (ttl grace : Z) : PeerLimitSettings :=
  {| max_concurrent := Some 1; policy := p; ttl_seconds := ttl; grace_seconds := grace |}.

Definition two_sessions (st : PeerLimitSettings) : SessionTracker :=
  run_calls
    [{| call_interface := "wg0"; call_peer_id := "peer";
        call_endpoint := Some "10.0.0.1:50000"; call_latest_handshake := Some 1700000000;
        call_rx_bytes := 100; call_tx_bytes := 0; call_settings := st;
        call_now := seconds 0 |};
     {| call_interface := "wg0"; call_peer_id := "peer";
        call_endpoint := Some "10.0.0.2:50001"; call_latest_handshake := Some 1700000005;
        call_rx_bytes := 200; call_tx_bytes := 0; call_settings := st;
        call_now := seconds 5 |}]
    new_tracker.

(** One peer seen once, at time 0, with [rx_bytes = 1000]. *)
Definition one_session (st : PeerLimitSettings) : SessionTracker :=
  (observe "wg0" "peer" (Some "10.0.0.1:50000") (Some 1700000000) 1000 0 st
     (seconds 0) new_tracker).2.

(** Two later observations of that endpoint: an earlier handshake time,
    then a later one. *)
Definition handshake_calls (st : PeerLimitSettings) : list ObserveCall :=
  [{| call_interface := "wg0"; call_peer_id := "peer";
      call_endpoint := Some "10.0.0.1:50000"; call_latest_handshake := Some 1600000000;
      call_rx_bytes := 1500; call_tx_bytes := 0; call_settings := st;
      call_now := seconds 1 |};
   {| call_interface := "wg0"; call_peer_id := "peer";
      call_endpoint := Some " 10.0.0.1:50000 "; call_latest_handshake := Some 1700000100;
      call_rx_bytes := 1500; call_tx_bytes := 0; call_settings := st;
      call_now := seconds 2 |}].

(** A settings table with one row, for [peerA] on [wg0]. *)
Definition store_with (max policy : pyval) : PeerLimitStore :=
  {[ "wg0" := {[ "peerA" := {| row_max_concurrent := max;
                               row_connection_policy := policy;
                               row_session_ttl := PyInt 180;
                               row_grace_seconds := PyInt 5 |} ]} ]}.

(** A dump with the interface [wg0] and its peer [peerA]. *)
Definition dump_with (e : string) (rx : Z) : list (string * InterfaceInfo) :=
  [("wg0", {| listen_port := 51820;
              peers := [{| public_key := "peerA"; peer_endpoint := e;
                           latest_handshake := 1700000000;
                           peer_rx_bytes := rx; peer_tx_bytes := 0 |}] |})].

(** A host on which every command succeeds. *)
Definition obliging_host (c : command) (w : unit) : Z * unit := (0, tt).

(** A daemon with the native backend, limit 1 for [peerA], nothing
    tracked. *)
Definition fresh_daemon : PeerLimiterDaemon NftablesBackend :=
  {| store := store_with (PyInt 1) (PyStr "new_wins"); tracker := new_tracker;
     state_repo := []; backend := Some new_backend; peers_over_limit := 0 |}.

Definition tick (e : string) (rx now : Z) (d : PeerLimiterDaemon NftablesBackend)
  : option ValueError * PeerLimiterDaemon NftablesBackend * unit * list command :=
  iteration (FirewallBackend0 := NftablesBackend_backend obliging_host)
    (dump_with e rx) now d tt.

(** The peer is at [10.0.0.1:50000] at time 0 and has moved to
    [10.0.0.2:50001] by second 10, where it still is at second 20. *)
Definition roamed_daemon : PeerLimiterDaemon NftablesBackend :=
  run_self (tick "10.0.0.2:50001" 200 (seconds 10)
              (run_self (tick "10.0.0.1:50000" 100 (seconds 0) fresh_daemon))).

(** The IPv4 endpoints the backend of a daemon keeps accepted for an
    interface. *)
Definition accepted_v4 (d : PeerLimiterDaemon NftablesBackend) (interface : string)
  : gset (string * Z) :=
  match backend d with
  | Some b => default ∅ (current_v4 b !! interface)
  | None => ∅
  end.

(** The backend tracks [(10.0.0.1, 1111)] for [wg0], and the plan wants
    [(10.0.0.2, 2222)] as well. *)
Definition tracking_one : NftablesBackend :=
  {| initialized := {["wg0"]};
     current_v4 := {["wg0" := {[("10.0.0.1", 1111)]}]};
     current_v6 := {["wg0" := ∅]} |}.

Definition plans_two : list (string * FirewallSyncPlan) :=
  [("wg0", {| ipv4 := {[("10.0.0.1", 1111); ("10.0.0.2", 2222)]};
              ipv6 := ∅; port := 51820 |})].

(** ** Further definitions *)

(** Every tracked session was first seen no later than it was last seen,
    and last seen no later than [t]. *)
Definition times_ordered (t : Z) (tr : SessionTracker) : Prop :=
  map_Forall (λ _ d, Forall (λ kv : string * PeerSession,
                               first_seen kv.2 ≤ last_seen kv.2 ≤ t) d) tr.

(** The TTL window of a call: [now - timedelta(seconds=max(ttl_seconds, 1))]. *)
Definition ttl_window (st : PeerLimitSettings) (now : Z) : Z :=
  now - timedelta (Z.max (ttl_seconds st) 1).

(** A call of [observe] on [wg0] with the settings of the tests. *)
Definition call_for (peer_id endpoint : string) (rx now : Z) : ObserveCall :=
  {| call_interface := "wg0"; call_peer_id := peer_id;
     call_endpoint := Some endpoint; call_latest_handshake := Some 1700000000;
     call_rx_bytes := rx; call_tx_bytes := 0;
     call_settings := limit_one NEW_WINS 180 5; call_now := now |}.

(** [PeerLimitSettings.to_record]: the settings as a row of the settings
    table. *)
Definition to_record (self : PeerLimitSettings) : Row :=
  {| row_max_concurrent :=
       match max_concurrent self with
       | None | Some 0 => PyNone
       | Some n => PyInt n
       end;
     row_connection_policy := PyStr (policy_value (policy self));
     row_session_ttl := PyInt (ttl_seconds self);
     row_grace_seconds := PyInt (grace_seconds self) |}.

(** Settings as the data model has them: a limit, when there is one, is
    positive; the TTL is at least one second; the grace period is not
    negative. *)
Definition valid_settings (st : PeerLimitSettings) : Prop :=
  (∀ M, max_concurrent st = Some M → 0 < M)
  ∧ 1 ≤ ttl_seconds st ∧ 0 ≤ grace_seconds st.

(** [str(n)] for an [int]: a minus sign for a negative number, then the
    decimal digits, most significant first.  [digits_of fuel n acc] puts
    the digits of [n >= 0] in front of [acc]; the fuel bounds their
    number. *)
Definition digit_char (d : Z) : ascii := ascii_of_nat (48 + Z.to_nat d).

Fixpoint digits_of (fuel : nat) (n : Z) (acc : string) : string :=
  match fuel with
  | O => acc
  | S fuel' =>
      let acc' := String (digit_char (n mod 10)) acc in
      if n <? 10 then acc' else digits_of fuel' (n / 10) acc'
  end.

Definition str_of_int (n : Z) : string :=
  if n <? 0 then String "-" (digits_of (S (Z.to_nat (Z.log2 (- n)))) (- n) "")
  else digits_of (S (Z.to_nat (Z.log2 n))) n "".

(** Every character of the string passes the test. *)
Fixpoint all_chars (P : ascii → bool) (s : string) : bool :=
  match s with
  | EmptyString => true
  | String c r => P c && all_chars P r
  end.

Definition is_digit (c : ascii) : bool :=
  bool_decide (is_Some (PyStr.digit_value c)).

(** A character that is a digit or the minus sign. *)
Definition is_sign_or_digit (c : ascii) : bool := is_digit c || bool_decide (c = "-"%char).

(** What a turn of the loop of [sync] notes in the backend for an
    interface and its plan. *)
Definition note_synced (b : NftablesBackend) (item : string * FirewallSyncPlan)
  : NftablesBackend :=
  {| initialized := {[item.1]} ∪ initialized b;
     current_v4 := <[item.1 := ipv4 item.2]> (current_v4 b);
     current_v6 := <[item.1 := ipv6 item.2]> (current_v6 b) |}.




(** A host on which every command fails. *)
Definition refusing_host (c : command) (w : unit) : Z * unit := (1, tt).

(** ** What an iteration computes for a peer *)

(** The settings row of the peer can be read: [get_peer_settings] returns. *)
Definition readable (store : PeerLimitStore) (interface : string) (peer_info : PeerInfo)
  : bool :=
  match get_peer_settings store interface (public_key peer_info) with
  | Ok _ => true
  | Raise _ => false
  end.

(** Every settings row that [iteration] reads for the dump can be read. *)
Definition settings_ok (store : PeerLimitStore) (dump : list (string * InterfaceInfo))
  : bool :=
  forallb (λ item : string * InterfaceInfo, forallb (readable store item.1) (peers item.2))
    dump.

(** The dump names each interface once (it is a dictionary) and each peer
    once under its interface. *)
Definition distinct_peers (dump : list (string * InterfaceInfo)) : Prop :=
  NoDup dump.*1
  ∧ Forall (λ item : string * InterfaceInfo, NoDup (public_key <$> peers item.2)) dump.

Global Instance distinct_peers_dec dump : Decision (distinct_peers dump).
Proof. unfold distinct_peers. apply _. Defined.

(** The settings [iteration] uses for a peer, and what it computes from
    them and a tracker: the active and the allowed sessions, the records
    for the repository, and whether the peer counts as over its limit. *)
Definition peer_settings (store : PeerLimitStore) (interface : string)
    (peer_info : PeerInfo) : PeerLimitSettings :=
  match get_peer_settings store interface (public_key peer_info) with
  | Ok settings => settings
  | Raise _ => default_settings
  end.

Definition peer_active (store : PeerLimitStore) (now : Z) (tr : SessionTracker)
    (interface : string) (peer_info : PeerInfo) : list PeerSession :=
  (active_sessions interface (public_key peer_info)
     (peer_settings store interface peer_info) now tr).1.

Definition peer_allowed (store : PeerLimitStore) (now : Z) (tr : SessionTracker)
    (interface : string) (peer_info : PeerInfo) : list PeerSession :=
  (allowed_sessions interface (public_key peer_info)
     (peer_settings store interface peer_info) now tr).1.

Definition peer_records (store : PeerLimitStore) (now : Z) (tr : SessionTracker)
    (interface : string) (peer_info : PeerInfo) : list SessionRecord :=
  session_record (list_to_set (endpoint <$> peer_allowed store now tr interface peer_info))
  <$> peer_active store now tr interface peer_info.

Definition peer_over_limit (store : PeerLimitStore) (now : Z) (tr : SessionTracker)
    (interface : string) (peer_info : PeerInfo) : bool :=
  match max_concurrent (peer_settings store interface peer_info) with
  | None | Some 0 => false
  | Some limit => limit <? Z.of_nat (length (peer_active store now tr interface peer_info))
  end.

(** The records the repository holds for a peer, in the order of the
    table. *)
Definition repo_rows (repo : list (string * string * SessionRecord)) (interface peer_id : string)
  : list SessionRecord :=
  (λ row, row.2) <$> filter (λ row, row.1.1 = interface ∧ row.1.2 = peer_id) repo.

(** The results of the loops of [iteration]. *)
Definition iteration_tracker (store : PeerLimitStore)
    (dump : list (string * InterfaceInfo)) (now : Z) (tr : SessionTracker)
    (repo : list (string * string * SessionRecord)) : SessionTracker :=
  (iteration_interfaces store now dump tr repo 0 []).1.1.1.1.

Definition iteration_repo (store : PeerLimitStore)
    (dump : list (string * InterfaceInfo)) (now : Z) (tr : SessionTracker)
    (repo : list (string * string * SessionRecord)) : list (string * string * SessionRecord) :=
  (iteration_interfaces store now dump tr repo 0 []).1.1.1.2.

Definition iteration_over_limit (store : PeerLimitStore)
    (dump : list (string * InterfaceInfo)) (now : Z) (tr : SessionTracker)
    (repo : list (string * string * SessionRecord)) : Z :=
  (iteration_interfaces store now dump tr repo 0 []).1.1.2.

Global Instance PeerInfo_eq_dec : EqDecision PeerInfo.
Proof. solve_decision. Defined.

(** The peers of a dump with their interfaces, in the order in which
    [iteration] visits them, and their keys in the tracker. *)
Definition dump_peers (dump : list (string * InterfaceInfo)) : list (string * PeerInfo) :=
  flat_map (λ item : string * InterfaceInfo, (λ peer, (item.1, peer)) <$> peers item.2) dump.

Definition dump_keys (dump : list (string * InterfaceInfo)) : list (string * string) :=
  (λ ip : string * PeerInfo, (ip.1, public_key ip.2)) <$> dump_peers dump.

(** The endpoints of the sessions that parse, of one address family: with
    a colon in the address ([family6]) or without. *)
Definition endpoints_of (family6 : bool) (sessions : list PeerSession)
  : gset (string * Z) :=
  list_to_set
    (omap (λ s, match split_endpoint (endpoint s) with
                | Some x => if bool_decide (PyStr.contains ":" x.1 = family6)
                            then Some x else None
                | None => None
                end) sessions).

(** The plan of an interface as the tracker gives it: the endpoints of
    the active sessions of the peers of the interface. *)
Definition interface_plan (store : PeerLimitStore) (now : Z) (tr : SessionTracker)
    (item : string * InterfaceInfo) : FirewallSyncPlan :=
  let active := flat_map (peer_active store now tr item.1) (peers item.2) in
  {| ipv4 := endpoints_of false active;
     ipv6 := endpoints_of true active;
     port := listen_port item.2 |}.

(** The locals at the start of the loop over the peers of an interface. *)
Definition interface_start (tr : SessionTracker)
    (repo : list (string * string * SessionRecord)) (count : Z) (info : InterfaceInfo)
  : Locals :=
  {| loc_tracker := tr; loc_state_repo := repo;
     loc_plan := {| ipv4 := ∅; ipv6 := ∅; port := listen_port info |};
     loc_over_limit_count := count |}.

(** A daemon whose settings table holds a policy that does not exist. *)
Definition unreadable_daemon : PeerLimiterDaemon NftablesBackend :=
  {| store := store_with (PyInt 1) (PyStr "sticky"); tracker := new_tracker;
     state_repo := []; backend := Some new_backend; peers_over_limit := 0 |}.

(** A daemon for which no firewall backend was found. *)
Definition open_daemon : PeerLimiterDaemon NftablesBackend :=
  {| store := store_with (PyInt 1) (PyStr "new_wins"); tracker := new_tracker;
     state_repo := []; backend := None; peers_over_limit := 0 |}.

(** ** The iptables/ipset backend *)

(** [IptablesBackend]: the sets it tracks (IPv4 only) and the interfaces
    it has set up. *)
Record IptablesBackend := {
  ipt_current : gmap string (gset (string * Z));
  ipt_initialized : gset string;
}.

Definition new_iptables_backend : IptablesBackend :=
  {| ipt_current := ∅; ipt_initialized := ∅ |}.

Definition ipt_set_name (interface : string) : string :=
  "wggo_" +:+ interface +:+ "_allowed".

(** The command lines [ipset <verb> <set> "<ip>,<port>"], one for each
    element of the set, in the order in which the set is iterated. *)
Definition ipset_entry (x : string * Z) : string := x.1 +:+ "," +:+ str_of_int x.2.

Definition ipset_command (verb set_name : string) (x : string * Z) : command :=
  [Word "ipset"; Word verb; Word set_name; Word (ipset_entry x)].

Definition ipset_commands (verb set_name : string) (xs : gset (string * Z))
  : list command :=
  ipset_command verb set_name <$> elements xs.

(** The command line that checks the rule of an interface, and the one
    that inserts it. *)
Definition ipt_rule (action : list arg) (set_name : string) (port : Z) : command :=
  [Word "iptables"] ++ action
  ++ [Word "-p"; Word "udp"; Word "--dport"; Word (str_of_int port); Word "-m";
      Word "set"; Word "!"; Word "--match-set"; Word set_name; Word "src,src";
      Word "-j"; Word "DROP"].

Section iptables.
Context {W : Type} (subprocess_run : command → W → Z * W).

Definition ipt_run (command : command) : Run (W:=W) IptablesBackend Z :=
  exec subprocess_run command.

Definition ipt_ensure_interface (interface : string) (port : Z)
  : Run (W:=W) IptablesBackend unit :=
  known ← get_self (λ b, bool_decide (interface ∈ ipt_initialized b));
  if known : bool then mret tt
  else
    let set_name := ipt_set_name interface in
    rc ← ipt_run [Word "ipset"; Word "list"; Word set_name];
    _ ← when (negb (bool_decide (rc = 0)))
          (_ ← ipt_run [Word "ipset"; Word "create"; Word set_name;
                        Word "hash:ip,port"; Word "family"; Word "inet"]; mret tt);
    rc ← ipt_run (ipt_rule [Word "-C"; Word "INPUT"] set_name port);
    _ ← when (negb (bool_decide (rc = 0)))
          (_ ← ipt_run (ipt_rule [Word "-I"; Word "INPUT"; Word "1"] set_name port);
           mret tt);
    set_self (λ b, {| ipt_current := ipt_current b;
                      ipt_initialized := {[interface]} ∪ ipt_initialized b |}).

(** The body of the loop of [sync], for one interface and its plan.  The
    warning about IPv6 endpoints goes to the log of the daemon and
    changes nothing. *)
Definition ipt_sync_interface (item : string * FirewallSyncPlan)
  : Run (W:=W) IptablesBackend unit :=
  let '(interface, plan) := item in
  let set_name := ipt_set_name interface in
  _ ← ipt_ensure_interface interface (port plan);
  current ← get_self (λ b, default ∅ (ipt_current b !! interface));
  let to_add := ipv4 plan ∖ current in
  let to_remove := current ∖ ipv4 plan in
  _ ← for_each (elements to_add)
        (λ x, _ ← ipt_run (ipset_command "add" set_name x); mret tt);
  _ ← for_each (elements to_remove)
        (λ x, _ ← ipt_run (ipset_command "del" set_name x); mret tt);
  set_self (λ b, {| ipt_current := <[interface := ipv4 plan]> (ipt_current b);
                    ipt_initialized := ipt_initialized b |}).

Definition ipt_sync (plans : list (string * FirewallSyncPlan))
  : Run (W:=W) IptablesBackend unit :=
  for_each plans ipt_sync_interface.

Definition ipt_teardown_peer (interface : string)
  : Run (W:=W) IptablesBackend unit :=
  set_self (λ b, {| ipt_current := delete interface (ipt_current b);
                    ipt_initialized := ipt_initialized b |}).

#[export] Instance IptablesBackend_backend : FirewallBackend (W:=W) IptablesBackend := {
  ensure_interface := ipt_ensure_interface;
  sync := ipt_sync;
  teardown_peer := ipt_teardown_peer;
}.
End iptables.

(** The commands the spec of the fallback backend describes for a call
    of [sync] on interfaces that are set up: for each interface in turn,
    one [ipset add] for each element of [desired − current] and one
    [ipset del] for each element of [current − desired]. *)
Definition ipt_expected_commands (b : IptablesBackend)
    (plans : list (string * FirewallSyncPlan)) : list command :=
  flat_map (λ item : string * FirewallSyncPlan,
              let current := default ∅ (ipt_current b !! item.1) in
              ipset_commands "add" (ipt_set_name item.1) (ipv4 item.2 ∖ current)
              ++ ipset_commands "del" (ipt_set_name item.1) (current ∖ ipv4 item.2))
           plans.

(** A command line of [ipset add] or [ipset del]. *)
Definition is_ipset_entry_command (c : command) : bool :=
  bool_decide (c !! 0%nat = Some (Word "ipset")
               ∧ (c !! 1%nat = Some (Word "add") ∨ c !! 1%nat = Some (Word "del"))).

(** The plans without their IPv6 sets. *)
Definition without_ipv6 (plans : list (string * FirewallSyncPlan))
  : list (string * FirewallSyncPlan) :=
  (λ item : string * FirewallSyncPlan,
     (item.1, {| ipv4 := ipv4 item.2; ipv6 := ∅; port := port item.2 |})) <$> plans.

(** What a turn of the loop of [sync] of the fallback backend notes for
    an interface and its plan. *)
Definition ipt_note_synced (b : IptablesBackend) (item : string * FirewallSyncPlan)
  : IptablesBackend :=
  {| ipt_current := <[item.1 := ipv4 item.2]> (ipt_current b);
     ipt_initialized := {[item.1]} ∪ ipt_initialized b |}.

(** ** The dump collector *)




(** [s.split(sep)] for a separator of one character. *)
Fixpoint split_from (sep : ascii) (s cur : string) : list string :=
  match s with
  | EmptyString => [cur]
  | String c r =>
      if bool_decide (c = sep) then cur :: split_from sep r ""
      else split_from sep r (cur +:+ String c "")
  end.

Definition split_tab (line : string) : list string := split_from "009"%char line "".

(** [int(field) if field else 0] *)
Definition int_or_zero (field : string) : result Z :=
  if bool_decide (field = "") then Ok 0
  else match PyStr.int_of_str field with
       | Some n => Ok n
       | None => Raise (invalid_literal_for_int field)
       end.

Definition part (parts : list string) (i : nat) : string := default "" (parts !! i).

(** What the loop of [collect] carries: the dictionary of the interfaces
    and [current_iface]. *)
Definition CollectState : Type := list (string * InterfaceInfo) * option string.

(** [current_iface] is neither [None] nor empty. *)
Definition truthy (current_iface : option string) : bool :=
  match current_iface with
  | Some name => negb (bool_decide (name = ""))
  | None => false
  end.

(** The body of the loop over the lines.  The key of [current_iface] is
    in the dictionary, since the header line put it there. *)
Definition collect_line (line : string) (st : CollectState) : result CollectState :=
  if bool_decide (line = "") then Ok st
  else
    let parts := split_tab line in
    if bool_decide (length parts = 5%nat) then
      match int_or_zero (part parts 3) with
      | Raise e => Raise e
      | Ok listen =>
          Ok (Dict.set (part parts 0) {| listen_port := listen; peers := [] |} st.1,
              Some (part parts 0))
      end
    else if bool_decide (8 ≤ length parts)%nat && truthy st.2 then
      match int_or_zero (part parts 4) with
      | Raise e => Raise e
      | Ok handshake =>
          match int_or_zero (part parts 5) with
          | Raise e => Raise e
          | Ok rx =>
              match int_or_zero (part parts 6) with
              | Raise e => Raise e
              | Ok tx =>
                  let peer := {| public_key := part parts 0;
                                 peer_endpoint := part parts 2;
                                 latest_handshake := handshake;
                                 peer_rx_bytes := rx;
                                 peer_tx_bytes := tx |} in
                  let name := default "" st.2 in
                  match Dict.get name st.1 with
                  | Some info =>
                      Ok (Dict.set name {| listen_port := listen_port info;
                                           peers := peers info ++ [peer] |} st.1, st.2)
                  | None => Ok st
                  end
              end
          end
      end
    else Ok st.

Fixpoint collect_lines (lines : list string) (st : CollectState) : result CollectState :=
  match lines with
  | [] => Ok st
  | line :: lines' =>
      match collect_line line st with
      | Raise e => Raise e
      | Ok st' => collect_lines lines' st'
      end
  end.




Definition is_header (line : string) : bool :=
  negb (bool_decide (line = "")) && bool_decide (length (split_tab line) = 5%nat).

Definition is_peer_line (line : string) : bool :=
  negb (bool_decide (line = "")) && bool_decide (8 ≤ length (split_tab line))%nat.


(** What the loop of [collect] keeps: the names of the interfaces are
    distinct, and the current interface is one of them. *)
Definition collect_inv (st : CollectState) : Prop :=
  NoDup (Dict.keys st.1) ∧ ∀ name, st.2 = Some name → name ∈ Dict.keys st.1.

(** * Properties *)

(** ** Strings *)

Section string_facts.
Import PyStr.

Lemma str_app_nil_l (s : string) : "" +:+ s = s.
Proof. reflexivity. Qed.

Lemma str_app_cons (c : ascii) (s t : string) : String c s +:+ t = String c (s +:+ t).
Proof. reflexivity. Qed.

Lemma str_app_length (s t : string) :
  String.length (s +:+ t) = (String.length s + String.length t)%nat.
Proof. induction s as [|c s IH]; [done|]. rewrite str_app_cons. simpl. by rewrite IH. Qed.

(** Two ways to cut one string at the same position agree. *)
Lemma app_eq_same_length (a a' b b' : string) :
  a +:+ b = a' +:+ b' → String.length a = String.length a' → a = a' ∧ b = b'.
Proof.
  revert a'. induction a as [|c a IH]; intros [|c' a'] Heq Hlen;
    try discriminate; [done|].
  rewrite !str_app_cons in Heq. injection Heq as -> Heq.
  injection Hlen as Hlen. destruct (IH _ Heq Hlen) as [-> ->]. done.
Qed.

Lemma strip_prefix_Some (p s r : string) :
  strip_prefix p s = Some r ↔ s = p +:+ r.
Proof.
  revert s. induction p as [|a p IH]; intros s; simpl.
  - rewrite str_app_nil_l. split; congruence.
  - destruct s as [|b s]; rewrite str_app_cons; [split; discriminate|].
    case_bool_decide as Hab.
    + subst b. rewrite IH. split; [by intros ->|]. by intros [= ->].
    + split; [discriminate|]. intros [= -> _]. done.
Qed.

Lemma strip_prefix_None (p s : string) :
  strip_prefix p s = None ↔ ∀ r, s ≠ p +:+ r.
Proof.
  split.
  - intros Hn r Hr. apply strip_prefix_Some in Hr. congruence.
  - intros Hn. destruct (strip_prefix p s) as [r|] eqn:E; [|done].
    apply strip_prefix_Some in E. by destruct (Hn r).
Qed.

(** [split1] finds an occurrence, and no occurrence starts before it. *)
Lemma split1_Some (sep s a b : string) :
  sep ≠ "" →
  split1 sep s = Some (a, b) →
  s = a +:+ sep +:+ b
  ∧ ∀ a' b', s = a' +:+ sep +:+ b' → (String.length a ≤ String.length a')%nat.
Proof.
  intros Hsep. revert a b. induction s as [|c s IH]; intros a b.
  - simpl. destruct (strip_prefix sep "") as [r|] eqn:E; [|done].
    intros [= <- <-]. apply strip_prefix_Some in E. split; [done|].
    intros; simpl; lia.
  - cbn [split1]. destruct (strip_prefix sep (String c s)) as [r|] eqn:E.
    + intros [= <- <-]. apply strip_prefix_Some in E. split; [done|].
      intros; simpl; lia.
    + destruct (split1 sep s) as [[a0 b0]|] eqn:E0; [|done].
      intros [= <- <-]. destruct (IH _ _ eq_refl) as [-> Hmin].
      split; [done|]. intros [|c' a'] b' Heq.
      * rewrite str_app_nil_l in Heq. apply strip_prefix_Some in Heq. congruence.
      * rewrite str_app_cons in Heq. injection Heq as _ Heq.
        specialize (Hmin _ _ Heq). simpl. lia.
Qed.

Lemma split1_None (sep s : string) :
  split1 sep s = None → ∀ a b, s ≠ a +:+ sep +:+ b.
Proof.
  induction s as [|c s IH]; cbn [split1].
  - destruct (strip_prefix sep "") as [r|] eqn:E; [done|]. intros _ a b Heq.
    destruct a as [|c a]; [|by rewrite str_app_cons in Heq].
    rewrite str_app_nil_l in Heq. apply strip_prefix_Some in Heq. congruence.
  - destruct (strip_prefix sep (String c s)) as [r|] eqn:E; [done|].
    destruct (split1 sep s) as [[a0 b0]|] eqn:E0; [done|].
    intros _ [|c' a] b Heq.
    + rewrite str_app_nil_l in Heq. apply strip_prefix_Some in Heq. congruence.
    + rewrite str_app_cons in Heq. injection Heq as _ Heq. by eapply IH.
Qed.

(** Conversely, the leftmost occurrence is what [split1] returns. *)
Lemma split1_leftmost (sep s a b : string) :
  sep ≠ "" →
  s = a +:+ sep +:+ b →
  (∀ a' b', s = a' +:+ sep +:+ b' → (String.length a ≤ String.length a')%nat) →
  split1 sep s = Some (a, b).
Proof.
  intros Hsep Heq Hmin. destruct (split1 sep s) as [[a0 b0]|] eqn:E.
  - destruct (split1_Some _ _ _ _ Hsep E) as [Heq0 Hmin0].
    pose proof (Hmin _ _ Heq0). pose proof (Hmin0 _ _ Heq).
    rewrite Heq0 in Heq.
    destruct (app_eq_same_length _ _ _ _ Heq) as [-> Hb]; [lia|].
    apply (inj (String.app sep)) in Hb. by subst.
  - by destruct (split1_None _ _ E a b).
Qed.

Lemma rsplit1_None (sep s : string) :
  sep ≠ "" → rsplit1 sep s = None → ∀ a b, s ≠ a +:+ sep +:+ b.
Proof.
  intros Hsep. induction s as [|c s IH]; cbn [rsplit1].
  - intros _ [|c a] b; [|by rewrite str_app_cons].
    rewrite str_app_nil_l. by destruct sep.
  - destruct (rsplit1 sep s) as [[a0 b0]|] eqn:E0; [done|].
    destruct (strip_prefix sep (String c s)) as [r|] eqn:E; [done|].
    intros _ [|c' a] b Heq.
    + rewrite str_app_nil_l in Heq. apply strip_prefix_Some in Heq. congruence.
    + rewrite str_app_cons in Heq. injection Heq as _ Heq. by eapply IH.
Qed.

(** [rsplit1] finds an occurrence, and no occurrence starts after it. *)
Lemma rsplit1_Some (sep s a b : string) :
  sep ≠ "" →
  rsplit1 sep s = Some (a, b) →
  s = a +:+ sep +:+ b
  ∧ ∀ a' b', s = a' +:+ sep +:+ b' → (String.length a' ≤ String.length a)%nat.
Proof.
  intros Hsep. revert a b. induction s as [|c s IH]; intros a b; [done|].
  cbn [rsplit1]. destruct (rsplit1 sep s) as [[a0 b0]|] eqn:E0.
  - intros [= <- <-]. destruct (IH _ _ eq_refl) as [-> Hmax]. split; [done|].
    intros [|c' a'] b' Heq; [simpl; lia|].
    rewrite str_app_cons in Heq. injection Heq as _ Heq.
    specialize (Hmax _ _ Heq). simpl. lia.
  - destruct (strip_prefix sep (String c s)) as [r|] eqn:E; [|done].
    intros [= <- <-]. apply strip_prefix_Some in E. split; [done|].
    intros [|c' a'] b' Heq; [simpl; lia|].
    rewrite str_app_cons in Heq. injection Heq as _ Heq.
    by destruct (rsplit1_None _ _ Hsep E0 a' b').
Qed.

Lemma rsplit1_rightmost (sep s a b : string) :
  sep ≠ "" →
  s = a +:+ sep +:+ b →
  (∀ a' b', s = a' +:+ sep +:+ b' → (String.length a' ≤ String.length a)%nat) →
  rsplit1 sep s = Some (a, b).
Proof.
  intros Hsep Heq Hmax. destruct (rsplit1 sep s) as [[a0 b0]|] eqn:E.
  - destruct (rsplit1_Some _ _ _ _ Hsep E) as [Heq0 Hmax0].
    pose proof (Hmax _ _ Heq0). pose proof (Hmax0 _ _ Heq).
    rewrite Heq0 in Heq.
    destruct (app_eq_same_length _ _ _ _ Heq) as [-> Hb]; [lia|].
    apply (inj (String.app sep)) in Hb. by subst.
  - by destruct (rsplit1_None _ _ Hsep E a b).
Qed.

End string_facts.

Section strip_facts.
Import PyStr.

Lemma rstrip_cons (c : ascii) (r : string) :
  rstrip (String c r) =
  match rstrip r with
  | EmptyString => if is_space c then EmptyString else String c EmptyString
  | r' => String c r'
  end.
Proof. reflexivity. Qed.

Lemma rstrip_idemp (s : string) : rstrip (rstrip s) = rstrip s.
Proof.
  induction s as [|c s IH]; [done|]. rewrite rstrip_cons.
  destruct (rstrip s) as [|d r] eqn:E.
  - destruct (is_space c) eqn:Ec; [done|]. rewrite rstrip_cons. simpl. by rewrite Ec.
  - by rewrite rstrip_cons, IH.
Qed.

Lemma lstrip_head (s : string) :
  lstrip s = "" ∨ ∃ c r, lstrip s = String c r ∧ is_space c = false.
Proof.
  induction s as [|c s IH]; [by left|]. cbn [lstrip].
  destruct (is_space c) eqn:Ec; [done|]. right. by exists c, s.
Qed.

Lemma strip_idemp (s : string) : strip (strip s) = strip s.
Proof.
  unfold strip. destruct (lstrip_head s) as [->|(c & r & -> & Hc)]; [done|].
  assert (lstrip (rstrip (String c r)) = rstrip (String c r)) as ->.
  { rewrite rstrip_cons. destruct (rstrip r); rewrite ?Hc; cbn [lstrip]; by rewrite Hc. }
  apply rstrip_idemp.
Qed.

Lemma lower_app (s t : string) : lower (s +:+ t) = lower s +:+ lower t.
Proof. induction s as [|c s IH]; [done|]. rewrite !str_app_cons. simpl. by rewrite IH. Qed.

(** A string with a colon does not read ["(none)"]. *)
Lemma lower_none_no_colon (h port : string) :
  lower (h +:+ ":" +:+ port) ≠ "(none)".
Proof.
  intros H.
  do 6 (destruct h as [|? h];
        [rewrite str_app_nil_l in H; discriminate H
        |rewrite str_app_cons in H; simpl in H; injection H as _ H]).
  by destruct h.
Qed.

End strip_facts.

(** ** Stable sorting *)

Section sorting_facts.
Context {A : Type} (before : A → A → bool).

Lemma insert_by_Permutation (x : A) (l : list A) :
  insert_by before x l ≡ₚ x :: l.
Proof.
  induction l as [|y l IH]; simpl; [done|].
  destruct (before x y); [done|]. rewrite IH. apply Permutation_swap.
Qed.

Lemma stable_sort_Permutation (l : list A) : stable_sort before l ≡ₚ l.
Proof.
  induction l as [|x l IH]; simpl; [done|].
  unfold stable_sort in *. by rewrite insert_by_Permutation, IH.
Qed.

Lemma stable_sort_elem_of (x : A) (l : list A) :
  x ∈ stable_sort before l ↔ x ∈ l.
Proof. by rewrite stable_sort_Permutation. Qed.

Lemma stable_sort_length (l : list A) : length (stable_sort before l) = length l.
Proof. by rewrite stable_sort_Permutation. Qed.

Hypothesis before_total : ∀ x y, before x y = false → before y x = true.
Hypothesis before_trans :
  ∀ x y z, before x y = true → before y z = true → before x z = true.

Lemma insert_by_sorted (x : A) (l : list A) :
  StronglySorted (λ a b, before a b = true) l →
  StronglySorted (λ a b, before a b = true) (insert_by before x l).
Proof.
  induction 1 as [|y l Hl IH Hy]; simpl.
  - by repeat constructor.
  - destruct (before x y) eqn:E.
    + constructor; [by constructor|]. constructor; [done|].
      eapply Forall_impl; [exact Hy|]. intros z Hz. by eapply before_trans.
    + constructor; [done|]. rewrite insert_by_Permutation.
      constructor; [by apply before_total|done].
Qed.

Lemma stable_sort_sorted (l : list A) :
  StronglySorted (λ a b, before a b = true) (stable_sort before l).
Proof.
  induction l as [|x l IH]; simpl; [constructor|]. by apply insert_by_sorted.
Qed.
End sorting_facts.

(** ** Insertion-ordered dictionaries *)

Section dict_facts.
Context {V : Type}.
Implicit Types (d : list (string * V)) (k : string) (v : V).

Lemma dict_get_Some_elem_of d k v : Dict.get k d = Some v → (k, v) ∈ d.
Proof.
  induction d as [|[k' v'] d IH]; simpl; [done|].
  case_bool_decide as Hk; [|by right; auto].
  intros [= ->]. subst. by left.
Qed.

Lemma dict_get_None d k : Dict.get k d = None ↔ k ∉ Dict.keys d.
Proof.
  unfold Dict.keys. induction d as [|[k' v'] d IH]; simpl.
  - split; [|done]. intros _. apply not_elem_of_nil.
  - rewrite not_elem_of_cons. case_bool_decide as Hk.
    + split; [done|]. intros [? _]. by subst.
    + rewrite IH. split; [by intros ?|by intros [_ ?]].
Qed.

Lemma dict_elem_of_get d k v :
  NoDup (Dict.keys d) → (k, v) ∈ d → Dict.get k d = Some v.
Proof.
  unfold Dict.keys. induction d as [|[k' v'] d IH]; simpl.
  - intros _ H. by apply elem_of_nil in H.
  - rewrite NoDup_cons, elem_of_cons. intros [Hk' Hnd] [Heq|Hin].
    + injection Heq as -> ->. by rewrite bool_decide_eq_true_2.
    + rewrite bool_decide_eq_false_2; [by apply IH|].
      intros ->. apply Hk'. apply list_elem_of_fmap. by exists (k, v).
Qed.

Lemma dict_get_set d k k' v :
  Dict.get k' (Dict.set k v d) = if bool_decide (k = k') then Some v else Dict.get k' d.
Proof.
  induction d as [|[k0 v0] d IH]; simpl; [done|].
  destruct (decide (k0 = k)) as [->|Hk0].
  - rewrite bool_decide_eq_true_2 by done. simpl. by case_bool_decide.
  - rewrite (bool_decide_eq_false_2 (k0 = k)) by done. simpl. rewrite IH.
    repeat case_bool_decide; congruence.
Qed.

Lemma dict_keys_set d k v :
  Dict.keys (Dict.set k v d) =
  if bool_decide (k ∈ Dict.keys d) then Dict.keys d else Dict.keys d ++ [k].
Proof.
  unfold Dict.keys. induction d as [|[k0 v0] d IH]; [done|].
  cbn [Dict.set]. destruct (decide (k0 = k)) as [->|Hk0].
  - rewrite bool_decide_eq_true_2 by done. rewrite !fmap_cons. cbn [fst].
    rewrite bool_decide_eq_true_2; [done|by left].
  - rewrite (bool_decide_eq_false_2 (k0 = k)) by done.
    rewrite !fmap_cons, IH. cbn [fst]. case_bool_decide as Hk.
    + rewrite bool_decide_eq_true_2; [done|by right].
    + rewrite bool_decide_eq_false_2; [done|].
      rewrite not_elem_of_cons. naive_solver.
Qed.

Lemma dict_set_NoDup d k v : NoDup (Dict.keys d) → NoDup (Dict.keys (Dict.set k v d)).
Proof.
  intros Hnd. rewrite dict_keys_set. case_bool_decide as Hk; [done|].
  apply NoDup_app. split_and!; [done| |apply NoDup_singleton].
  intros x Hx Hx'. apply list_elem_of_singleton in Hx'. by subst.
Qed.

(** An entry of the dictionary after [d[k] = v] is the new one or an
    old one under another key. *)
Lemma dict_elem_of_set d k v k' v' :
  NoDup (Dict.keys d) →
  (k', v') ∈ Dict.set k v d → (k' = k ∧ v' = v) ∨ (k' ≠ k ∧ (k', v') ∈ d).
Proof.
  intros Hnd Hin. apply dict_elem_of_get in Hin; [|by apply dict_set_NoDup].
  rewrite dict_get_set in Hin. case_bool_decide as Hk.
  - left. by simplify_eq.
  - right. split; [done|]. by apply dict_get_Some_elem_of.
Qed.
End dict_facts.

(** ** The session tracker *)

Section tracker_facts.
Implicit Types (tr : SessionTracker) (d : list (string * PeerSession)).
Implicit Types (key : string * string) (s : PeerSession).

Lemma filter_ext_elem_of {A} (P Q : A → Prop) `{!∀ x, Decision (P x)}
    `{!∀ x, Decision (Q x)} (l : list A) :
  (∀ x, x ∈ l → (P x ↔ Q x)) → filter P l = filter Q l.
Proof.
  induction l as [|x l IH]; intros Hext; [done|].
  rewrite !filter_cons. rewrite IH by (intros; apply Hext; by right).
  destruct (decide (P x)) as [HP|HP], (decide (Q x)) as [HQ|HQ]; try done.
  - destruct HQ. by apply (Hext x); [left|].
  - destruct HP. by apply (Hext x); [left|].
Qed.

Lemma strongly_sorted_impl {A} (R R' : A → A → Prop) (l : list A) :
  (∀ x y, R x y → R' x y) → StronglySorted R l → StronglySorted R' l.
Proof.
  intros HR. induction 1 as [|x l Hl IH Hx]; constructor; [done|].
  eapply Forall_impl; [exact Hx|]. intros y. apply HR.
Qed.

(** *** [active_sessions] *)

Lemma active_sessions_state i p st now tr : (active_sessions i p st now tr).2 = tr.
Proof. done. Qed.

Lemma active_sessions_elem_of i p st now tr s :
  s ∈ (active_sessions i p st now tr).1 ↔
  s ∈ tracked tr (i, p) ∧ now - timedelta (Z.max (ttl_seconds st) 1) ≤ last_seen s.
Proof.
  unfold active_sessions, tracked. simpl.
  rewrite stable_sort_elem_of, list_elem_of_filter. by split; intros [? ?].
Qed.

(** *** Well-formed dictionaries *)

Lemma wf_sessions_nil : wf_sessions [].
Proof. split; [apply NoDup_nil_2|apply Forall_nil_2]. Qed.

Lemma wf_sessions_filter (P : string * PeerSession → Prop) `{!∀ x, Decision (P x)} d :
  wf_sessions d → wf_sessions (filter P d).
Proof.
  intros [Hnd Hall]. split.
  - unfold Dict.keys in *.
    eapply sublist_NoDup; [done|]. apply fmap_sublist, sublist_filter.
  - rewrite Forall_forall in Hall |- *. intros kv Hkv.
    apply list_elem_of_filter in Hkv as [_ Hkv]. by apply Hall.
Qed.

Lemma wf_sessions_set d k s :
  wf_sessions d → endpoint s = k → names_session k = true →
  wf_sessions (Dict.set k s d).
Proof.
  intros [Hnd Hall] Hk Hn. split; [by apply dict_set_NoDup|].
  rewrite Forall_forall in Hall |- *. intros [k' s'] Hin.
  apply dict_elem_of_set in Hin; [|done].
  destruct Hin as [[-> ->]|[_ Hin]]; [by split|].
  by apply (Hall (k', s')).
Qed.

Lemma wf_sessions_endpoint d k s :
  wf_sessions d → Dict.get k d = Some s → endpoint s = k ∧ names_session k = true.
Proof.
  intros [_ Hall] Hget. apply dict_get_Some_elem_of in Hget.
  rewrite Forall_forall in Hall. apply (Hall (k, s) Hget).
Qed.

Lemma wf_tracker_sessions tr key :
  wf_tracker tr → wf_sessions (default [] (tr !! key)).
Proof.
  intros Hwf. destruct (tr !! key) as [d|] eqn:E; simpl.
  - by apply (Hwf key).
  - apply wf_sessions_nil.
Qed.

(** The endpoints of the tracked sessions of a key are distinct. *)
Lemma wf_tracked_NoDup tr key :
  wf_tracker tr → NoDup (endpoint <$> tracked tr key).
Proof.
  intros Hwf. destruct (wf_tracker_sessions tr key Hwf) as [Hnd Hall].
  unfold tracked, Dict.values, Dict.keys in *.
  remember (default [] (tr !! key)) as d eqn:Hd. clear Hd.
  assert (endpoint <$> d.*2 = d.*1) as ->; [|done].
  induction Hall as [|[k s] d' [Hk _] _ IH]; [done|].
  rewrite !fmap_cons. simpl in *. rewrite Hk, IH; [done|].
  by apply NoDup_cons in Hnd as [_ ?].
Qed.

(** *** [_expire] *)

Lemma expire_other key key' ttl now tr :
  key ≠ key' → (_expire key ttl now tr).2 !! key' = tr !! key'.
Proof.
  intros Hne. unfold _expire, mbind, State_bind, gets, modify, mret, State_ret.
  destruct (tr !! key) as [[|kv d]|]; try done.
  destruct (filter _ (kv :: d)); simpl.
  - by rewrite lookup_delete_ne.
  - by rewrite lookup_insert_ne.
Qed.

Lemma expire_sessions key ttl now tr :
  default [] ((_expire key ttl now tr).2 !! key) =
  filter (λ kv : string * PeerSession,
            kv.1 ∉ (filter (λ kv, last_seen kv.2 < now - timedelta (Z.max ttl 1))
                      (default [] (tr !! key))).*1)
         (default [] (tr !! key)).
Proof.
  unfold _expire, mbind, State_bind, gets, modify, mret, State_ret.
  destruct (tr !! key) as [[|kv d]|] eqn:E; simpl; try by rewrite E.
  destruct (filter _ (kv :: d)) eqn:F; simpl.
  - by rewrite lookup_delete_eq.
  - by rewrite lookup_insert_eq.
Qed.

(** With distinct keys, [_expire] keeps the sessions inside the TTL
    window. *)
Lemma expire_sessions_wf key ttl now tr :
  wf_tracker tr →
  default [] ((_expire key ttl now tr).2 !! key) =
  filter (λ kv : string * PeerSession,
            ¬ last_seen kv.2 < now - timedelta (Z.max ttl 1))
         (default [] (tr !! key)).
Proof.
  intros Hwf. rewrite expire_sessions.
  destruct (wf_tracker_sessions tr key Hwf) as [Hnd _].
  apply filter_ext_elem_of. intros [k s] Hin. simpl. split.
  - intros Hk Hs. apply Hk. apply list_elem_of_fmap. exists (k, s).
    split; [done|]. by apply list_elem_of_filter.
  - intros Hs Hk. apply list_elem_of_fmap in Hk as ([k' s'] & Hk & Hin').
    simpl in Hk. subst k'. apply list_elem_of_filter in Hin' as [Hs' Hin'].
    apply (dict_elem_of_get _ _ _ Hnd) in Hin, Hin'. simplify_eq. done.
Qed.

Lemma wf_expire key ttl now tr : wf_tracker tr → wf_tracker (_expire key ttl now tr).2.
Proof.
  intros Hwf key' d Hd. destruct (decide (key = key')) as [<-|Hne].
  - pose proof (expire_sessions key ttl now tr) as He. rewrite Hd in He.
    simpl in He. rewrite He. apply wf_sessions_filter.
    by apply wf_tracker_sessions.
  - rewrite expire_other in Hd by done. by apply (Hwf key').
Qed.

(** *** [observe] *)

Lemma observe_state i p ep hs rx tx st now tr :
  (observe i p ep hs rx tx st now tr).2 =
  let tr1 := (_expire (i, p) (ttl_seconds st) now tr).2 in
  let d1 := default [] (tr1 !! (i, p)) in
  let e := PyStr.strip (default "" ep) in
  if names_session e then
    match Dict.get e d1 with
    | Some existing =>
        <[(i, p) := Dict.set e (update_existing existing (handshake_datetime hs) rx tx now) d1]> tr1
    | None =>
        <[(i, p) := Dict.set e (first_observation e (handshake_datetime hs) rx tx now) d1]> tr1
    end
  else <[(i, p) := d1]> tr1.
Proof.
  unfold observe, mbind, State_bind, gets, modify, mret, State_ret.
  destruct (_expire (i, p) (ttl_seconds st) now tr) as [[] tr1]. simpl.
  destruct (names_session _); [|done].
  destruct (Dict.get _ _); simpl; by rewrite insert_insert_eq.
Qed.

Lemma observe_other i p ep hs rx tx st now tr key :
  key ≠ (i, p) → (observe i p ep hs rx tx st now tr).2 !! key = tr !! key.
Proof.
  intros Hne. rewrite observe_state. cbv zeta.
  destruct (names_session _); [destruct (Dict.get _ _)|];
    rewrite lookup_insert_ne by done; by apply expire_other.
Qed.

Lemma wf_observe i p ep hs rx tx st now tr :
  wf_tracker tr → wf_tracker (observe i p ep hs rx tx st now tr).2.
Proof.
  intros Hwf. apply (wf_expire (i, p) (ttl_seconds st) now) in Hwf.
  rewrite observe_state. cbv zeta.
  pose proof (wf_tracker_sessions _ (i, p) Hwf) as Hd.
  destruct (names_session _) eqn:Hn.
  - destruct (Dict.get _ _) as [ex|] eqn:Hget.
    + apply map_Forall_insert_2; [|done]. apply wf_sessions_set; [done| |done].
      by apply (wf_sessions_endpoint _ _ _ Hd Hget).
    + apply map_Forall_insert_2; [|done]. by apply wf_sessions_set.
  - by apply map_Forall_insert_2.
Qed.

Lemma wf_new_tracker : wf_tracker new_tracker.
Proof. apply map_Forall_empty. Qed.

Lemma wf_prune_peer i p tr : wf_tracker tr → wf_tracker (prune_peer i p tr).2.
Proof. apply map_Forall_delete. Qed.

Lemma wf_run_calls calls tr : wf_tracker tr → wf_tracker (run_calls calls tr).
Proof.
  revert tr. induction calls as [|c calls IH]; intros tr Hwf; [done|].
  apply IH. by apply wf_observe.
Qed.

End tracker_facts.

Section observe_facts.
Implicit Types (tr : SessionTracker) (d : list (string * PeerSession)).
Implicit Types (key : string * string) (s : PeerSession).

Lemma dict_get_filter (P : string * PeerSession → Prop) `{!∀ x, Decision (P x)}
    d k s :
  NoDup (Dict.keys d) →
  Dict.get k (filter P d) = Some s ↔ Dict.get k d = Some s ∧ P (k, s).
Proof.
  intros Hnd. split.
  - intros Hget. apply dict_get_Some_elem_of in Hget.
    apply list_elem_of_filter in Hget as [HP Hin].
    split; [|done]. by apply dict_elem_of_get.
  - intros [Hget HP]. apply dict_elem_of_get.
    + unfold Dict.keys in *.
      eapply sublist_NoDup; [done|]. apply fmap_sublist, sublist_filter.
    + apply list_elem_of_filter. split; [done|].
      by apply dict_get_Some_elem_of.
Qed.

(** A session is in the dictionary after the expiry step of [observe]
    exactly when it was tracked and is inside the TTL window. *)
Lemma expire_session_at key ttl now tr e s :
  wf_tracker tr →
  session_at (_expire key ttl now tr).2 key e = Some s ↔
  session_at tr key e = Some s ∧ now - timedelta (Z.max ttl 1) ≤ last_seen s.
Proof.
  intros Hwf. unfold session_at. rewrite expire_sessions_wf by done.
  rewrite dict_get_filter by apply (wf_tracker_sessions tr key Hwf).
  simpl. split; intros [? ?]; split; try done; lia.
Qed.

Lemma observe_result i p ep hs rx tx st now tr :
  (observe i p ep hs rx tx st now tr).1
  = tracked (observe i p ep hs rx tx st now tr).2 (i, p).
Proof.
  unfold tracked, observe, mbind, State_bind, gets, modify, mret, State_ret.
  destruct (_expire (i, p) (ttl_seconds st) now tr) as [[] tr1]. simpl.
  destruct (names_session _); simpl; by rewrite lookup_insert_eq.
Qed.

(** The session under an endpoint after a call of [observe] that does
    not expire it: updated when the call observes this endpoint, and
    the same otherwise. *)
Lemma observe_session_at c tr key e old :
  wf_tracker tr →
  session_at tr key e = Some old →
  expires c key old = false →
  session_at (do_observe c tr).2 key e =
  Some (if bool_decide (key = call_key c
                        ∧ e = PyStr.strip (default "" (call_endpoint c)))
        then update_existing old (handshake_datetime (call_latest_handshake c))
               (call_rx_bytes c) (call_tx_bytes c) (call_now c)
        else old).
Proof.
  intros Hwf Hold Hexp. unfold do_observe, session_at.
  destruct (decide (key = call_key c)) as [->|Hkey].
  2:{ rewrite observe_other by done.
      rewrite bool_decide_eq_false_2 by (by intros [? _]). done. }
  unfold expires in Hexp. rewrite bool_decide_eq_true_2 in Hexp by done.
  simpl in Hexp. apply bool_decide_eq_false in Hexp.
  assert (session_at (_expire (call_key c) (ttl_seconds (call_settings c))
                        (call_now c) tr).2 (call_key c) e = Some old) as Hex.
  { apply expire_session_at; [done|]. split; [done|lia]. }
  pose proof (wf_expire (call_key c) (ttl_seconds (call_settings c))
                (call_now c) tr Hwf) as Hwf1.
  pose proof (wf_tracker_sessions _ (call_key c) Hwf1) as Hd1.
  unfold session_at in Hex. unfold call_key in *.
  rewrite observe_state. cbv zeta.
  destruct (names_session _) eqn:Hn.
  - destruct (Dict.get (PyStr.strip _) _) as [ex|] eqn:Hget;
      rewrite lookup_insert_eq; simpl; rewrite dict_get_set.
    + case_bool_decide as He.
      * subst e. rewrite Hex in Hget. injection Hget as <-.
        by rewrite bool_decide_eq_true_2.
      * rewrite bool_decide_eq_false_2 by (by intros [_ ?]). done.
    + case_bool_decide as He; [congruence|].
      rewrite bool_decide_eq_false_2 by (by intros [_ ?]). done.
  - rewrite lookup_insert_eq. simpl.
    rewrite bool_decide_eq_false_2; [done|]. intros [_ ->].
    apply (wf_sessions_endpoint _ _ _ Hd1) in Hex as [_ Hex]. congruence.
Qed.

Lemma handshake_le_refl (a : option Z) : handshake_le a a.
Proof. destruct a; simpl; [lia|done]. Qed.

Lemma handshake_le_trans (a b c : option Z) :
  handshake_le a b → handshake_le b c → handshake_le a c.
Proof. destruct a, b, c; simpl; try done; lia. Qed.

End observe_facts.

Section handshake_facts.
Implicit Types (tr : SessionTracker) (key : string * string) (s : PeerSession).

(** What the branch [if existing:] does to [last_handshake]. *)
Lemma update_existing_handshake (old : PeerSession) (hs : option Z) (rx tx now : Z) :
  let new := update_existing old (handshake_datetime hs) rx tx now in
  handshake_le (last_handshake old) (last_handshake new)
  ∧ (last_handshake new ≠ last_handshake old →
     ∃ t, hs = Some t ∧ t ≠ 0
          ∧ last_handshake new = Some (fromtimestamp t)
          ∧ ∀ stored, last_handshake old = Some stored → stored < fromtimestamp t)
  ∧ (∀ t, hs = Some t → t ≠ 0 →
          (∀ stored, last_handshake old = Some stored → stored < fromtimestamp t) →
          last_handshake new = Some (fromtimestamp t)).
Proof.
  unfold update_existing, handshake_datetime. simpl.
  destruct hs as [t|]; [case_bool_decide as Ht|]; simpl.
  - split_and!; [apply handshake_le_refl|by intros []|].
    intros ? [= <-] Hne. by destruct Hne.
  - destruct (last_handshake old) as [stored|] eqn:Hs; simpl.
    + case_bool_decide as Hlt; simpl.
      * split_and!; [lia| |by intros ? [= <-]]. intros _. exists t.
        split_and!; try done. by intros ? [= <-].
      * split_and!; [lia|by intros []|]. intros ? [= <-] _ Hlt'.
        specialize (Hlt' _ eq_refl). lia.
    + split_and!; [done| |by intros ? [= <-]]. intros _. exists t.
      by split_and!.
  - split_and!; [apply handshake_le_refl|by intros []|done].
Qed.

Lemma observe_step_handshake c tr key e old :
  wf_tracker tr → session_at tr key e = Some old → expires c key old = false →
  ∃ new,
    session_at (do_observe c tr).2 key e = Some new
    ∧ handshake_le (last_handshake old) (last_handshake new)
    ∧ (last_handshake new ≠ last_handshake old →
       key = call_key c ∧ e = PyStr.strip (default "" (call_endpoint c))
       ∧ ∃ t, call_latest_handshake c = Some t ∧ t ≠ 0
            ∧ last_handshake new = Some (fromtimestamp t)
            ∧ ∀ stored, last_handshake old = Some stored → stored < fromtimestamp t).
Proof.
  intros Hwf Hold Hexp. eexists. split; [by apply observe_session_at|].
  case_bool_decide as Htarget.
  - destruct (update_existing_handshake old (call_latest_handshake c)
                (call_rx_bytes c) (call_tx_bytes c) (call_now c)) as (Hle & Honly & _).
    split; [done|]. intros Hne. destruct Htarget. split_and!; try done.
    by apply Honly.
  - split; [apply handshake_le_refl|done].
Qed.

Lemma run_calls_handshake calls tr key e old :
  wf_tracker tr → session_at tr key e = Some old → outlives key e tr calls = true →
  ∃ new, session_at (run_calls calls tr) key e = Some new
         ∧ handshake_le (last_handshake old) (last_handshake new).
Proof.
  revert tr old. induction calls as [|c calls IH]; intros tr old Hwf Hold Hout.
  - exists old. split; [done|apply handshake_le_refl].
  - simpl in Hout. rewrite Hold in Hout. apply andb_true_iff in Hout as [Hexp Hout].
    apply negb_true_iff in Hexp.
    destruct (observe_step_handshake c tr key e old Hwf Hold Hexp)
      as (mid & Hmid & Hle & _).
    destruct (IH (do_observe c tr).2 mid) as (new & Hnew & Hle'); try done.
    { by apply wf_observe. }
    exists new. split; [done|]. by eapply handshake_le_trans.
Qed.
End handshake_facts.

Section allowed_facts.
Implicit Types (tr : SessionTracker) (s : PeerSession).
Implicit Types (items allowed added : list PeerSession) (seen : gset string).

Lemma NoDup_fmap_elem_of_inj {A B} (f : A → B) (l : list A) (x y : A) :
  NoDup (f <$> l) → x ∈ l → y ∈ l → f x = f y → x = y.
Proof.
  induction l as [|z l IH]; [by intros _ ?%elem_of_nil|].
  rewrite fmap_cons, NoDup_cons, !elem_of_cons.
  intros [Hz Hnd] [->|Hx] [->|Hy] Hf; try done.
  - destruct Hz. rewrite Hf. by apply list_elem_of_fmap_2.
  - destruct Hz. rewrite <- Hf. by apply list_elem_of_fmap_2.
  - by apply IH.
Qed.

Lemma append_unique_cons s items allowed seen :
  append_unique (s :: items) (allowed, seen) =
  if bool_decide (endpoint s ∈ seen) then append_unique items (allowed, seen)
  else append_unique items (allowed ++ [s], {[endpoint s]} ∪ seen).
Proof. unfold append_unique. simpl. by case_bool_decide. Qed.

(** [append_unique] appends a part of the items, in their order: the
    first session of each endpoint that was not seen before. *)
Lemma append_unique_added items allowed seen :
  ∃ added,
    append_unique items (allowed, seen)
    = (allowed ++ added, list_to_set (endpoint <$> added) ∪ seen)
    ∧ added `sublist_of` items
    ∧ NoDup (endpoint <$> added)
    ∧ (∀ s, s ∈ added → endpoint s ∉ seen)
    ∧ (∀ s, s ∈ items → endpoint s ∈ seen ∨ endpoint s ∈ endpoint <$> added).
Proof.
  revert allowed seen. induction items as [|s items IH]; intros allowed seen.
  - exists []. rewrite app_nil_r. split_and!; try done.
    + unfold append_unique. simpl. f_equal. set_solver.
    + apply NoDup_nil_2.
    + by intros s ?%elem_of_nil.
    + by intros s ?%elem_of_nil.
  - rewrite append_unique_cons. case_bool_decide as Hs.
    + destruct (IH allowed seen) as (added & -> & Hsub & Hnd & Hfresh & Hall).
      exists added. split_and!; try done.
      * by apply sublist_cons.
      * intros s' [->|Hs']%elem_of_cons; [by left|by apply Hall].
    + destruct (IH (allowed ++ [s]) ({[endpoint s]} ∪ seen))
        as (added & -> & Hsub & Hnd & Hfresh & Hall).
      exists (s :: added). split_and!.
      * rewrite <- app_assoc. simpl. f_equal. set_solver.
      * by apply sublist_skip.
      * rewrite fmap_cons. apply NoDup_cons. split; [|done].
        intros (s' & Heq & Hs')%list_elem_of_fmap.
        apply Hfresh in Hs'. set_solver.
      * intros s' [->|Hs']%elem_of_cons; [done|].
        apply Hfresh in Hs'. set_solver.
      * intros s' [->|Hs']%elem_of_cons.
        { right. rewrite fmap_cons. by left. }
        destruct (Hall s' Hs') as [Hin|Hin].
        -- apply elem_of_union in Hin as [Hin|Hin]; [|by left].
           apply elem_of_singleton in Hin. right. rewrite fmap_cons, Hin. by left.
        -- right. rewrite fmap_cons. by right.
Qed.

Lemma filter_none {A} (P : A → Prop) `{!∀ x, Decision (P x)} (l : list A) :
  (∀ x, x ∈ l → ¬ P x) → filter P l = [].
Proof.
  induction l as [|x l IH]; intros Hl; [done|].
  rewrite filter_cons_False by (apply Hl; by left).
  apply IH. intros y Hy. apply Hl. by right.
Qed.

Ltac unfold_allowed :=
  unfold allowed_sessions, mbind, State_bind, mret, State_ret;
  rewrite (surjective_pairing (active_sessions _ _ _ _ _));
  rewrite active_sessions_state.

Lemma allowed_sessions_state i p st now tr : (allowed_sessions i p st now tr).2 = tr.
Proof.
  unfold_allowed.
  destruct (max_concurrent st) as [[|M|M]|]; try done;
    destruct (append_unique _ _) as [allowed seen];
    by destruct (_ <=? 0).
Qed.

Lemma allowed_sessions_unlimited i p st now tr :
  max_concurrent st = None ∨ max_concurrent st = Some 0 →
  (allowed_sessions i p st now tr).1 = (active_sessions i p st now tr).1.
Proof. unfold_allowed. by intros [-> | ->]. Qed.

(** The sessions that [allowed_sessions] returns under a limit: the
    sessions of the grace window that [append_unique] keeps, and then
    those it keeps of the first [remaining] stable sessions. *)
Lemma allowed_sessions_limited i p st now tr M :
  max_concurrent st = Some M → M ≠ 0 →
  let active := (active_sessions i p st now tr).1 in
  let grace :=
    filter (λ s, now - timedelta (Z.max (grace_seconds st) 0) ≤ first_seen s) active in
  ∃ admitted_grace stable_part,
    (allowed_sessions i p st now tr).1 = admitted_grace ++ stable_part
    ∧ admitted_grace `sublist_of` grace
    ∧ (∀ s, s ∈ grace → endpoint s ∈ endpoint <$> admitted_grace)
    ∧ NoDup (endpoint <$> (admitted_grace ++ stable_part))
    ∧ (∀ s, s ∈ stable_part → s ∈ active)
    ∧ Z.of_nat (length stable_part) ≤ Z.max M 0.
Proof.
  intros HM HM0 active grace.
  destruct (append_unique_added grace [] ∅)
    as (ag & Hag & Hsub & Hnd & _ & Hall).
  simpl in Hag.
  assert (filter (λ s, s ∉ grace) ag = []) as Hstable.
  { apply filter_none. intros s Hs Hn. apply Hn. by eapply elem_of_sublist. }
  assert (∀ s, s ∈ grace → endpoint s ∈ endpoint <$> ag) as Hall'.
  { intros s Hs. destruct (Hall s Hs) as [Hin|Hin]; [|done]. set_solver. }
  assert ((allowed_sessions i p st now tr).1 =
          if Z.max M 0 <=? 0 then ag
          else (append_unique
                  (take (Z.to_nat (Z.max M 0))
                     match policy st with
                     | NEW_WINS => filter (λ s, s ∉ grace) active
                     | OLD_WINS =>
                         stable_sort (λ a b, first_seen a <=? first_seen b)
                           (filter (λ s, s ∉ grace) active)
                     end)
                  (ag, list_to_set (endpoint <$> ag) ∪ ∅)).1) as ->.
  { unfold_allowed. rewrite HM. fold active. fold grace. rewrite Hag, Hstable.
    simpl. rewrite Z.sub_0_r.
    destruct M; try done; by destruct (_ <=? 0). }
  destruct (Z.max M 0 <=? 0) eqn:Hrem.
  { exists ag, []. rewrite !app_nil_r. split_and!; try done.
    - by intros s ?%elem_of_nil.
    - simpl. lia. }
  match goal with |- context [append_unique ?items _] => set (chosen := items) end.
  destruct (append_unique_added chosen ag (list_to_set (endpoint <$> ag) ∪ ∅))
    as (added & -> & Hsub2 & Hnd2 & Hfresh2 & _).
  exists ag, added. simpl. split_and!; try done.
  - rewrite fmap_app. apply NoDup_app. split_and!; try done.
    intros ep Hep (s & -> & Hs)%list_elem_of_fmap.
    apply (Hfresh2 s Hs). set_solver.
  - intros s Hs. assert (s ∈ chosen) as Hc by (by eapply elem_of_sublist).
    unfold chosen in Hc. apply subseteq_take in Hc.
    destruct (policy st).
    + by apply list_elem_of_filter in Hc as [_ ?].
    + apply stable_sort_elem_of in Hc. by apply list_elem_of_filter in Hc as [_ ?].
  - apply sublist_length in Hsub2. unfold chosen in Hsub2.
    rewrite length_take in Hsub2. lia.
Qed.
End allowed_facts.

Lemma active_sessions_NoDup i p st now tr :
  wf_tracker tr → NoDup (endpoint <$> (active_sessions i p st now tr).1).
Proof.
  intros Hwf. unfold active_sessions. simpl.
  rewrite stable_sort_Permutation.
  eapply sublist_NoDup; [by apply (wf_tracked_NoDup tr (i, p))|].
  apply fmap_sublist, sublist_filter.
Qed.

(** ** The native firewall backend *)

Section set_names.
Lemma str_app_inv_tail (a b t : string) : a +:+ t = b +:+ t → a = b.
Proof.
  intros Heq. assert (String.length a = String.length b) as Hlen.
  { apply (f_equal String.length) in Heq. rewrite !str_app_length in Heq. lia. }
  by destruct (app_eq_same_length _ _ _ _ Heq Hlen).
Qed.

Lemma set_v4_name_inj (i j : string) : set_v4_name i = set_v4_name j → i = j.
Proof.
  unfold set_v4_name. intros Heq. apply (inj (String.app "wggo_")) in Heq.
  by apply str_app_inv_tail in Heq.
Qed.

Lemma set_v6_name_inj (i j : string) : set_v6_name i = set_v6_name j → i = j.
Proof.
  unfold set_v6_name. intros Heq. apply (inj (String.app "wggo_")) in Heq.
  by apply str_app_inv_tail in Heq.
Qed.

Lemma set_v4_v6_name (i j : string) : set_v4_name i ≠ set_v6_name j.
Proof.
  unfold set_v4_name, set_v6_name. intros Heq.
  apply (inj (String.app "wggo_")) in Heq.
  assert (String.length i = String.length j) as Hlen.
  { apply (f_equal String.length) in Heq. rewrite !str_app_length in Heq.
    simpl in Heq. lia. }
  by destruct (app_eq_same_length _ _ _ _ Heq Hlen).
Qed.
End set_names.

Section nft_facts.
Context {W : Type} (subprocess_run : command → W → Z * W).
Implicit Types (b : NftablesBackend) (w : W).
Implicit Types (plans : list (string * FirewallSyncPlan)).

Lemma backend_eta b :
  {| initialized := initialized b; current_v4 := current_v4 b;
     current_v6 := current_v6 b |} = b.
Proof. by destruct b. Qed.

(** [ensure_interface] marks the interface as initialized, leaves the
    tracked sets alone and runs no element command; for an interface
    that is initialized it runs nothing. *)
Lemma ensure_interface_effect i port' b w :
  ∃ w' log,
    nft_ensure_interface subprocess_run i port' b w
    = (tt, {| initialized := {[i]} ∪ initialized b;
              current_v4 := current_v4 b; current_v6 := current_v6 b |}, w', log)
    ∧ filter is_element_command log = []
    ∧ (i ∈ initialized b → w' = w ∧ log = []).
Proof.
  unfold nft_ensure_interface, mbind, Run_bind, get_self, set_self, mret, Run_ret.
  case_bool_decide as Hi.
  - exists w, []. split_and!; try done. f_equal. f_equal. f_equal.
    rewrite <- (backend_eta b) at 1. f_equal. set_solver.
  - unfold _run, when, exec, mbind, Run_bind, mret, Run_ret.
    repeat (destruct (subprocess_run _ _) as [? ?]; simpl;
            try case_bool_decide; simpl).
    all: eexists _, _; split_and!; [reflexivity|by vm_compute|done].
Qed.

(** [_sync_set] runs the commands of the difference and returns the
    desired set. *)
Lemma sync_set_effect (n : string) (desired current : gset (string * Z)) b w :
  ∃ w',
    _sync_set subprocess_run n desired current b w
    = (desired, b, w', diff_commands n desired current).
Proof.
  unfold _sync_set, diff_commands, element_command, when, _run, exec,
    mbind, Run_bind, mret, Run_ret.
  repeat case_bool_decide; simpl;
    repeat (destruct (subprocess_run _ _) as [? ?]; simpl);
    by eexists.
Qed.

Lemma diff_commands_elements (n : string) (desired current : gset (string * Z)) :
  filter is_element_command (diff_commands n desired current)
  = diff_commands n desired current.
Proof. unfold diff_commands. by repeat case_bool_decide. Qed.

(** One turn of the loop of [sync]. *)
Lemma sync_interface_effect i plan b w :
  ∃ w' log,
    nft_sync_interface subprocess_run (i, plan) b w
    = (tt, {| initialized := {[i]} ∪ initialized b;
              current_v4 := <[i := ipv4 plan]> (current_v4 b);
              current_v6 := <[i := ipv6 plan]> (current_v6 b) |}, w', log)
    ∧ filter is_element_command log
      = diff_commands (set_v4_name i) (ipv4 plan) (default ∅ (current_v4 b !! i))
        ++ diff_commands (set_v6_name i) (ipv6 plan) (default ∅ (current_v6 b !! i))
    ∧ (i ∈ initialized b →
       log = diff_commands (set_v4_name i) (ipv4 plan) (default ∅ (current_v4 b !! i))
             ++ diff_commands (set_v6_name i) (ipv6 plan)
                  (default ∅ (current_v6 b !! i))).
Proof.
  unfold nft_sync_interface, mbind, Run_bind, get_self, set_self.
  destruct (ensure_interface_effect i (port plan) b w)
    as (w1 & log1 & -> & Hlog1 & Hknown). simpl.
  destruct (sync_set_effect (set_v4_name i) (ipv4 plan)
              (default ∅ (current_v4 b !! i))
              {| initialized := {[i]} ∪ initialized b;
                 current_v4 := current_v4 b; current_v6 := current_v6 b |} w1)
    as (w2 & ->). simpl.
  match goal with |- context [_sync_set _ _ _ _ ?b' w2] =>
    destruct (sync_set_effect (set_v6_name i) (ipv6 plan)
                (default ∅ (current_v6 b !! i)) b' w2) as (w3 & ->) end.
  simpl. eexists _, _. split; [reflexivity|]. split.
  - rewrite !app_nil_r, !filter_app, Hlog1, !diff_commands_elements. done.
  - intros Hi. destruct (Hknown Hi) as [_ ->]. by rewrite !app_nil_r.
Qed.

(** [sync] leaves alone the sets of the interfaces that have no plan. *)
Lemma sync_frame plans b w j :
  j ∉ plans.*1 →
  let b' := run_self (nft_sync subprocess_run plans b w) in
  current_v4 b' !! j = current_v4 b !! j
  ∧ current_v6 b' !! j = current_v6 b !! j
  ∧ (j ∈ initialized b → j ∈ initialized b').
Proof.
  revert b w. induction plans as [|[i plan] plans IH]; intros b w Hj; [done|].
  rewrite fmap_cons, not_elem_of_cons in Hj. destruct Hj as [Hji Hj].
  unfold nft_sync. cbn [for_each]. unfold mbind, Run_bind.
  destruct (sync_interface_effect i plan b w) as (w1 & log1 & -> & _).
  fold (nft_sync subprocess_run plans).
  match goal with |- context [nft_sync _ _ ?b1 w1] =>
    specialize (IH b1 w1 Hj);
    destruct (nft_sync subprocess_run plans b1 w1) as [[[[] b2] w2] log2] end.
  unfold run_self in *. simpl in *.
  destruct IH as (-> & -> & Hinit). rewrite !lookup_insert_ne by done.
  split_and!; try done. intros ?. apply Hinit. set_solver.
Qed.

Lemma expected_element_commands_ext plans b b' :
  (∀ j, j ∈ plans.*1 →
        current_v4 b' !! j = current_v4 b !! j
        ∧ current_v6 b' !! j = current_v6 b !! j) →
  expected_element_commands b' plans = expected_element_commands b plans.
Proof.
  unfold expected_element_commands.
  induction plans as [|[i plan] plans IH]; intros Hsame; [done|].
  simpl. destruct (Hsame i) as [-> ->]; [by left|].
  rewrite IH; [done|]. intros j Hj. apply Hsame. by right.
Qed.

(** The element commands of [sync] are those the spec describes. *)
Lemma sync_element_commands plans b w :
  NoDup plans.*1 →
  filter is_element_command (run_log (nft_sync subprocess_run plans b w))
  = expected_element_commands b plans.
Proof.
  revert b w. induction plans as [|[i plan] plans IH]; intros b w Hnd; [done|].
  rewrite fmap_cons in Hnd. apply NoDup_cons in Hnd as [Hi Hnd].
  unfold nft_sync. cbn [for_each]. unfold mbind, Run_bind.
  destruct (sync_interface_effect i plan b w) as (w1 & log1 & -> & Hlog1 & _).
  fold (nft_sync subprocess_run plans).
  match goal with |- context [nft_sync _ _ ?b1 w1] =>
    specialize (IH b1 w1 Hnd);
    destruct (nft_sync subprocess_run plans b1 w1) as [[[[] b2] w2] log2] end.
  unfold run_log in *. simpl in *. rewrite filter_app, Hlog1, IH.
  unfold expected_element_commands at 2. simpl.
  rewrite <- !app_assoc. do 2 f_equal.
  apply expected_element_commands_ext. intros j Hj. simpl.
  rewrite !lookup_insert_ne; [done| |]; by intros ->.
Qed.

(** After [sync], the backend tracks the sets of the plans. *)
Lemma sync_synced plans b w :
  NoDup plans.*1 → synced plans (run_self (nft_sync subprocess_run plans b w)).
Proof.
  revert b w. induction plans as [|[i plan] plans IH]; intros b w Hnd.
  { by intros j pl ?%elem_of_nil. }
  rewrite fmap_cons in Hnd. apply NoDup_cons in Hnd as [Hi Hnd].
  unfold nft_sync. cbn [for_each]. unfold mbind, Run_bind.
  destruct (sync_interface_effect i plan b w) as (w1 & log1 & -> & _).
  fold (nft_sync subprocess_run plans).
  match goal with |- context [nft_sync _ _ ?b1 w1] =>
    specialize (IH b1 w1 Hnd);
    pose proof (sync_frame plans b1 w1 i Hi) as Hframe;
    destruct (nft_sync subprocess_run plans b1 w1) as [[[[] b2] w2] log2] end.
  unfold run_self in *. simpl in *.
  intros j pl [Heq|Hin]%elem_of_cons; [|by apply IH].
  injection Heq as -> ->. destruct Hframe as (-> & -> & Hinit).
  rewrite !lookup_insert_eq. split_and!; try done. apply Hinit. set_solver.
Qed.

(** When the backend tracks the sets of the plans, [sync] runs no
    command and leaves the backend as it is. *)
Lemma sync_idle plans b w :
  synced plans b →
  run_self (nft_sync subprocess_run plans b w) = b
  ∧ run_log (nft_sync subprocess_run plans b w) = [].
Proof.
  revert w. induction plans as [|[i plan] plans IH]; intros w Hs; [done|].
  destruct (Hs i plan) as (Hi & H4 & H6); [by left|].
  unfold nft_sync. cbn [for_each]. unfold mbind, Run_bind.
  destruct (sync_interface_effect i plan b w) as (w1 & log1 & -> & _ & Hlog1).
  fold (nft_sync subprocess_run plans).
  specialize (Hlog1 Hi). rewrite H4, H6 in Hlog1. simpl in Hlog1.
  unfold diff_commands in Hlog1.
  rewrite !bool_decide_eq_true_2 in Hlog1 by set_solver. simpl in Hlog1.
  assert ({| initialized := {[i]} ∪ initialized b;
             current_v4 := <[i:=ipv4 plan]> (current_v4 b);
             current_v6 := <[i:=ipv6 plan]> (current_v6 b) |} = b) as ->.
  { rewrite <- (backend_eta b) at 4. f_equal; [set_solver| |]; by apply insert_id. }
  destruct (IH w1) as [Hb Hl].
  { intros j pl Hin. apply Hs. by right. }
  destruct (nft_sync subprocess_run plans b w1) as [[[[] b2] w2] log2].
  unfold run_self, run_log in *. simpl in *. by subst.
Qed.

(** *** Counting the element commands of one set *)

Lemma on_set_element_command (verb n v m : string) (e : gset (string * Z)) :
  on_set verb n (element_command v m e) ↔ v = verb ∧ m = n.
Proof.
  unfold on_set, element_command. simpl. rewrite bool_decide_spec.
  split; [by intros [= -> ->]|by intros [-> ->]].
Qed.

Lemma on_set_is_element (verb n : string) (c : command) :
  on_set verb n c → is_element_command c.
Proof.
  unfold on_set, is_element_command. rewrite !bool_decide_spec. simpl.
  destruct c as [|a0 [|a1 [|a2 c]]]; try done. by intros [= _ _ ->].
Qed.

Lemma elem_of_diff_commands (v m n : string) (e d c : gset (string * Z)) :
  element_command v m e ∈ diff_commands n d c ↔
  m = n ∧ ((v = "add" ∧ e = d ∖ c ∧ e ≠ ∅) ∨ (v = "delete" ∧ e = c ∖ d ∧ e ≠ ∅)).
Proof.
  unfold diff_commands, element_command.
  rewrite elem_of_app. repeat case_bool_decide;
    rewrite ?list_elem_of_singleton, ?elem_of_nil; split;
    try (intros [[= -> -> ->]|[= -> -> ->]]; by auto);
    try (intros [[]|[= -> -> ->]]; by auto);
    try (intros [[= -> -> ->]|[]]; by auto);
    try (by intros [[]|[]]);
    intros [-> [(-> & -> & He)|(-> & -> & He)]]; try done; auto.
Qed.

Lemma count_diff_commands (verb n m : string) (d c : gset (string * Z)) :
  (length (filter (on_set verb n) (diff_commands m d c)) ≤ 1)%nat
  ∧ (m ≠ n → filter (on_set verb n) (diff_commands m d c) = []).
Proof.
  unfold diff_commands. rewrite filter_app.
  repeat case_bool_decide; simpl; rewrite ?filter_cons, ?filter_nil;
    repeat case_decide; simpl; split; try lia; try done;
    repeat match goal with
           | H : Is_true (on_set _ _ (element_command _ _ _)) |- _ =>
               apply on_set_element_command in H; destruct H
           end; try congruence.
Qed.

Lemma count_expected_none (verb n : string) b plans :
  (∀ j, j ∈ plans.*1 → set_v4_name j ≠ n ∧ set_v6_name j ≠ n) →
  filter (on_set verb n) (expected_element_commands b plans) = [].
Proof.
  unfold expected_element_commands.
  induction plans as [|[i plan] plans IH]; intros Hn; [done|].
  simpl. rewrite !filter_app. destruct (Hn i) as [H4 H6]; [by left|].
  rewrite (proj2 (count_diff_commands verb n _ _ _) H4).
  rewrite (proj2 (count_diff_commands verb n _ _ _) H6).
  rewrite IH; [done|]. intros j Hj. apply Hn. by right.
Qed.

(** At most one command of each kind for each set. *)
Lemma count_expected (verb n : string) b plans :
  NoDup plans.*1 →
  (length (filter (on_set verb n) (expected_element_commands b plans)) ≤ 1)%nat.
Proof.
  induction plans as [|[i plan] plans IH]; intros Hnd; [simpl; lia|].
  rewrite fmap_cons in Hnd. apply NoDup_cons in Hnd as [Hi Hnd].
  unfold expected_element_commands. simpl.
  fold (expected_element_commands b plans). rewrite !filter_app, !length_app.
  destruct (decide (set_v4_name i = n)) as [H4|H4];
    [|destruct (decide (set_v6_name i = n)) as [H6|H6]].
  - rewrite (proj2 (count_diff_commands verb n (set_v6_name i) _ _)).
    2:{ rewrite <- H4. intros Heq. by apply (set_v4_v6_name i i). }
    rewrite count_expected_none.
    2:{ intros j Hj. rewrite <- H4. split.
        - intros ->%set_v4_name_inj. done.
        - intros Heq. by apply (set_v4_v6_name i j). }
    pose proof (proj1 (count_diff_commands verb n (set_v4_name i) (ipv4 plan)
                         (default ∅ (current_v4 b !! i)))).
    simpl. lia.
  - rewrite (proj2 (count_diff_commands verb n (set_v4_name i) _ _)) by done.
    rewrite count_expected_none.
    2:{ intros j Hj. rewrite <- H6. split.
        - by apply set_v4_v6_name.
        - intros ->%set_v6_name_inj. done. }
    pose proof (proj1 (count_diff_commands verb n (set_v6_name i) (ipv6 plan)
                         (default ∅ (current_v6 b !! i)))).
    simpl. lia.
  - rewrite (proj2 (count_diff_commands verb n (set_v4_name i) _ _)) by done.
    rewrite (proj2 (count_diff_commands verb n (set_v6_name i) _ _)) by done.
    simpl. by apply IH.
Qed.

(** The element commands on the sets of one interface. *)
Lemma elem_of_expected (v : string) (e : gset (string * Z)) b plans i plan :
  NoDup plans.*1 → (i, plan) ∈ plans →
  (element_command v (set_v4_name i) e ∈ expected_element_commands b plans ↔
   (v = "add" ∧ e = ipv4 plan ∖ default ∅ (current_v4 b !! i) ∧ e ≠ ∅)
   ∨ (v = "delete" ∧ e = default ∅ (current_v4 b !! i) ∖ ipv4 plan ∧ e ≠ ∅))
  ∧ (element_command v (set_v6_name i) e ∈ expected_element_commands b plans ↔
     (v = "add" ∧ e = ipv6 plan ∖ default ∅ (current_v6 b !! i) ∧ e ≠ ∅)
     ∨ (v = "delete" ∧ e = default ∅ (current_v6 b !! i) ∖ ipv6 plan ∧ e ≠ ∅)).
Proof.
  intros Hnd Hin. unfold expected_element_commands.
  rewrite !list_elem_of_In, !in_flat_map.
  setoid_rewrite <- list_elem_of_In. setoid_rewrite elem_of_app.
  setoid_rewrite elem_of_diff_commands.
  assert (∀ item, item ∈ plans → item.1 = i → item = (i, plan)) as Huniq.
  { intros item Hitem Hi.
    by apply (NoDup_fmap_elem_of_inj fst plans item (i, plan) Hnd). }
  split; split.
  - intros (item & Hitem & [[Hname Hcase]|[Hname _]]).
    + apply set_v4_name_inj in Hname. symmetry in Hname.
      by rewrite (Huniq item Hitem Hname) in Hcase.
    + by apply set_v4_v6_name in Hname.
  - intros Hcase. exists (i, plan). split; [done|]. by left.
  - intros (item & Hitem & [[Hname _]|[Hname Hcase]]).
    + symmetry in Hname. by apply set_v4_v6_name in Hname.
    + apply set_v6_name_inj in Hname. symmetry in Hname.
      by rewrite (Huniq item Hitem Hname) in Hcase.
  - intros Hcase. exists (i, plan). split; [done|]. by right.
Qed.

Lemma elem_of_element_commands (v n : string) (e : gset (string * Z))
    (log : list command) :
  element_command v n e ∈ log ↔ element_command v n e ∈ filter is_element_command log.
Proof. rewrite list_elem_of_filter. split; [done|by intros [_ ?]]. Qed.
End nft_facts.

(** ** The settings reader *)

Section settings_facts.
Lemma from_string_unrecognized (s : string) :
  s ≠ "new_wins" → s ≠ "old_wins" →
  from_string (PyStr s) = Raise (Unsupported_peer_limit_policy (PyStr s)).
Proof.
  intros Hn Ho. unfold from_string, policy_of_value. simpl.
  by rewrite !bool_decide_eq_false_2.
Qed.

(** The settings [from_row] returns are those of the data model. *)
Lemma from_row_valid (row : Row) (st : PeerLimitSettings) :
  from_row row = Ok st →
  1 ≤ ttl_seconds st ∧ 0 ≤ grace_seconds st
  ∧ ∀ M, max_concurrent st = Some M → 0 < M.
Proof.
  unfold from_row.
  destruct (row_max_concurrent row) as [|n|s]; [| |destruct (PyStr.int_of_str s)];
    try done; destruct (from_string _); try done; intros [= <-]; simpl;
    (split_and!; [lia|lia|]); try done; intros M;
    destruct (_ <=? 0) eqn:E; try done; intros [= <-]; lia.
Qed.
End settings_facts.

(** ** The iteration of the daemon *)

Section iteration_facts.
Lemma record_session_eq (allowed_endpoints : gset string) (plan : FirewallSyncPlan)
    (records : list SessionRecord) (s : PeerSession) :
  record_session allowed_endpoints (plan, records) s
  = ((record_session ∅ (plan, []) s).1,
     records ++ [session_record allowed_endpoints s]).
Proof. done. Qed.

Lemma record_sessions_records (allowed_endpoints : gset string)
    (active : list PeerSession) (plan : FirewallSyncPlan)
    (records : list SessionRecord) :
  (foldl (record_session allowed_endpoints) (plan, records) active).2
  = records ++ (session_record allowed_endpoints <$> active).
Proof.
  revert plan records. induction active as [|s active IH]; intros plan records.
  - simpl. by rewrite app_nil_r.
  - cbn [foldl]. rewrite record_session_eq, IH.
    by rewrite fmap_cons, <- app_assoc.
Qed.

Lemma record_sessions_plan_any (allowed allowed' : gset string)
    (active : list PeerSession) (plan : FirewallSyncPlan)
    (records records' : list SessionRecord) :
  (foldl (record_session allowed) (plan, records) active).1
  = (foldl (record_session allowed') (plan, records') active).1.
Proof.
  revert plan records records'.
  induction active as [|s active IH]; intros plan records records'; [done|].
  cbn [foldl]. rewrite (record_session_eq allowed), (record_session_eq allowed').
  apply IH.
Qed.

(** The loop over the active sessions writes one record for each of
    them, with [IsAllowed] telling whether its endpoint is allowed; the
    plan it builds does not depend on the allowed endpoints. *)
Lemma record_sessions_effect (allowed_endpoints : gset string)
    (active : list PeerSession) (plan : FirewallSyncPlan)
    (records : list SessionRecord) :
  foldl (record_session allowed_endpoints) (plan, records) active
  = ((foldl (record_session ∅) (plan, []) active).1,
     records ++ (session_record allowed_endpoints <$> active)).
Proof.
  rewrite (surjective_pairing (foldl _ _ _)). f_equal.
  - apply record_sessions_plan_any.
  - apply record_sessions_records.
Qed.

Lemma record_sessions_keep (allowed_endpoints : gset string)
    (active : list PeerSession) (acc : FirewallSyncPlan * list SessionRecord)
    (x : string * Z) :
  x ∈ ipv4 acc.1 ∪ ipv6 acc.1 →
  x ∈ ipv4 (foldl (record_session allowed_endpoints) acc active).1
      ∪ ipv6 (foldl (record_session allowed_endpoints) acc active).1.
Proof.
  revert acc. induction active as [|s active IH]; intros [plan records] Hin;
    [exact Hin|].
  cbn [foldl]. apply IH. simpl in *.
  destruct (split_endpoint (endpoint s)) as [[ip port']|]; [|done].
  destruct (PyStr.contains ":" ip); simpl; set_solver.
Qed.

(** Every active session with an endpoint that parses is in the plan,
    allowed or not. *)
Lemma record_sessions_plan (allowed_endpoints : gset string)
    (active : list PeerSession) (plan : FirewallSyncPlan)
    (records : list SessionRecord) (s : PeerSession) (x : string * Z) :
  s ∈ active → split_endpoint (endpoint s) = Some x →
  let plan' := (foldl (record_session allowed_endpoints) (plan, records) active).1 in
  x ∈ ipv4 plan' ∪ ipv6 plan'.
Proof.
  intros Hs Hx. simpl. revert plan records.
  induction active as [|s' active IH]; intros plan records.
  { by apply elem_of_nil in Hs. }
  cbn [foldl]. rewrite record_session_eq.
  apply elem_of_cons in Hs as [<-|Hs]; [|by apply IH].
  apply record_sessions_keep. simpl. rewrite Hx. destruct x as [ip port'].
  destruct (PyStr.contains ":" ip); simpl; set_solver.
Qed.

(** What the body of the loop over the peers writes to the repository. *)
Lemma iteration_peer_records store now interface peer_info loc settings :
  get_peer_settings store interface (public_key peer_info) = Ok settings →
  let tr := (observe interface (public_key peer_info) (Some (peer_endpoint peer_info))
               (Some (latest_handshake peer_info)) (peer_rx_bytes peer_info)
               (peer_tx_bytes peer_info) settings now (loc_tracker loc)).2 in
  let active := (active_sessions interface (public_key peer_info) settings now tr).1 in
  let allowed := (allowed_sessions interface (public_key peer_info) settings now tr).1 in
  loc_state_repo (iteration_peer store now interface peer_info loc).1
  = upsert_sessions interface (public_key peer_info)
      (session_record (list_to_set (endpoint <$> allowed)) <$> active)
      (loc_state_repo loc).
Proof.
  intros Hst tr active allowed. unfold iteration_peer. rewrite Hst.
  rewrite (surjective_pairing (observe _ _ _ _ _ _ _ _ _)). fold tr.
  rewrite (surjective_pairing (active_sessions _ _ _ _ tr)), active_sessions_state.
  fold active.
  rewrite (surjective_pairing (allowed_sessions _ _ _ _ tr)), allowed_sessions_state.
  fold allowed. rewrite record_sessions_effect. done.
Qed.
End iteration_facts.

(** * The claims *)

Ltac by_evaluation := apply (bool_decide_unpack _); vm_compute; exact I.

(** C1 at the failing input.  The peer has a limit of one session; it was
    at [10.0.0.1:50000] and has been at [10.0.0.2:50001] for ten seconds.
    In the iteration at second 20 only [10.0.0.2:50001] is allowed and the
    record of [10.0.0.1:50000] says [IsAllowed = False], yet the plan for
    [wg0] holds [("10.0.0.1", 50000)], the backend keeps it in the allowed
    set and runs no command to delete it. *)
Theorem iteration_plan_holds_denied_endpoint :
  let now := seconds 20 in
  let dump := dump_with "10.0.0.2:50001" 300 in
  let result := tick "10.0.0.2:50001" 300 now roamed_daemon in
  let after := run_self result in
  let plans := iteration_plans (store roamed_daemon) dump now (tracker roamed_daemon)
                 (state_repo roamed_daemon) in
  endpoint <$> (allowed_sessions "wg0" "peerA" (limit_one NEW_WINS 180 5) now
                  (tracker after)).1
  = ["10.0.0.2:50001"]
  ∧ (λ row, (Endpoint row.2, IsAllowed row.2)) <$> state_repo after
    = [("10.0.0.2:50001", true); ("10.0.0.1:50000", false)]
  ∧ plans.*1 = ["wg0"]
  ∧ Forall (λ item, ("10.0.0.1", 50000) ∈ ipv4 item.2) plans
  ∧ ("10.0.0.1", 50000) ∈ accepted_v4 after "wg0"
  ∧ run_log result = [].
Proof.
  split_and!.
  - vm_compute. reflexivity.
  - vm_compute. reflexivity.
  - vm_compute. reflexivity.
  - by_evaluation.
  - by_evaluation.
  - vm_compute. reflexivity.
Qed.

(** C2, as the code has it.  For a settings row whose [connection_policy]
    is a string other than ["new_wins"] and ["old_wins"], [get_peer_settings]
    raises [ValueError]: "Unsupported peer limit policy", or the error of
    [int()] when [max_concurrent] is text that is not a number.  It does
    not return the default settings. *)
Theorem get_peer_settings_unrecognized_policy (store : PeerLimitStore)
    (interface peer_id : string) (table : gmap string Row) (row : Row) (s : string) :
  store !! interface = Some table →
  table !! peer_id = Some row →
  row_connection_policy row = PyStr s →
  s ≠ "new_wins" → s ≠ "old_wins" →
  (get_peer_settings store interface peer_id
   = Raise (Unsupported_peer_limit_policy (PyStr s))
   ∨ ∃ t, row_max_concurrent row = PyStr t ∧ PyStr.int_of_str t = None
          ∧ get_peer_settings store interface peer_id
            = Raise (invalid_literal_for_int t))
  ∧ ∀ st, get_peer_settings store interface peer_id ≠ Ok st.
Proof.
  intros Ht Hr Hp Hn Ho. unfold get_peer_settings, from_row. rewrite Ht, Hr, Hp.
  rewrite from_string_unrecognized by done.
  destruct (row_max_concurrent row) as [|n|t]; [| |destruct (PyStr.int_of_str t) eqn:E];
    split; try done; try (by left). right. by exists t.
Qed.

(** C2 on a row with the policy ["sticky"] and a numeric limit. *)
Lemma get_peer_settings_unrecognized_policy_witness :
  get_peer_settings (store_with (PyInt 1) (PyStr "sticky")) "wg0" "peerA"
  = Raise (Unsupported_peer_limit_policy (PyStr "sticky")).
Proof.
  assert (H := get_peer_settings_unrecognized_policy
                 (store_with (PyInt 1) (PyStr "sticky")) "wg0" "peerA"
                 {[ "peerA" := {| row_max_concurrent := PyInt 1;
                                  row_connection_policy := PyStr "sticky";
                                  row_session_ttl := PyInt 180;
                                  row_grace_seconds := PyInt 5 |} ]}
                 {| row_max_concurrent := PyInt 1;
                    row_connection_policy := PyStr "sticky";
                    row_session_ttl := PyInt 180;
                    row_grace_seconds := PyInt 5 |} "sticky"
                 eq_refl eq_refl eq_refl ltac:(discriminate) ltac:(discriminate)).
  destruct H as [[H|(t & Ht & _)] _]; [exact H|discriminate Ht].
Defined.

(** The claim of C2 as the spec words it fails: with the policy
    ["sticky"] the reader raises, and the iteration that reads this row
    ends with that exception before any plan reaches the firewall. *)
Lemma get_peer_settings_raises :
  get_peer_settings (store_with (PyInt 1) (PyStr "sticky")) "wg0" "peerA"
  = Raise (Unsupported_peer_limit_policy (PyStr "sticky"))
  ∧ get_peer_settings (store_with (PyInt 1) (PyStr "sticky")) "wg0" "peerA"
    ≠ Ok default_settings
  ∧ (iteration (FirewallBackend0 := NftablesBackend_backend obliging_host)
       (dump_with "10.0.0.1:50000" 100) (seconds 0)
       {| store := store_with (PyInt 1) (PyStr "sticky"); tracker := new_tracker;
          state_repo := []; backend := Some new_backend; peers_over_limit := 0 |} tt).1.1.1
    = Some (Unsupported_peer_limit_policy (PyStr "sticky")).
Proof. split_and!; [by vm_compute|by vm_compute|by vm_compute]. Qed.

(** C3, as the code has it.  The result of [split_endpoint] is that of the
    trimmed string; an empty string and ["(none)"] in any case are
    rejected; a pair [(h, p)] is returned exactly when the trimmed string
    is ["[" h "]:" port] cut at the leftmost ["]:"], or does not begin with
    ["["] and is [h ":" port] cut at the rightmost [":"], where [h] and
    [port] are not empty and [int(port)] is [p].  The port is an integer;
    nothing makes it positive. *)
Theorem split_endpoint_spec (e : string) :
  let s := PyStr.strip e in
  split_endpoint s = split_endpoint e
  ∧ (s = "" ∨ PyStr.lower s = "(none)" → split_endpoint e = None)
  ∧ ∀ h p,
      split_endpoint e = Some (h, p) ↔
      ∃ port,
        h ≠ "" ∧ port ≠ "" ∧ PyStr.int_of_str port = Some p
        ∧ ((s = "[" +:+ h +:+ "]:" +:+ port
            ∧ ∀ h' port', s = "[" +:+ h' +:+ "]:" +:+ port' →
                (String.length h ≤ String.length h')%nat)
           ∨ ((∀ r, s ≠ "[" +:+ r)
              ∧ s = h +:+ ":" +:+ port
              ∧ ∀ h' port', s = h' +:+ ":" +:+ port' →
                  (String.length h' ≤ String.length h)%nat)).
Proof.
  cbv zeta. split; [|split].
  - unfold split_endpoint. by rewrite (strip_idemp e).
  - unfold split_endpoint. intros [->| ->]; [done|].
    by rewrite orb_true_r.
  - intros h p. unfold split_endpoint. generalize (PyStr.strip e) as s. intros s. split.
    + repeat case_bool_decide; simpl; try done.
      unfold PyStr.startswith. case_bool_decide as Hb.
      * destruct Hb as [r Hr]. apply strip_prefix_Some in Hr.
        rewrite str_app_cons, str_app_nil_l in Hr. subst s.
        cbn [PyStr.tail]. unfold PyStr.partition.
        destruct (PyStr.split1 "]:" r) as [[a b]|] eqn:E; simpl.
        2:{ repeat case_bool_decide; simpl; done. }
        repeat case_bool_decide; simpl; try done.
        destruct (PyStr.int_of_str b) as [n|] eqn:En; [|done].
        intros [= <- <-]. exists b. split_and!; try done. left.
        destruct (split1_Some "]:" r a b) as [-> Hmin]; [done|done|].
        rewrite !(str_app_cons "["), !str_app_nil_l.
        split; [done|]. intros h' port' Heq.
        injection Heq as Heq. by eapply Hmin.
      * unfold PyStr.rpartition.
        destruct (PyStr.rsplit1 ":" s) as [[a b]|] eqn:E; simpl.
        2:{ repeat case_bool_decide; simpl; done. }
        repeat case_bool_decide; simpl; try done.
        destruct (PyStr.int_of_str b) as [n|] eqn:En; [|done].
        intros [= <- <-]. exists b. split_and!; try done. right.
        destruct (rsplit1_Some ":" s a b) as [Heq Hmax]; [done|done|].
        split_and!; try done.
        intros r Hr. apply Hb. exists r. by apply strip_prefix_Some.
    + intros (port' & Hh & Hp & Hint & Hform).
      destruct Hform as [[Heq Hmin]|(Hb & Heq & Hmax)].
      * assert (s ≠ "") by (rewrite Heq; done).
        assert (PyStr.lower s ≠ "(none)") by (rewrite Heq; done).
        repeat case_bool_decide; try done. simpl.
        unfold PyStr.startswith. rewrite bool_decide_eq_true_2.
        2:{ exists (h +:+ "]:" +:+ port'). by apply strip_prefix_Some. }
        rewrite Heq, str_app_cons, str_app_nil_l.
        cbn [PyStr.tail]. unfold PyStr.partition.
        rewrite (split1_leftmost "]:" _ h port'); [|done|done|].
        2:{ intros h' p' Heq'. apply (Hmin h' p').
            by rewrite Heq, !(str_app_cons "["), !str_app_nil_l, Heq'. }
        repeat case_bool_decide; try done. simpl. by rewrite Hint.
      * assert (s ≠ "") by (rewrite Heq; by destruct h).
        assert (PyStr.lower s ≠ "(none)")
          by (rewrite Heq; apply lower_none_no_colon).
        repeat case_bool_decide; try done. simpl.
        unfold PyStr.startswith. rewrite bool_decide_eq_false_2.
        2:{ intros [r Hr]. apply strip_prefix_Some in Hr. by apply (Hb r). }
        unfold PyStr.rpartition.
        rewrite (rsplit1_rightmost ":" s h port'); [|done|done|done].
        repeat case_bool_decide; try done. simpl. by rewrite Hint.
Qed.

(** The claim of C3 as the spec words it fails on port [0] and on a
    negative port: both are returned. *)
Lemma split_endpoint_port_not_positive :
  split_endpoint "10.0.0.1:0" = Some ("10.0.0.1", 0)
  ∧ split_endpoint "10.0.0.1:-5" = Some ("10.0.0.1", -5)
  ∧ ¬ (∀ e h p, split_endpoint e = Some (h, p) → 0 < p).
Proof.
  split_and!; [done|done|].
  intros H. specialize (H "10.0.0.1:0" "10.0.0.1" 0 eq_refl). lia.
Qed.

(** C4, as the code has it.  Under a limit [M] and with [grace_seconds = 0],
    [allowed_sessions] returns at most [M] sessions more than there are
    active sessions first seen at [now] or later; so at most [M] when every
    active session was first seen before [now]. *)
Theorem allowed_sessions_cap (i p : string) (st : PeerLimitSettings) (now : Z)
    (tr : SessionTracker) (M : Z) :
  max_concurrent st = Some M → 0 < M → grace_seconds st = 0 →
  let active := (active_sessions i p st now tr).1 in
  let allowed := (allowed_sessions i p st now tr).1 in
  Z.of_nat (length allowed)
  ≤ M + Z.of_nat (length (filter (λ s, now ≤ first_seen s) active))
  ∧ ((∀ s, s ∈ active → first_seen s < now) → Z.of_nat (length allowed) ≤ M).
Proof.
  intros HM HM0 Hg active allowed.
  destruct (allowed_sessions_limited i p st now tr M HM ltac:(lia))
    as (ag & sp & Hall & Hsub & _ & _ & _ & Hlen).
  fold active in Hsub. fold allowed in Hall. rewrite Hg in Hsub.
  assert (filter (λ s, now - timedelta (Z.max 0 0) ≤ first_seen s) active
          = filter (λ s, now ≤ first_seen s) active) as Hf.
  { apply list_filter_iff. intros s. unfold timedelta. simpl. lia. }
  rewrite Hf in Hsub. apply sublist_length in Hsub.
  rewrite Hall, length_app. split; [lia|].
  intros Hold. rewrite filter_none in Hsub; [simpl in *; lia|].
  intros s Hs. specialize (Hold s Hs). lia.
Qed.

(** C4 one second later: one session is allowed. *)
Lemma allowed_sessions_cap_witness :
  let st := limit_one NEW_WINS 180 0 in
  Z.of_nat (length (allowed_sessions "wg0" "peer" st (seconds 6) (two_sessions st)).1)
  ≤ 1.
Proof.
  intros st.
  apply (allowed_sessions_cap "wg0" "peer" st (seconds 6) (two_sessions st) 1).
  - reflexivity.
  - lia.
  - reflexivity.
  - apply Forall_forall. by_evaluation.
Defined.

(** The claim of C4 as the spec words it fails at the instant a session is
    first seen: with a limit of 1 and [grace_seconds = 0], both sessions of
    the tests are allowed at second 5, as the tests of the repository
    expect. *)
Lemma allowed_sessions_over_cap :
  let st := limit_one NEW_WINS 180 0 in
  max_concurrent st = Some 1 ∧ grace_seconds st = 0
  ∧ endpoint <$> (allowed_sessions "wg0" "peer" st (seconds 5) (two_sessions st)).1
    = ["10.0.0.2:50001"; "10.0.0.1:50000"]
  ∧ ¬ (Z.of_nat (length (allowed_sessions "wg0" "peer" st (seconds 5)
                           (two_sessions st)).1) ≤ 1).
Proof. split_and!; [done|done|done|]. vm_compute. intros H. by apply H. Qed.

(** C5, as the code has it.  In a well-formed tracker, a session that
    [active_sessions] returns and whose [first_seen] is at least
    [now - grace_seconds] is in the list [allowed_sessions] returns, whatever
    the limit and the other sessions. *)
Theorem grace_sessions_allowed (i p : string) (st : PeerLimitSettings) (now : Z)
    (tr : SessionTracker) (s : PeerSession) :
  wf_tracker tr →
  s ∈ (active_sessions i p st now tr).1 →
  now - timedelta (grace_seconds st) ≤ first_seen s →
  s ∈ (allowed_sessions i p st now tr).1.
Proof.
  intros Hwf Hactive Hgrace.
  destruct (max_concurrent st) as [M|] eqn:HM;
    [destruct (decide (M = 0)) as [->|HM0]|];
    try (rewrite allowed_sessions_unlimited by auto; done).
  destruct (allowed_sessions_limited i p st now tr M HM HM0)
    as (ag & sp & -> & Hsub & Hall & _).
  apply elem_of_app. left.
  assert (s ∈ filter (λ s, now - timedelta (Z.max (grace_seconds st) 0) ≤ first_seen s)
                (active_sessions i p st now tr).1) as Hs.
  { apply list_elem_of_filter. split; [|done]. unfold timedelta in *. lia. }
  destruct (proj1 (list_elem_of_fmap _ _ _) (Hall s Hs)) as (s' & Heq & Hs').
  assert (s = s') as ->; [|done].
  eapply (NoDup_fmap_elem_of_inj endpoint); [by apply (active_sessions_NoDup i p st now tr)|done| |done].
  eapply elem_of_sublist in Hs'; [|done]. by apply list_elem_of_filter in Hs' as [_ ?].
Qed.

(** C5 on the second session of the tests, inside a grace period of 10
    seconds. *)
Lemma grace_sessions_allowed_witness :
  let st := limit_one NEW_WINS 180 10 in
  let s := {| endpoint := "10.0.0.2:50001"; first_seen := seconds 5;
              last_seen := seconds 5; last_handshake := Some 1700000005000000;
              rx_bytes := 200; tx_bytes := 0; rx_delta := 0; tx_delta := 0 |} in
  s ∈ (allowed_sessions "wg0" "peer" st (seconds 10) (two_sessions st)).1.
Proof.
  intros st s.
  apply (grace_sessions_allowed "wg0" "peer" st (seconds 10) (two_sessions st) s).
  - by_evaluation.
  - by_evaluation.
  - vm_compute. discriminate.
Defined.

(** The claim of C5 as the spec words it fails when the grace period is
    longer than the TTL: a session first seen at time 0 is still tracked
    at second 50 and is inside a grace period of 100 seconds, but with a
    TTL of 5 seconds it is not active, and it is not allowed. *)
Lemma grace_session_not_allowed :
  let st := limit_one NEW_WINS 5 100 in
  let tr := one_session st in
  ∃ s, tracked tr ("wg0", "peer") = [s]
       ∧ seconds 50 - timedelta (grace_seconds st) ≤ first_seen s
       ∧ (allowed_sessions "wg0" "peer" st (seconds 50) tr).1 = [].
Proof. eexists. split_and!; [reflexivity|by vm_compute|reflexivity]. Qed.

(** C6, as the code has it.  When [observe] reaches its branch for an
    endpoint that has a session (the session is tracked under the key and
    the expiry step of this call keeps it: it is not older than the TTL
    window), the deltas are the clamped differences and so are not
    negative, the stored counters are the new ones, and [last_seen] is
    [now] when a delta is not zero and the previous [last_seen]
    otherwise. *)
Theorem observe_existing_session (i p : string) (ep : option string)
    (hs : option Z) (rx tx : Z) (st : PeerLimitSettings) (now : Z)
    (tr : SessionTracker) (old : PeerSession) :
  let e := PyStr.strip (default "" ep) in
  wf_tracker tr →
  session_at tr (i, p) e = Some old →
  now - timedelta (Z.max (ttl_seconds st) 1) ≤ last_seen old →
  ∃ new,
    session_at (observe i p ep hs rx tx st now tr).2 (i, p) e = Some new
    ∧ new ∈ (observe i p ep hs rx tx st now tr).1
    ∧ rx_delta new = Z.max 0 (rx - rx_bytes old)
    ∧ tx_delta new = Z.max 0 (tx - tx_bytes old)
    ∧ 0 ≤ rx_delta new ∧ 0 ≤ tx_delta new
    ∧ rx_bytes new = rx ∧ tx_bytes new = tx
    ∧ (rx_delta new ≠ 0 ∨ tx_delta new ≠ 0 → last_seen new = now)
    ∧ (rx_delta new = 0 ∧ tx_delta new = 0 → last_seen new = last_seen old)
    ∧ endpoint new = endpoint old ∧ first_seen new = first_seen old.
Proof.
  intros e Hwf Hold Hlive.
  pose (c := {| call_interface := i; call_peer_id := p; call_endpoint := ep;
                call_latest_handshake := hs; call_rx_bytes := rx;
                call_tx_bytes := tx; call_settings := st; call_now := now |}).
  pose proof (observe_session_at c tr (i, p) e old Hwf Hold) as Hnew.
  unfold do_observe, expires, call_key in Hnew. simpl in Hnew.
  rewrite bool_decide_eq_true_2 in Hnew by done.
  rewrite (bool_decide_eq_false_2 (last_seen old < _)) in Hnew by lia.
  specialize (Hnew eq_refl). rewrite bool_decide_eq_true_2 in Hnew by done.
  eexists. split; [exact Hnew|]. split.
  { rewrite observe_result. unfold tracked, Dict.values.
    apply list_elem_of_fmap. eexists (e, _). split; [done|].
    by apply dict_get_Some_elem_of. }
  unfold update_existing. simpl. split_and!; try done; try lia.
  - intros Hd. rewrite (proj2 (orb_true_iff _ _)); [done|].
    destruct Hd as [Hd|Hd]; [left|right]; by rewrite bool_decide_eq_false_2.
  - intros [Hr Ht]. by rewrite !bool_decide_eq_true_2.
Qed.

(** C6 at the scenario "counter reset clamp": after [rx_bytes = 1000], an
    observation of the same endpoint with [rx_bytes = 10] gives
    [rx_delta = 0] and stores [rx_bytes = 10]; [last_seen] stays. *)
Lemma observe_existing_session_witness :
  ∃ new,
    session_at (observe "wg0" "peer" (Some "10.0.0.1:50000") (Some 1700000000) 10 0
                  (limit_one NEW_WINS 180 5) (seconds 1)
                  (one_session (limit_one NEW_WINS 180 5))).2
      ("wg0", "peer") "10.0.0.1:50000" = Some new
    ∧ rx_delta new = 0 ∧ rx_bytes new = 10 ∧ last_seen new = seconds 0.
Proof.
  destruct (observe_existing_session "wg0" "peer" (Some "10.0.0.1:50000")
              (Some 1700000000) 10 0 (limit_one NEW_WINS 180 5) (seconds 1)
              (one_session (limit_one NEW_WINS 180 5))
              {| endpoint := "10.0.0.1:50000"; first_seen := seconds 0;
                 last_seen := seconds 0; last_handshake := Some 1700000000000000;
                 rx_bytes := 1000; tx_bytes := 0; rx_delta := 0; tx_delta := 0 |})
    as (new & Hat & _ & Hrx & Htx & _ & _ & Hbytes & _ & _ & Hidle & _).
  - by_evaluation.
  - reflexivity.
  - vm_compute. discriminate.
  - exists new. split_and!; [exact Hat|exact Hrx|exact Hbytes|].
    apply Hidle. split; [exact Hrx|exact Htx].
Defined.

(** The claim of C6 as the spec words it fails for a session that the
    call finds under the key but that is older than the TTL window: the
    expiry step of the same call deletes it and a new session is created.
    After [rx_bytes = 1000] at time 0, with a TTL of 180 seconds, an
    observation of the endpoint at second 1000 with [rx_bytes = 5000]
    gives [rx_delta = 0], not 4000; and one with [rx_bytes = 1000], where
    both deltas are 0, moves [last_seen] to [now]. *)
Lemma observe_stale_session_restarts :
  let st := limit_one NEW_WINS 180 5 in
  let tr := one_session st in
  let e := "10.0.0.1:50000" in
  let grown := (observe "wg0" "peer" (Some e) (Some 1700000000) 5000 0 st
                  (seconds 1000) tr).2 in
  let same := (observe "wg0" "peer" (Some e) (Some 1700000000) 1000 0 st
                 (seconds 1000) tr).2 in
  ∃ old new new',
    session_at tr ("wg0", "peer") e = Some old
    ∧ rx_bytes old = 1000 ∧ last_seen old = seconds 0
    ∧ session_at grown ("wg0", "peer") e = Some new
    ∧ rx_delta new = 0 ∧ rx_delta new ≠ Z.max 0 (5000 - rx_bytes old)
    ∧ session_at same ("wg0", "peer") e = Some new'
    ∧ rx_delta new' = 0 ∧ tx_delta new' = 0
    ∧ last_seen new' = seconds 1000 ∧ last_seen new' ≠ last_seen old.
Proof.
  eexists _, _, _.
  split_and!; [reflexivity|reflexivity|reflexivity|reflexivity|reflexivity|by vm_compute
              |reflexivity|reflexivity|reflexivity|reflexivity|by vm_compute].
Qed.

(** C7.  For a session tracked under a key and an endpoint: a call of
    [observe] that does not expire it leaves its [last_handshake] as it is
    unless the call observes this endpoint with a handshake time that is
    not zero and is after the stored one (or none is stored), and then the
    observed time is stored; so after any sequence of calls none of which
    expires the session, its [last_handshake] is not before the initial
    one. *)
Theorem last_handshake_monotone (tr : SessionTracker) (key : string * string)
    (e : string) (old : PeerSession) :
  wf_tracker tr →
  session_at tr key e = Some old →
  (∀ c, expires c key old = false →
     ∃ new,
       session_at (do_observe c tr).2 key e = Some new
       ∧ handshake_le (last_handshake old) (last_handshake new)
       ∧ (last_handshake new ≠ last_handshake old →
          key = call_key c ∧ e = PyStr.strip (default "" (call_endpoint c))
          ∧ ∃ t, call_latest_handshake c = Some t ∧ t ≠ 0
               ∧ last_handshake new = Some (fromtimestamp t)
               ∧ ∀ stored, last_handshake old = Some stored →
                           stored < fromtimestamp t))
  ∧ (∀ calls, outlives key e tr calls = true →
       ∃ new,
         session_at (run_calls calls tr) key e = Some new
         ∧ handshake_le (last_handshake old) (last_handshake new)).
Proof.
  intros Hwf Hold. split.
  - intros c Hexp. by apply observe_step_handshake.
  - intros calls Hout. by apply run_calls_handshake.
Qed.

(** C7 on a session with a handshake at 1700000000 that is observed with
    an earlier handshake time and then with a later one. *)
Lemma last_handshake_monotone_witness :
  ∃ new,
    session_at (run_calls (handshake_calls (limit_one NEW_WINS 180 5))
                  (one_session (limit_one NEW_WINS 180 5)))
      ("wg0", "peer") "10.0.0.1:50000" = Some new
    ∧ handshake_le (Some 1700000000000000) (last_handshake new).
Proof.
  destruct (last_handshake_monotone (one_session (limit_one NEW_WINS 180 5))
              ("wg0", "peer") "10.0.0.1:50000"
              {| endpoint := "10.0.0.1:50000"; first_seen := seconds 0;
                 last_seen := seconds 0; last_handshake := Some 1700000000000000;
                 rx_bytes := 1000; tx_bytes := 0; rx_delta := 0; tx_delta := 0 |})
    as [_ Hseq].
  - by_evaluation.
  - reflexivity.
  - apply (Hseq (handshake_calls (limit_one NEW_WINS 180 5))). reflexivity.
Defined.

(** C8, as the code has it.  The TTL of the settings is clamped to one
    second: [active_sessions] leaves the tracker as it is and returns the
    tracked sessions whose [last_seen] is at least
    [now - max(ttl_seconds, 1)] seconds, each as often as it is tracked, in
    descending order of [last_seen]; a tracked session that is older is
    not returned.  For a TTL of at least one second, which is what the
    data model and [from_row] give, the bound is [now - ttl_seconds]. *)
Theorem active_sessions_spec (i p : string) (st : PeerLimitSettings) (now : Z)
    (tr : SessionTracker) :
  let window := now - timedelta (Z.max (ttl_seconds st) 1) in
  let active := (active_sessions i p st now tr).1 in
  (active_sessions i p st now tr).2 = tr
  ∧ active ≡ₚ filter (λ s, window ≤ last_seen s) (tracked tr (i, p))
  ∧ (∀ s, s ∈ active ↔ s ∈ tracked tr (i, p) ∧ window ≤ last_seen s)
  ∧ (∀ s, s ∈ tracked tr (i, p) → last_seen s < window → s ∉ active)
  ∧ StronglySorted (λ a b, last_seen b ≤ last_seen a) active
  ∧ (1 ≤ ttl_seconds st → window = now - timedelta (ttl_seconds st)).
Proof.
  intros window active. subst window active.
  split_and!.
  - done.
  - unfold active_sessions, tracked. simpl.
    by rewrite stable_sort_Permutation.
  - intros s. by rewrite active_sessions_elem_of.
  - intros s _ Hold. rewrite active_sessions_elem_of. intros [_ ?]. lia.
  - unfold active_sessions. simpl.
    eapply strongly_sorted_impl; [|apply stable_sort_sorted].
    + intros a b Hab. by apply Z.leb_le in Hab.
    + intros a b Hab. apply Z.leb_le. apply Z.leb_gt in Hab. lia.
    + intros a b c Hab Hbc. apply Z.leb_le. apply Z.leb_le in Hab, Hbc. lia.
  - intros Httl. by rewrite Z.max_l.
Qed.

(** C8 at the scenario "TTL expiry": a session last seen at time 0 with a
    TTL of 5 seconds is not active at second 10. *)
Lemma active_sessions_spec_witness :
  (active_sessions "wg0" "peer" (limit_one NEW_WINS 5 5) (seconds 10)
     (one_session (limit_one NEW_WINS 5 5))).1 = []
  ∧ (active_sessions "wg0" "peer" (limit_one NEW_WINS 5 5) (seconds 10)
       (one_session (limit_one NEW_WINS 5 5))).2
    = one_session (limit_one NEW_WINS 5 5).
Proof.
  destruct (active_sessions_spec "wg0" "peer" (limit_one NEW_WINS 5 5) (seconds 10)
              (one_session (limit_one NEW_WINS 5 5))) as (Hstate & Hperm & _).
  split; [|exact Hstate].
  apply Permutation_nil_r. exact Hperm.
Defined.

(** The claim of C8 as the spec words it, with the bound [now - T], fails
    for a TTL below one second: with [ttl_seconds = 0], a session last
    seen at time 0 is returned half a second later, though its
    [last_seen] is older than [now - 0]. *)
Lemma active_sessions_ttl_below_one :
  let st := limit_one NEW_WINS 0 5 in
  let now := 500000 in
  ∃ s, (active_sessions "wg0" "peer" st now (one_session st)).1 = [s]
       ∧ s ∈ tracked (one_session st) ("wg0", "peer")
       ∧ last_seen s < now - timedelta (ttl_seconds st).
Proof.
  eexists. split_and!; [reflexivity|by_evaluation|by vm_compute].
Qed.

(** C9.  For plans with one entry for each interface (the keys of a
    dictionary): the element commands that [sync] runs are, for each
    interface in turn and for its IPv4 and then its IPv6 set, one
    [add element] with [desired − current] when that is not empty and one
    [delete element] with [current − desired] when that is not empty; so
    there is at most one command of each kind for each set, and the sets a
    command names are these differences; and a second [sync] of the same
    plans, on the backend the first one left, runs no command at all. *)
Theorem nft_sync_diff {W : Type} (subprocess_run : command → W → Z * W)
    (plans : list (string * FirewallSyncPlan)) (b : NftablesBackend) (w : W) :
  NoDup plans.*1 →
  let first := nft_sync subprocess_run plans b w in
  filter is_element_command (run_log first) = expected_element_commands b plans
  ∧ (∀ verb n, (length (filter (on_set verb n) (run_log first)) ≤ 1)%nat)
  ∧ (∀ i plan e, (i, plan) ∈ plans →
       let current4 := default ∅ (current_v4 b !! i) in
       let current6 := default ∅ (current_v6 b !! i) in
       (element_command "add" (set_v4_name i) e ∈ run_log first ↔
        e = ipv4 plan ∖ current4 ∧ e ≠ ∅)
       ∧ (element_command "delete" (set_v4_name i) e ∈ run_log first ↔
          e = current4 ∖ ipv4 plan ∧ e ≠ ∅)
       ∧ (element_command "add" (set_v6_name i) e ∈ run_log first ↔
          e = ipv6 plan ∖ current6 ∧ e ≠ ∅)
       ∧ (element_command "delete" (set_v6_name i) e ∈ run_log first ↔
          e = current6 ∖ ipv6 plan ∧ e ≠ ∅))
  ∧ (∀ w',
       let second := nft_sync subprocess_run plans (run_self first) w' in
       run_log second = []
       ∧ filter is_element_command (run_log second) = []
       ∧ run_self second = run_self first).
Proof.
  intros Hnd first.
  pose proof (sync_element_commands subprocess_run plans b w Hnd) as Hlog.
  fold first in Hlog. split_and!.
  - done.
  - intros verb n.
    rewrite <- (list_filter_filter_l (on_set verb n) is_element_command)
      by apply on_set_is_element.
    rewrite Hlog. by apply count_expected.
  - intros i plan e Hin current4 current6.
    rewrite (elem_of_element_commands "add" (set_v4_name i) e (run_log first)).
    rewrite (elem_of_element_commands "delete" (set_v4_name i) e (run_log first)).
    rewrite (elem_of_element_commands "add" (set_v6_name i) e (run_log first)).
    rewrite (elem_of_element_commands "delete" (set_v6_name i) e (run_log first)).
    rewrite Hlog.
    destruct (elem_of_expected "add" e b plans i plan Hnd Hin) as [Ha4 Ha6].
    destruct (elem_of_expected "delete" e b plans i plan Hnd Hin) as [Hd4 Hd6].
    rewrite Ha4, Ha6, Hd4, Hd6. subst current4 current6.
    split_and!; split; try (intros [(? & ? & ?)|(? & ? & ?)]; done); auto.
  - intros w' second.
    destruct (sync_idle subprocess_run plans (run_self first) w') as [Hb Hl].
    { by apply sync_synced. }
    subst second. by rewrite Hl, Hb.
Qed.

(** C9 at the scenario "native backend diff": one [add element] for
    [(10.0.0.2, 2222)], no [delete element], and nothing on a second
    [sync]. *)
Lemma nft_sync_diff_witness :
  NoDup plans_two.*1
  ∧ filter is_element_command
      (run_log (nft_sync obliging_host plans_two tracking_one tt))
    = [element_command "add" "wggo_wg0_allowed_v4" {[("10.0.0.2", 2222)]}]
  ∧ run_log (nft_sync obliging_host plans_two
               (run_self (nft_sync obliging_host plans_two tracking_one tt)) tt)
    = [].
Proof.
  assert (NoDup plans_two.*1) as Hnd by by_evaluation.
  destruct (nft_sync_diff obliging_host plans_two tracking_one tt Hnd)
    as (Hlog & _ & _ & Hsecond).
  split_and!; [exact Hnd|exact Hlog|exact (proj1 (Hsecond tt))].
Defined.

(** C10.  In a well-formed tracker, every session that [allowed_sessions]
    returns is one that [active_sessions] returns for the same arguments,
    the endpoints of the returned sessions are distinct, and the tracker
    is left as it is. *)
Theorem allowed_sessions_sound (i p : string) (st : PeerLimitSettings) (now : Z)
    (tr : SessionTracker) :
  wf_tracker tr →
  (∀ s, s ∈ (allowed_sessions i p st now tr).1 →
        s ∈ (active_sessions i p st now tr).1)
  ∧ NoDup (endpoint <$> (allowed_sessions i p st now tr).1)
  ∧ (allowed_sessions i p st now tr).2 = tr.
Proof.
  intros Hwf. split_and!; [| |apply allowed_sessions_state].
  - destruct (max_concurrent st) as [M|] eqn:HM;
      [destruct (decide (M = 0)) as [->|HM0]|];
      try (rewrite allowed_sessions_unlimited by auto; done).
    destruct (allowed_sessions_limited i p st now tr M HM HM0)
      as (ag & sp & -> & Hsub & _ & _ & Hsp & _).
    intros s [Hs|Hs]%elem_of_app; [|by apply Hsp].
    eapply elem_of_sublist in Hs; [|done].
    by apply list_elem_of_filter in Hs as [_ ?].
  - destruct (max_concurrent st) as [M|] eqn:HM;
      [destruct (decide (M = 0)) as [->|HM0]|];
      try (rewrite allowed_sessions_unlimited by auto; by apply active_sessions_NoDup).
    by destruct (allowed_sessions_limited i p st now tr M HM HM0)
      as (ag & sp & -> & _ & _ & Hnd & _).
Qed.

(** C10 on the two sessions of the tests, one second after the second
    was first seen. *)
Lemma allowed_sessions_sound_witness :
  wf_tracker (two_sessions (limit_one NEW_WINS 180 0))
  ∧ NoDup (endpoint <$> (allowed_sessions "wg0" "peer" (limit_one NEW_WINS 180 0)
                           (seconds 6) (two_sessions (limit_one NEW_WINS 180 0))).1)
  ∧ (allowed_sessions "wg0" "peer" (limit_one NEW_WINS 180 0) (seconds 6)
       (two_sessions (limit_one NEW_WINS 180 0))).2
    = two_sessions (limit_one NEW_WINS 180 0).
Proof.
  assert (wf_tracker (two_sessions (limit_one NEW_WINS 180 0))) as Hwf
    by by_evaluation.
  split; [exact Hwf|].
  exact (proj2 (allowed_sessions_sound "wg0" "peer" (limit_one NEW_WINS 180 0)
                  (seconds 6) (two_sessions (limit_one NEW_WINS 180 0)) Hwf)).
Defined.

(** * Further properties *)

(** ** More on the session tracker *)

Section tracker_more.
Implicit Types (tr : SessionTracker) (d : list (string * PeerSession)).
Implicit Types (key : string * string) (s : PeerSession).

Lemma dict_elem_of_set_any {V} (d : list (string * V)) (k : string) (v : V)
    (kv : string * V) :
  kv ∈ Dict.set k v d → kv = (k, v) ∨ kv ∈ d.
Proof.
  induction d as [|[k0 v0] d IH]; simpl.
  - intros ->%list_elem_of_singleton. by left.
  - case_bool_decide; rewrite !elem_of_cons; [naive_solver|].
    intros [->|Hin]; [by right; left|]. destruct (IH Hin); auto.
Qed.

(** [observe] writes the dictionary of its key and nothing else. *)
Lemma observe_insert i p ep hs rx tx st now tr :
  (observe i p ep hs rx tx st now tr).2
  = <[(i, p) := default [] ((observe i p ep hs rx tx st now tr).2 !! (i, p))]> tr.
Proof.
  apply map_eq. intros key. destruct (decide (key = (i, p))) as [->|Hne].
  - rewrite lookup_insert_eq. rewrite observe_state. cbv zeta.
    destruct (names_session _); [destruct (Dict.get _ _)|];
      by rewrite lookup_insert_eq.
  - rewrite lookup_insert_ne by done. by apply observe_other.
Qed.

(** What [observe] makes of the dictionary of its key depends on that
    dictionary only. *)
Lemma observe_lookup_congr i p ep hs rx tx st now tr tr' :
  tr !! (i, p) = tr' !! (i, p) →
  (observe i p ep hs rx tx st now tr).2 !! (i, p)
  = (observe i p ep hs rx tx st now tr').2 !! (i, p).
Proof.
  intros Heq. rewrite !observe_state. cbv zeta.
  rewrite !expire_sessions, Heq.
  destruct (names_session _); [destruct (Dict.get _ _)|];
    by rewrite !lookup_insert_eq.
Qed.

Lemma observe_commute_state (c1 c2 : ObserveCall) tr :
  call_key c1 ≠ call_key c2 →
  (do_observe c1 (do_observe c2 tr).2).2 = (do_observe c2 (do_observe c1 tr).2).2.
Proof.
  intros Hne. unfold do_observe, call_key in *. apply map_eq. intros key.
  destruct (decide (key = (call_interface c1, call_peer_id c1))) as [->|H1];
    [|destruct (decide (key = (call_interface c2, call_peer_id c2))) as [->|H2]].
  - rewrite (observe_other (call_interface c2)) by done.
    apply observe_lookup_congr. by apply observe_other.
  - rewrite (observe_other (call_interface c1)) by done.
    symmetry. apply observe_lookup_congr. apply observe_other. congruence.
  - by rewrite !observe_other.
Qed.

Lemma observe_commute_result (c1 c2 : ObserveCall) tr :
  call_key c1 ≠ call_key c2 →
  (do_observe c1 (do_observe c2 tr).2).1 = (do_observe c1 tr).1.
Proof.
  intros Hne. unfold do_observe, call_key in *. rewrite !observe_result.
  unfold tracked. f_equal. f_equal.
  apply observe_lookup_congr. by apply observe_other.
Qed.

Lemma timedelta_pos (st : PeerLimitSettings) : 0 < timedelta (Z.max (ttl_seconds st) 1).
Proof. unfold timedelta. lia. Qed.

(** After [observe], every session of the key is inside the TTL window of
    the call. *)
Lemma observe_sessions_live i p ep hs rx tx st now tr :
  wf_tracker tr →
  Forall (λ kv : string * PeerSession, ttl_window st now ≤ last_seen kv.2)
         (default [] ((observe i p ep hs rx tx st now tr).2 !! (i, p))).
Proof.
  intros Hwf. pose proof (timedelta_pos st) as Hpos. unfold ttl_window.
  rewrite observe_state. cbv zeta.
  assert (Forall (λ kv : string * PeerSession,
                    now - timedelta (Z.max (ttl_seconds st) 1) ≤ last_seen kv.2)
            (default [] ((_expire (i, p) (ttl_seconds st) now tr).2 !! (i, p))))
    as Hd1.
  { rewrite expire_sessions_wf by done. apply Forall_forall.
    intros kv [Hkv _]%list_elem_of_filter. lia. }
  destruct (names_session _).
  - destruct (Dict.get _ _) as [ex|] eqn:Hget; rewrite lookup_insert_eq; simpl;
      apply Forall_forall; intros kv [->|Hin]%dict_elem_of_set_any;
      try (by apply (proj1 (Forall_forall _ _) Hd1)).
    + apply dict_get_Some_elem_of in Hget.
      apply (proj1 (Forall_forall _ _) Hd1) in Hget. simpl in *.
      unfold update_existing. simpl. destruct (_ || _); lia.
    + simpl. lia.
  - by rewrite lookup_insert_eq.
Qed.

(** [_expire] on the other dictionaries and on the key itself. *)
Lemma expire_lookup key ttl now tr :
  wf_tracker tr →
  (_expire key ttl now tr).2 !! key =
  match tr !! key with
  | None => None
  | Some [] => Some []
  | Some d =>
      match filter (λ kv : string * PeerSession,
                      ¬ last_seen kv.2 < now - timedelta (Z.max ttl 1)) d with
      | [] => None
      | d' => Some d'
      end
  end.
Proof.
  intros Hwf. pose proof (expire_sessions_wf key ttl now tr Hwf) as He.
  unfold _expire, mbind, State_bind, gets, modify, mret, State_ret in *.
  destruct (tr !! key) as [[|kv d]|] eqn:E; simpl in *; try by rewrite E.
  destruct (filter (λ kv0 : string * PeerSession, kv0.1 ∉ _) (kv :: d)) eqn:F;
    simpl in *.
  - rewrite lookup_delete_eq in *. simpl in He. by rewrite <- He.
  - rewrite lookup_insert_eq in *. simpl in He. by rewrite <- He.
Qed.

(** Times of the sessions under [observe] with a clock that does not go
    back. *)
Lemma observe_times_ordered i p ep hs rx tx st now t tr :
  times_ordered t tr → t ≤ now →
  times_ordered now (observe i p ep hs rx tx st now tr).2.
Proof.
  intros Ht Hnow key d Hd. apply Forall_forall. intros kv Hkv.
  assert (∀ key' d' kv', tr !! key' = Some d' → kv' ∈ d' →
            first_seen kv'.2 ≤ last_seen kv'.2 ≤ now) as Hold.
  { intros key' d' kv' Hd' Hkv'.
    pose proof (proj1 (Forall_forall _ _) (Ht key' d' Hd') kv' Hkv'). simpl in *. lia. }
  destruct (decide (key = (i, p))) as [->|Hne].
  2:{ rewrite observe_other in Hd by done. by eapply Hold. }
  rewrite observe_state in Hd. cbv zeta in Hd.
  assert (∀ kv', kv' ∈ default [] ((_expire (i, p) (ttl_seconds st) now tr).2 !! (i, p)) →
            first_seen kv'.2 ≤ last_seen kv'.2 ≤ now) as Hd1.
  { intros kv'. rewrite expire_sessions. intros [_ Hin]%list_elem_of_filter.
    destruct (tr !! (i, p)) as [d0|] eqn:E; [by eapply Hold|].
    by apply elem_of_nil in Hin. }
  destruct (names_session _).
  - destruct (Dict.get _ _) as [ex|] eqn:Hget; rewrite lookup_insert_eq in Hd;
      injection Hd as <-; apply dict_elem_of_set_any in Hkv as [->|Hin];
      try (by apply Hd1).
    + apply dict_get_Some_elem_of, Hd1 in Hget. simpl in *.
      unfold update_existing. simpl. destruct (_ || _); lia.
    + simpl. lia.
  - rewrite lookup_insert_eq in Hd. injection Hd as <-. by apply Hd1.
Qed.

Lemma run_calls_times_ordered calls t tr :
  times_ordered t tr →
  StronglySorted (λ a b, call_now a ≤ call_now b) calls →
  Forall (λ c, t ≤ call_now c) calls →
  ∃ t', times_ordered t' (run_calls calls tr).
Proof.
  revert t tr. induction calls as [|c calls IH]; intros t tr Ht Hsorted Hafter.
  - by exists t.
  - apply StronglySorted_inv in Hsorted as [Hsorted Hc].
    apply Forall_cons in Hafter as [Hnow _].
    apply (IH (call_now c)); [|done|done].
    by apply observe_times_ordered with (t := t).
Qed.

End tracker_more.

Section allowed_more.
Implicit Types (tr : SessionTracker) (s : PeerSession).
Implicit Types (items allowed : list PeerSession) (seen : gset string).

(** [append_unique] appends all the items when their endpoints are
    distinct and none was seen. *)
Lemma append_unique_fresh items allowed seen :
  NoDup (endpoint <$> items) →
  (∀ s, s ∈ items → endpoint s ∉ seen) →
  append_unique items (allowed, seen)
  = (allowed ++ items, list_to_set (endpoint <$> items) ∪ seen).
Proof.
  revert allowed seen. induction items as [|s items IH]; intros allowed seen Hnd Hfresh.
  - unfold append_unique. simpl. rewrite app_nil_r. f_equal. set_solver.
  - rewrite fmap_cons in Hnd. apply NoDup_cons in Hnd as [Hs Hnd].
    rewrite append_unique_cons.
    rewrite bool_decide_eq_false_2 by (apply Hfresh; by left).
    rewrite IH; [|done|].
    + rewrite <- app_assoc. simpl. f_equal. set_solver.
    + intros s' Hs'. rewrite not_elem_of_union, not_elem_of_singleton. split.
      * intros Heq. apply Hs. rewrite <- Heq. by apply list_elem_of_fmap_2.
      * apply Hfresh. by right.
Qed.

(** In a well-formed tracker [append_unique] drops nothing, and
    [allowed_sessions] returns under a limit [M]: the active sessions of
    the grace window, in the order of [active_sessions]; then, when [M] is
    positive, the first [M] of the other active sessions, in that order
    under [new_wins] and sorted by [first_seen] under [old_wins]. *)
Lemma allowed_sessions_exact i p st now tr M :
  wf_tracker tr → max_concurrent st = Some M → M ≠ 0 →
  let active := (active_sessions i p st now tr).1 in
  let grace_window := now - timedelta (Z.max (grace_seconds st) 0) in
  let grace := filter (λ s, grace_window ≤ first_seen s) active in
  let stable := filter (λ s, ¬ grace_window ≤ first_seen s) active in
  (allowed_sessions i p st now tr).1
  = grace ++ take (Z.to_nat M)
               match policy st with
               | NEW_WINS => stable
               | OLD_WINS => stable_sort (λ a b, first_seen a <=? first_seen b) stable
               end.
Proof.
  intros Hwf HM HM0 active grace_window grace stable.
  pose proof (active_sessions_NoDup i p st now tr Hwf) as Hnd. fold active in Hnd.
  assert (NoDup (endpoint <$> grace)) as Hndg.
  { eapply sublist_NoDup; [exact Hnd|]. apply fmap_sublist, sublist_filter. }
  assert (filter (λ s, s ∉ grace) active = stable) as Hst.
  { apply filter_ext_elem_of. intros s Hs. unfold grace.
    rewrite list_elem_of_filter. naive_solver. }
  assert (∀ s, s ∈ stable → endpoint s ∉ endpoint <$> grace) as Hdisj.
  { intros s [Hs Hin]%list_elem_of_filter (g & Heq & [Hg Hgin]%list_elem_of_filter)%list_elem_of_fmap.
    assert (s = g) as -> by (by eapply (NoDup_fmap_elem_of_inj endpoint active)).
    done. }
  unfold allowed_sessions, mbind, State_bind, mret, State_ret.
  rewrite (surjective_pairing (active_sessions _ _ _ _ _)), active_sessions_state.
  rewrite HM. fold active. fold grace_window. fold grace.
  rewrite append_unique_fresh; [|done|set_solver].
  rewrite Hst. simpl app.
  rewrite filter_none by (intros s Hs Hn; by apply Hn).
  simpl length. rewrite Z.sub_0_r.
  assert ((if Z.max M 0 <=? 0 then (grace, tr)
           else ((append_unique
                    (take (Z.to_nat (Z.max M 0))
                       match policy st with
                       | NEW_WINS => stable
                       | OLD_WINS => stable_sort (λ a b, first_seen a <=? first_seen b) stable
                       end)
                    (grace, list_to_set (endpoint <$> grace) ∪ ∅)).1, tr)).1
          = grace ++ take (Z.to_nat M)
                       match policy st with
                       | NEW_WINS => stable
                       | OLD_WINS => stable_sort (λ a b, first_seen a <=? first_seen b) stable
                       end) as Hgoal.
  { destruct (Z.max M 0 <=? 0) eqn:Hrem.
    - apply Z.leb_le in Hrem. simpl.
      replace (Z.to_nat M) with 0%nat by lia. simpl. by rewrite app_nil_r.
    - apply Z.leb_gt in Hrem. replace (Z.max M 0) with M by lia.
      rewrite append_unique_fresh; [done| |].
      + assert (NoDup (endpoint <$> stable)) as Hnds.
        { eapply sublist_NoDup; [exact Hnd|]. apply fmap_sublist, sublist_filter. }
        eapply sublist_NoDup; [|apply fmap_sublist, sublist_take].
        destruct (policy st); [done|]. by rewrite stable_sort_Permutation.
      + intros s Hs%subseteq_take. rewrite not_elem_of_union. split; [|set_solver].
        rewrite elem_of_list_to_set. apply Hdisj.
        destruct (policy st); [done|]. by apply stable_sort_elem_of in Hs. }
  destruct M; try done; exact Hgoal.
Qed.
End allowed_more.

(** ** Decimal text *)

Section decimal_facts.
Import PyStr.

Lemma digit_cases (d : Z) :
  0 ≤ d < 10 →
  d = 0 ∨ d = 1 ∨ d = 2 ∨ d = 3 ∨ d = 4 ∨ d = 5 ∨ d = 6 ∨ d = 7 ∨ d = 8 ∨ d = 9.
Proof. lia. Qed.

Lemma digit_value_char (d : Z) : 0 ≤ d < 10 → digit_value (digit_char d) = Some d.
Proof. intros Hd. destruct (digit_cases d Hd) as [->|[->|[->|[->|[->|[->|[->|[->|[->| ->]]]]]]]]]; reflexivity. Qed.

Lemma digit_value_Some_not_sign (c : ascii) :
  is_digit c = true → is_space c = false ∧ c ≠ "+"%char ∧ c ≠ "-"%char ∧ c ≠ ":"%char
                      ∧ c ≠ "_"%char.
Proof.
  destruct c as [[] [] [] [] [] [] [] []]; vm_compute; intros ?; try discriminate;
    split_and!; congruence.
Qed.

Lemma str_app_assoc (a b c : string) : (a +:+ b) +:+ c = a +:+ (b +:+ c).
Proof. induction a as [|x a IH]; [done|]. rewrite !str_app_cons. by rewrite IH. Qed.

Lemma str_app_nil_r (a : string) : a +:+ "" = a.
Proof. induction a as [|x a IH]; [done|]. rewrite str_app_cons. by rewrite IH. Qed.

Lemma all_chars_app (P : ascii → bool) (a b : string) :
  all_chars P (a +:+ b) = all_chars P a && all_chars P b.
Proof.
  induction a as [|x a IH]; [done|]. rewrite str_app_cons. simpl.
  by rewrite IH, andb_assoc.
Qed.

Lemma digits_of_app (fuel : nat) (n : Z) (acc : string) :
  digits_of fuel n acc = digits_of fuel n "" +:+ acc.
Proof.
  revert n acc. induction fuel as [|fuel IH]; intros n acc; [done|].
  cbn [digits_of]. destruct (n <? 10); [done|].
  rewrite IH, (IH _ (String _ "")). by rewrite str_app_assoc.
Qed.

Lemma digits_of_all_digits (fuel : nat) (n : Z) (acc : string) :
  0 ≤ n → all_chars is_digit acc = true → all_chars is_digit (digits_of fuel n acc) = true.
Proof.
  revert n acc. induction fuel as [|fuel IH]; intros n acc Hn Hacc; [done|].
  assert (all_chars is_digit (String (digit_char (n mod 10)) acc) = true) as Hacc'.
  { cbn [all_chars]. rewrite Hacc, andb_true_r. unfold is_digit.
    rewrite digit_value_char by (apply Z.mod_pos_bound; lia).
    by apply bool_decide_eq_true_2. }
  cbn [digits_of]. destruct (n <? 10); [done|]. apply IH; [|done].
  apply Z.div_pos; lia.
Qed.

Lemma digits_of_nonempty (fuel : nat) (n : Z) (acc : string) :
  (1 ≤ fuel)%nat → digits_of fuel n acc ≠ "".
Proof.
  intros Hf. destruct fuel as [|fuel]; [lia|]. cbn [digits_of].
  destruct (n <? 10); [done|]. rewrite digits_of_app.
  intros H. apply (f_equal String.length) in H.
  rewrite str_app_length in H. cbn [String.length] in H. lia.
Qed.

(** Reading the digits that [digits_of] wrote gives the number back. *)
Lemma digits_loop_digits_of (fuel : nat) (n a : Z) (acc : string) :
  0 ≤ n < 2 ^ Z.of_nat fuel → (1 ≤ fuel)%nat →
  ∃ k, 0 ≤ k ∧ digits_loop (digits_of fuel n acc) a false
               = digits_loop acc (a * 10 ^ k + n) false.
Proof.
  revert n acc. induction fuel as [|fuel IH]; intros n acc Hn Hf; [lia|].
  assert (digit_value (digit_char (n mod 10)) = Some (n mod 10)) as Hd
    by (apply digit_value_char, Z.mod_pos_bound; lia).
  cbn [digits_of]. destruct (n <? 10) eqn:Hlt.
  - apply Z.ltb_lt in Hlt. exists 1. split; [lia|]. cbn [digits_loop].
    rewrite Hd. rewrite Z.mod_small by lia. f_equal. lia.
  - apply Z.ltb_ge in Hlt.
    assert (n / 10 < 2 ^ Z.of_nat fuel) as Hdiv.
    { rewrite Nat2Z.inj_succ, Z.pow_succ_r in Hn by lia.
      apply Z.div_lt_upper_bound; lia. }
    assert (1 ≤ fuel)%nat as Hf'.
    { destruct fuel; [|lia]. simpl in Hn. lia. }
    destruct (IH (n / 10) (String (digit_char (n mod 10)) acc)) as (k & Hk & ->);
      [split; [apply Z.div_pos; lia|done]|done|].
    exists (k + 1). split; [lia|]. cbn [digits_loop]. rewrite Hd. f_equal.
    rewrite Z.pow_add_r by lia. pose proof (Z.div_mod n 10). lia.
Qed.

Lemma lstrip_nonspace (c : ascii) (r : string) :
  is_space c = false → lstrip (String c r) = String c r.
Proof. intros Hc. simpl. by rewrite Hc. Qed.

Lemma rstrip_all_nonspace (s : string) :
  all_chars (λ c, negb (is_space c)) s = true → rstrip s = s.
Proof.
  induction s as [|c s IH]; [done|]. simpl all_chars.
  intros [Hc Hs]%andb_true_iff. rewrite rstrip_cons, IH by done.
  apply negb_true_iff in Hc. rewrite Hc. by destruct s.
Qed.

Lemma rstrip_app (a b : string) :
  rstrip b ≠ "" → rstrip (a +:+ b) = a +:+ rstrip b.
Proof.
  intros Hb. induction a as [|c a IH]; [done|].
  rewrite !str_app_cons, rstrip_cons, IH.
  destruct (a +:+ rstrip b) eqn:E; [|done].
  destruct a; [by rewrite str_app_nil_l in E|by rewrite str_app_cons in E].
Qed.

Lemma all_chars_impl (P Q : ascii → bool) (s : string) :
  (∀ c, P c = true → Q c = true) → all_chars P s = true → all_chars Q s = true.
Proof.
  intros HPQ. induction s as [|c s IH]; [done|]. simpl.
  intros [Hc Hs]%andb_true_iff. by rewrite (HPQ c Hc), IH.
Qed.

(** The whitespace of [int()] is whitespace of [str.strip]; the
    separators 28 to 31 are whitespace of [str.strip] only. *)
Lemma int_space_is_space (c : ascii) : is_int_space c = true → is_space c = true.
Proof. destruct c as [[] [] [] [] [] [] [] []]; vm_compute; congruence. Qed.

Lemma int_of_str_separators :
  is_space "028" = true ∧ is_int_space "028" = false
  ∧ int_of_str (String "028" "80") = None
  ∧ int_of_str (String "009" "80 ") = Some 80.
Proof. split_and!; reflexivity. Qed.

Lemma lstrip_by_head (space : ascii → bool) (c : ascii) (r : string) :
  space c = false → lstrip_by space (String c r) = String c r.
Proof. intros Hc. simpl. by rewrite Hc. Qed.

Lemma rstrip_by_none (space : ascii → bool) (s : string) :
  all_chars (λ c, negb (space c)) s = true → rstrip_by space s = s.
Proof.
  induction s as [|c s IH]; [done|]. cbn [all_chars rstrip_by].
  intros [Hc Hs]%andb_true_iff. rewrite IH by done.
  apply negb_true_iff in Hc. rewrite Hc. by destruct s.
Qed.

(** A text that holds no whitespace is what [int()] reads after its
    trimming. *)
Lemma int_trim_plain (s : string) :
  all_chars (λ c, negb (is_space c)) s = true →
  rstrip_by is_int_space (lstrip_by is_int_space s) = s.
Proof.
  intros Hall.
  assert (all_chars (λ c, negb (is_int_space c)) s = true) as Hint.
  { eapply all_chars_impl; [|exact Hall]. intros c Hc.
    apply negb_true_iff in Hc. apply negb_true_iff.
    destruct (is_int_space c) eqn:E; [|done].
    apply int_space_is_space in E. congruence. }
  destruct s as [|c r]; [done|].
  cbn [all_chars] in Hint. pose proof Hint as Hint'.
  apply andb_true_iff in Hint as [Hc Hr].
  rewrite lstrip_by_head by by apply negb_true_iff.
  by apply rstrip_by_none.
Qed.

Lemma int_of_str_unsigned (s : string) (c : ascii) (r : string) :
  rstrip_by is_int_space (lstrip_by is_int_space s) = String c r →
  c ≠ "+"%char → c ≠ "-"%char →
  int_of_str s = parse_digits (String c r).
Proof.
  intros Hs Hp Hm. unfold int_of_str. rewrite Hs.
  destruct c as [[] [] [] [] [] [] [] []]; try reflexivity; congruence.
Qed.

(** The digits of a number that is not negative, written with enough
    fuel, read back as the number. *)
Lemma parse_digits_digits_of (n : Z) :
  0 ≤ n →
  let s := digits_of (S (Z.to_nat (Z.log2 n))) n "" in
  parse_digits s = Some n ∧ all_chars is_digit s = true ∧ s ≠ "".
Proof.
  intros Hn s.
  assert (all_chars is_digit s = true) as Hall by by apply digits_of_all_digits.
  assert (s ≠ "") as Hne by (apply digits_of_nonempty; lia).
  split_and!; [|done|done].
  destruct (digits_loop_digits_of (S (Z.to_nat (Z.log2 n))) n 0 "") as (k & _ & Hk).
  { split; [done|]. destruct (decide (n = 0)) as [->|Hn0]; [done|].
    rewrite Nat2Z.inj_succ, Z2Nat.id by apply Z.log2_nonneg.
    apply Z.log2_spec. lia. }
  { lia. }
  fold s in Hk. simpl in Hk. rewrite Z.mul_0_l, Z.add_0_l in Hk.
  destruct s as [|c r]; [done|]. simpl in Hall.
  apply andb_true_iff in Hall as [Hc _]. unfold is_digit in Hc.
  apply bool_decide_eq_true in Hc as [d Hd].
  simpl in Hk |- *. rewrite Hd in Hk |- *. by rewrite Z.add_0_l in Hk.
Qed.

Lemma digits_plain (s : string) :
  all_chars is_digit s = true → all_chars (λ c, negb (is_space c)) s = true.
Proof.
  apply all_chars_impl. intros c Hc.
  by rewrite (proj1 (digit_value_Some_not_sign c Hc)).
Qed.

(** [int(str(n))] is [n]. *)
Lemma int_of_str_of_int (n : Z) : int_of_str (str_of_int n) = Some n.
Proof.
  unfold str_of_int. destruct (n <? 0) eqn:Hneg.
  - apply Z.ltb_lt in Hneg.
    destruct (parse_digits_digits_of (- n)) as (Hp & Hall & Hne); [lia|].
    set (s := digits_of _ _ _) in *.
    assert (rstrip_by is_int_space (lstrip_by is_int_space (String "-" s))
            = String "-" s) as Hs.
    { apply int_trim_plain. cbn [all_chars]. by rewrite digits_plain. }
    unfold int_of_str. rewrite Hs, Hp. simpl. f_equal. lia.
  - apply Z.ltb_ge in Hneg.
    destruct (parse_digits_digits_of n) as (Hp & Hall & Hne); [lia|].
    set (s := digits_of _ _ _) in *.
    pose proof (int_trim_plain s (digits_plain s Hall)) as Hs.
    destruct s as [|c r] eqn:E; [done|].
    simpl in Hall. apply andb_true_iff in Hall as [Hc _].
    destruct (digit_value_Some_not_sign c Hc) as (_ & Hplus & Hminus & _).
    by rewrite (int_of_str_unsigned _ c r Hs Hplus Hminus).
Qed.
End decimal_facts.

(** ** Endpoints as text *)

Section endpoint_text.
Import PyStr.

Lemma str_of_int_chars (n : Z) :
  all_chars is_sign_or_digit (str_of_int n) = true ∧ str_of_int n ≠ "".
Proof.
  unfold str_of_int. destruct (n <? 0) eqn:Hneg.
  - apply Z.ltb_lt in Hneg. split; [|done]. cbn [all_chars].
    assert (is_sign_or_digit "-" = true) as -> by done. rewrite andb_true_l.
    eapply all_chars_impl; [|apply digits_of_all_digits; [lia|done]].
    intros c Hc. unfold is_sign_or_digit. by rewrite Hc.
  - apply Z.ltb_ge in Hneg. split; [|apply digits_of_nonempty; lia].
    eapply all_chars_impl; [|apply digits_of_all_digits; [lia|done]].
    intros c Hc. unfold is_sign_or_digit. by rewrite Hc.
Qed.

Lemma sign_or_digit_plain (c : ascii) :
  is_sign_or_digit c = true → is_space c = false ∧ c ≠ ":"%char.
Proof.
  destruct c as [[] [] [] [] [] [] [] []]; vm_compute; intros ?; try discriminate;
    split; congruence.
Qed.

Lemma all_chars_no_split (P : ascii → bool) (s a b : string) (c : ascii) :
  all_chars P s = true → P c = false → s ≠ a +:+ String c b.
Proof.
  intros Hall Hc ->. rewrite all_chars_app in Hall. cbn [all_chars] in Hall.
  rewrite Hc in Hall. by rewrite andb_false_r in Hall.
Qed.

(** Two ways to cut one string: the shorter head is a prefix of the longer. *)
Lemma app_eq_split (a a' b b' : string) :
  a +:+ b = a' +:+ b' → (String.length a ≤ String.length a')%nat →
  ∃ m, a' = a +:+ m ∧ b = m +:+ b'.
Proof.
  revert a'. induction a as [|c a IH]; intros a' Heq Hlen.
  - exists a'. by rewrite !str_app_nil_l in *.
  - destruct a' as [|c' a']; [simpl in Hlen; lia|].
    rewrite !str_app_cons in Heq. injection Heq as -> Heq.
    destruct (IH a' Heq) as (m & -> & ->); [simpl in Hlen; lia|].
    exists m. by rewrite str_app_cons.
Qed.

Lemma str_of_int_strip (a : string) (n : Z) :
  rstrip (a +:+ str_of_int n) = a +:+ str_of_int n.
Proof.
  destruct (str_of_int_chars n) as [Hall Hne].
  assert (rstrip (str_of_int n) = str_of_int n) as Hr.
  { apply rstrip_all_nonspace. eapply all_chars_impl; [|exact Hall].
    intros c Hc. by rewrite (proj1 (sign_or_digit_plain c Hc)). }
  rewrite rstrip_app; by rewrite Hr.
Qed.
End endpoint_text.

(** ** The native backend, further *)

Section nft_more.
Context {W : Type} (subprocess_run : command → W → Z * W).
Implicit Types (b : NftablesBackend) (w : W).
Implicit Types (plans : list (string * FirewallSyncPlan)).

(** What [sync] leaves in the backend: for each plan in turn, the
    interface is initialized and its two sets are those of the plan. *)
Lemma sync_state plans b w :
  run_self (nft_sync subprocess_run plans b w) = foldl note_synced b plans.
Proof.
  revert b w. induction plans as [|[i plan] plans IH]; intros b w; [done|].
  unfold nft_sync. cbn [for_each foldl]. unfold mbind, Run_bind.
  destruct (sync_interface_effect subprocess_run i plan b w) as (w1 & log1 & -> & _).
  fold (nft_sync subprocess_run plans).
  match goal with |- context [nft_sync _ _ ?b1 w1] =>
    specialize (IH b1 w1);
    destruct (nft_sync subprocess_run plans b1 w1) as [[[[] b2] w2] log2] end.
  unfold run_self in *. simpl in *. exact IH.
Qed.

Lemma note_synced_initialized plans b :
  initialized (foldl note_synced b plans) = list_to_set plans.*1 ∪ initialized b.
Proof.
  revert b. induction plans as [|[i plan] plans IH]; intros b; [set_solver|].
  cbn [foldl]. rewrite IH. simpl. set_solver.
Qed.

(** Once the interfaces of the plans are initialized, [sync] runs
    element commands only. *)
Lemma sync_log_initialized plans b w :
  NoDup plans.*1 → (∀ j, j ∈ plans.*1 → j ∈ initialized b) →
  run_log (nft_sync subprocess_run plans b w) = expected_element_commands b plans.
Proof.
  revert b w. induction plans as [|[i plan] plans IH]; intros b w Hnd Hinit; [done|].
  rewrite fmap_cons in Hnd. apply NoDup_cons in Hnd as [Hi Hnd].
  unfold nft_sync. cbn [for_each]. unfold mbind, Run_bind.
  destruct (sync_interface_effect subprocess_run i plan b w)
    as (w1 & log1 & -> & _ & Hlog1).
  fold (nft_sync subprocess_run plans).
  rewrite (Hlog1 (Hinit i ltac:(by left))).
  match goal with |- context [nft_sync _ _ ?b1 w1] =>
    specialize (IH b1 w1 Hnd);
    destruct (nft_sync subprocess_run plans b1 w1) as [[[[] b2] w2] log2] end.
  unfold run_log in *. simpl in *. rewrite IH.
  2:{ intros j Hj. apply elem_of_union_r, Hinit. by right. }
  unfold expected_element_commands at 2. simpl.
  rewrite <- !app_assoc. do 2 f_equal.
  apply expected_element_commands_ext. intros j Hj. simpl.
  rewrite !lookup_insert_ne; [done| |]; by intros ->.
Qed.

Lemma diff_commands_all_elements (n : string) (desired current : gset (string * Z)) :
  Forall (λ c, is_element_command c = true) (diff_commands n desired current).
Proof. unfold diff_commands. repeat case_bool_decide; repeat constructor. Qed.

Lemma expected_element_commands_elements b plans :
  Forall (λ c, is_element_command c = true) (expected_element_commands b plans).
Proof.
  unfold expected_element_commands.
  induction plans as [|[i plan] plans IH]; [constructor|].
  cbn [flat_map]. apply Forall_app_2; [|exact IH].
  apply Forall_app_2; apply diff_commands_all_elements.
Qed.
End nft_more.

(** ** The loops of the iteration *)

Section iteration_more.
Implicit Types (store : PeerLimitStore) (tr : SessionTracker) (loc : Locals).
Implicit Types (repo : list (string * string * SessionRecord)).
Implicit Types (peer : PeerInfo) (info : InterfaceInfo).

Lemma active_sessions_congr i p st now tr tr' :
  tr !! (i, p) = tr' !! (i, p) →
  (active_sessions i p st now tr).1 = (active_sessions i p st now tr').1.
Proof.
  intros Heq. unfold active_sessions, mbind, State_bind, gets, mret, State_ret.
  simpl. by rewrite Heq.
Qed.

Lemma allowed_sessions_congr i p st now tr tr' :
  tr !! (i, p) = tr' !! (i, p) →
  (allowed_sessions i p st now tr).1 = (allowed_sessions i p st now tr').1.
Proof.
  intros Heq. unfold allowed_sessions, mbind, State_bind, mret, State_ret.
  rewrite (surjective_pairing (active_sessions i p st now tr)),
    (surjective_pairing (active_sessions i p st now tr')), !active_sessions_state.
  rewrite (active_sessions_congr i p st now tr tr' Heq).
  destruct (max_concurrent st) as [[|M|M]|]; try done;
    destruct (append_unique _ _) as [allowed seen];
    by destruct (_ <=? 0).
Qed.

Lemma peer_records_congr store now tr tr' i peer :
  tr !! (i, public_key peer) = tr' !! (i, public_key peer) →
  peer_active store now tr i peer = peer_active store now tr' i peer
  ∧ peer_records store now tr i peer = peer_records store now tr' i peer
  ∧ peer_over_limit store now tr i peer = peer_over_limit store now tr' i peer.
Proof.
  intros Heq. unfold peer_over_limit, peer_records, peer_allowed, peer_active.
  rewrite (active_sessions_congr _ _ _ _ tr tr' Heq),
    (allowed_sessions_congr _ _ _ _ tr tr' Heq). done.
Qed.

(** The body of the loop over the peers, for a peer whose settings can be
    read. *)
Lemma iteration_peer_ok store now i peer loc :
  readable store i peer = true →
  let tr := (observe i (public_key peer) (Some (peer_endpoint peer))
               (Some (latest_handshake peer)) (peer_rx_bytes peer)
               (peer_tx_bytes peer) (peer_settings store i peer) now (loc_tracker loc)).2 in
  iteration_peer store now i peer loc
  = ({| loc_tracker := tr;
        loc_state_repo :=
          upsert_sessions i (public_key peer) (peer_records store now tr i peer)
            (loc_state_repo loc);
        loc_plan :=
          (foldl (record_session ∅) (loc_plan loc, []) (peer_active store now tr i peer)).1;
        loc_over_limit_count :=
          if peer_over_limit store now tr i peer
          then loc_over_limit_count loc + 1 else loc_over_limit_count loc |}, None).
Proof.
  unfold readable, peer_over_limit, peer_records, peer_allowed, peer_active,
    peer_settings, iteration_peer.
  destruct (get_peer_settings store i (public_key peer)) as [st|e]; [|done].
  intros _.
  rewrite (surjective_pairing (observe _ _ _ _ _ _ _ _ _)).
  set (tr := (observe _ _ _ _ _ _ _ _ _).2).
  rewrite (surjective_pairing (active_sessions _ _ _ _ tr)), active_sessions_state.
  rewrite (surjective_pairing (allowed_sessions _ _ _ _ tr)), allowed_sessions_state.
  rewrite record_sessions_effect. cbn [app].
  f_equal. f_equal. by destruct (max_concurrent st) as [[|M|M]|].
Qed.

Lemma iteration_peer_raises store now i peer loc :
  readable store i peer = false →
  ∃ e, iteration_peer store now i peer loc = (loc, Some e).
Proof.
  unfold readable, iteration_peer.
  destruct (get_peer_settings store i (public_key peer)) as [st|e]; [done|].
  intros _. by exists e.
Qed.

(** With readable settings the loop over the peers is a fold. *)
Lemma iteration_peers_fold store now i (ps : list PeerInfo) loc :
  forallb (readable store i) ps = true →
  iteration_peers store now i ps loc
  = (foldl (λ loc peer, (iteration_peer store now i peer loc).1) loc ps, None).
Proof.
  revert loc. induction ps as [|peer ps IH]; intros loc Hok; [done|].
  cbn [forallb] in Hok. apply andb_true_iff in Hok as [Hp Hok].
  cbn [iteration_peers foldl]. rewrite (iteration_peer_ok store now i peer loc Hp).
  cbv zeta. cbn [fst]. by apply IH.
Qed.

Lemma iteration_peers_raises store now i (ps : list PeerInfo) loc :
  forallb (readable store i) ps = false →
  ∃ e, (iteration_peers store now i ps loc).2 = Some e.
Proof.
  revert loc. induction ps as [|peer ps IH]; intros loc Hok; [done|].
  cbn [forallb] in Hok. cbn [iteration_peers].
  destruct (readable store i peer) eqn:Hp.
  - rewrite (iteration_peer_ok store now i peer loc Hp). cbv zeta. by apply IH.
  - destruct (iteration_peer_raises store now i peer loc Hp) as [e ->]. by exists e.
Qed.

(** *** The repository *)

Lemma upsert_rows_same repo i p (rs : list SessionRecord) :
  repo_rows (upsert_sessions i p rs repo) i p = rs.
Proof.
  unfold repo_rows, upsert_sessions. rewrite filter_app, fmap_app.
  rewrite (filter_none _ (filter _ repo)).
  2:{ intros row [Hrow _]%list_elem_of_filter. exact Hrow. }
  cbn [fmap list_fmap app]. induction rs as [|r rs IH]; [done|].
  rewrite fmap_cons, filter_cons_True by done. rewrite fmap_cons. by rewrite IH.
Qed.

Lemma upsert_rows_other repo i p (rs : list SessionRecord) i' p' :
  (i', p') ≠ (i, p) →
  repo_rows (upsert_sessions i p rs repo) i' p' = repo_rows repo i' p'.
Proof.
  intros Hne. unfold repo_rows, upsert_sessions. rewrite filter_app, fmap_app.
  rewrite (filter_none _ ((λ r, (i, p, r)) <$> rs)).
  2:{ intros row (r & -> & _)%list_elem_of_fmap. simpl.
      intros [-> ->]. done. }
  rewrite app_nil_r. f_equal. rewrite list_filter_filter.
  apply list_filter_iff. intros row. split; [by intros [? _]|].
  intros [Hi Hp]. split; [done|]. intros [Hi' Hp']. apply Hne. congruence.
Qed.
End iteration_more.

Section iteration_peers_facts.
Implicit Types (store : PeerLimitStore) (tr : SessionTracker) (loc : Locals).
Implicit Types (repo : list (string * string * SessionRecord)).
Implicit Types (peer : PeerInfo) (info : InterfaceInfo) (ps : list PeerInfo).

(** The plan after the loop over the active sessions: the port stays, and
    each set gains the endpoints that parse of its family. *)
Lemma record_sessions_plan_elem (active : list PeerSession) (plan : FirewallSyncPlan)
    (x : string * Z) :
  let plan' := (foldl (record_session ∅) (plan, []) active).1 in
  port plan' = port plan
  ∧ (x ∈ ipv4 plan' ↔
     x ∈ ipv4 plan
     ∨ ∃ s, s ∈ active ∧ split_endpoint (endpoint s) = Some x
            ∧ PyStr.contains ":" x.1 = false)
  ∧ (x ∈ ipv6 plan' ↔
     x ∈ ipv6 plan
     ∨ ∃ s, s ∈ active ∧ split_endpoint (endpoint s) = Some x
            ∧ PyStr.contains ":" x.1 = true).
Proof.
  cbv zeta. revert plan. induction active as [|s active IH]; intros plan.
  { cbn [foldl fst]. split_and!; [done| |];
      (split; [by left|]); by intros [?|(s & ?%elem_of_nil & _)]. }
  cbn [foldl]. rewrite record_session_eq.
  rewrite (record_sessions_plan_any ∅ ∅ active _ _ []).
  destruct (IH (record_session ∅ (plan, []) s).1) as (-> & -> & ->). clear IH.
  unfold record_session. cbn [fst].
  destruct (split_endpoint (endpoint s)) as [[ip port']|] eqn:E.
  - destruct (PyStr.contains ":" ip) eqn:Hc; cbn [port ipv4 ipv6];
      (split_and!; [done| |]);
      rewrite ?elem_of_union, ?elem_of_singleton; setoid_rewrite elem_of_cons;
      (split; [try naive_solver|]);
      try (intros [?|(s0 & [->|?] & Hs & Hx)];
           [by auto
           |rewrite E in Hs; injection Hs as <-; simpl in Hx; first [congruence|by auto]
           |right; try right; by exists s0]);
      try (intros [?|(s0 & [->|?] & Hs & Hx)];
           [by auto
           |rewrite E in Hs; injection Hs as <-; simpl in Hx; first [congruence|by auto]
           |by eauto 10]).
  - split_and!; [done| |]; setoid_rewrite elem_of_cons; split; naive_solver.
Qed.

Lemma iteration_peers_cons store now i peer ps loc :
  readable store i peer = true →
  iteration_peers store now i (peer :: ps) loc
  = iteration_peers store now i ps (iteration_peer store now i peer loc).1.
Proof.
  intros Hp. cbn [iteration_peers].
  by rewrite (iteration_peer_ok store now i peer loc Hp).
Qed.

(** The loop over the peers of an interface leaves alone what the
    tracker and the repository hold under the other keys. *)
Lemma iteration_peers_frame store now i ps loc (key : string * string) :
  key ∉ (λ peer, (i, public_key peer)) <$> ps →
  let loc' := (iteration_peers store now i ps loc).1 in
  loc_tracker loc' !! key = loc_tracker loc !! key
  ∧ repo_rows (loc_state_repo loc') key.1 key.2 = repo_rows (loc_state_repo loc) key.1 key.2.
Proof.
  cbv zeta. revert loc. induction ps as [|peer ps IH]; intros loc Hkey; [done|].
  rewrite fmap_cons, not_elem_of_cons in Hkey. destruct Hkey as [Hne Hkey].
  destruct (readable store i peer) eqn:Hp.
  - rewrite (iteration_peers_cons store now i peer ps loc Hp).
    destruct (IH (iteration_peer store now i peer loc).1 Hkey) as [-> ->].
    rewrite (iteration_peer_ok store now i peer loc Hp). cbv zeta.
    cbn [fst loc_tracker loc_state_repo]. split.
    + by apply observe_other.
    + apply upsert_rows_other. by destruct key.
  - destruct (iteration_peer_raises store now i peer loc Hp) as [e He].
    cbn [iteration_peers]. by rewrite He.
Qed.

(** After the loop over the peers of an interface, the tracker holds
    for a peer of the loop what it held right after the peer's turn. *)
Lemma iteration_peers_final_key store now i peer ps loc :
  forallb (readable store i) (peer :: ps) = true →
  NoDup (public_key <$> peer :: ps) →
  let loc1 := (iteration_peer store now i peer loc).1 in
  let loc' := (iteration_peers store now i (peer :: ps) loc).1 in
  loc_tracker loc' !! (i, public_key peer) = loc_tracker loc1 !! (i, public_key peer)
  ∧ repo_rows (loc_state_repo loc') i (public_key peer)
    = peer_records store now (loc_tracker loc1) i peer
  ∧ loc_plan loc1
    = (foldl (record_session ∅) (loc_plan loc, [])
         (peer_active store now (loc_tracker loc1) i peer)).1
  ∧ loc_over_limit_count loc1
    = loc_over_limit_count loc
      + (if peer_over_limit store now (loc_tracker loc1) i peer then 1 else 0).
Proof.
  cbv zeta. intros Hok Hnd. pose proof Hok as Hok'.
  cbn [forallb] in Hok. apply andb_true_iff in Hok as [Hp Hok].
  rewrite fmap_cons in Hnd. apply NoDup_cons in Hnd as [Hpk Hnd].
  rewrite (iteration_peers_cons store now i peer ps loc Hp).
  destruct (iteration_peers_frame store now i ps (iteration_peer store now i peer loc).1
              (i, public_key peer)) as [-> Hrows].
  { intros (peer' & [= Heq] & Hin)%list_elem_of_fmap. apply Hpk.
    rewrite Heq. apply list_elem_of_fmap. by exists peer'. }
  cbn [fst snd] in Hrows. rewrite Hrows.
  rewrite (iteration_peer_ok store now i peer loc Hp). cbv zeta.
  cbn [fst loc_tracker loc_state_repo loc_plan loc_over_limit_count].
  split_and!; [done|apply upsert_rows_same|done|].
  destruct (peer_over_limit _ _ _ _ _); lia.
Qed.

(** After the loop over the peers of an interface, the repository holds
    for each of them the records of the peer's active sessions, as the
    tracker has them at the end. *)
Lemma iteration_peers_rows store now i ps loc peer :
  forallb (readable store i) ps = true →
  NoDup (public_key <$> ps) → peer ∈ ps →
  let loc' := (iteration_peers store now i ps loc).1 in
  repo_rows (loc_state_repo loc') i (public_key peer)
  = peer_records store now (loc_tracker loc') i peer.
Proof.
  cbv zeta. revert loc. induction ps as [|peer0 ps IH]; intros loc Hok Hnd Hin.
  { by apply elem_of_nil in Hin. }
  apply elem_of_cons in Hin as [->|Hin].
  - destruct (iteration_peers_final_key store now i peer0 ps loc Hok Hnd)
      as (Htr & -> & _).
    symmetry. by apply peer_records_congr.
  - cbn [forallb] in Hok. apply andb_true_iff in Hok as [Hp Hok].
    rewrite fmap_cons in Hnd. apply NoDup_cons in Hnd as [_ Hnd].
    rewrite (iteration_peers_cons store now i peer0 ps loc Hp). by apply IH.
Qed.

(** The plan after the loop over the peers of an interface. *)
Lemma iteration_peers_plan store now i ps loc (x : string * Z) :
  forallb (readable store i) ps = true →
  NoDup (public_key <$> ps) →
  let loc' := (iteration_peers store now i ps loc).1 in
  port (loc_plan loc') = port (loc_plan loc)
  ∧ (x ∈ ipv4 (loc_plan loc') ↔
     x ∈ ipv4 (loc_plan loc)
     ∨ ∃ peer s, peer ∈ ps ∧ s ∈ peer_active store now (loc_tracker loc') i peer
                 ∧ split_endpoint (endpoint s) = Some x
                 ∧ PyStr.contains ":" x.1 = false)
  ∧ (x ∈ ipv6 (loc_plan loc') ↔
     x ∈ ipv6 (loc_plan loc)
     ∨ ∃ peer s, peer ∈ ps ∧ s ∈ peer_active store now (loc_tracker loc') i peer
                 ∧ split_endpoint (endpoint s) = Some x
                 ∧ PyStr.contains ":" x.1 = true).
Proof.
  cbv zeta. revert loc. induction ps as [|peer0 ps IH]; intros loc Hok Hnd.
  { cbn [iteration_peers fst]. split_and!; [done| |];
      (split; [by left|]); by intros [?|(peer & s & ?%elem_of_nil & _)]. }
  destruct (iteration_peers_final_key store now i peer0 ps loc Hok Hnd)
    as (Htr & _ & Hplan & _).
  destruct (peer_records_congr store now _ _ i peer0 Htr) as (Hactive & _ & _).
  cbn [forallb] in Hok. apply andb_true_iff in Hok as [Hp Hok].
  rewrite fmap_cons in Hnd. apply NoDup_cons in Hnd as [_ Hnd].
  rewrite (iteration_peers_cons store now i peer0 ps loc Hp) in Hactive |- *.
  destruct (IH (iteration_peer store now i peer0 loc).1 Hok Hnd) as (-> & -> & ->).
  rewrite Hplan.
  destruct (record_sessions_plan_elem
              (peer_active store now (loc_tracker (iteration_peer store now i peer0 loc).1)
                 i peer0) (loc_plan loc) x) as (-> & -> & ->).
  rewrite <- Hactive.
  split_and!; [done| |]; split.
  all: try (intros [[H|(s & Hs & Hrest)]|(peer & s & Hin & Hrest)];
            [by left
            |right; exists peer0, s; split; [by left|done]
            |right; exists peer, s; split; [by right|done]]).
  all: intros [H|(peer & s & [->|Hin]%elem_of_cons & Hrest)];
         [left; by left
         |left; right; by exists s
         |right; by exists peer, s].
Qed.

(** The count of the peers over their limit after the loop over the
    peers of an interface. *)
Lemma iteration_peers_count store now i ps loc :
  forallb (readable store i) ps = true →
  NoDup (public_key <$> ps) →
  let loc' := (iteration_peers store now i ps loc).1 in
  loc_over_limit_count loc'
  = loc_over_limit_count loc
    + Z.of_nat (length (filter (λ peer, peer_over_limit store now (loc_tracker loc') i peer
                                        = true) ps)).
Proof.
  cbv zeta. revert loc. induction ps as [|peer0 ps IH]; intros loc Hok Hnd.
  { cbn [iteration_peers fst]. rewrite filter_nil. cbn [length]. lia. }
  destruct (iteration_peers_final_key store now i peer0 ps loc Hok Hnd)
    as (Htr & _ & _ & Hcount).
  destruct (peer_records_congr store now _ _ i peer0 Htr) as (_ & _ & Hover).
  cbn [forallb] in Hok. apply andb_true_iff in Hok as [Hp Hok].
  rewrite fmap_cons in Hnd. apply NoDup_cons in Hnd as [_ Hnd].
  rewrite (iteration_peers_cons store now i peer0 ps loc Hp) in Hover |- *.
  rewrite (IH (iteration_peer store now i peer0 loc).1 Hok Hnd), Hcount.
  destruct (peer_over_limit store now (loc_tracker (iteration_peer store now i peer0 loc).1)
              i peer0) eqn:E.
  - rewrite filter_cons_True by exact Hover. cbn [length]. lia.
  - rewrite filter_cons_False by (rewrite Hover; done). lia.
Qed.
End iteration_peers_facts.

Section iteration_interfaces_facts.
Implicit Types (store : PeerLimitStore) (tr : SessionTracker) (loc : Locals).
Implicit Types (repo : list (string * string * SessionRecord)).
Implicit Types (peer : PeerInfo) (info : InterfaceInfo) (ps : list PeerInfo).
Implicit Types (dump : list (string * InterfaceInfo)).
Implicit Types (plans : list (string * FirewallSyncPlan)).

Lemma iteration_interfaces_cons store now i info dump tr repo count plans :
  forallb (readable store i) (peers info) = true →
  let loc := (iteration_peers store now i (peers info)
                (interface_start tr repo count info)).1 in
  iteration_interfaces store now ((i, info) :: dump) tr repo count plans
  = iteration_interfaces store now dump (loc_tracker loc) (loc_state_repo loc)
      (loc_over_limit_count loc) (Dict.set i (loc_plan loc) plans).
Proof.
  intros Hok. cbv zeta. cbn [iteration_interfaces].
  fold (interface_start tr repo count info).
  by rewrite (iteration_peers_fold store now i (peers info) _ Hok).
Qed.

Lemma iteration_interfaces_ok store now dump tr repo count plans :
  settings_ok store dump = true →
  (iteration_interfaces store now dump tr repo count plans).2 = None.
Proof.
  revert tr repo count plans.
  induction dump as [|[i info] dump IH]; intros tr repo count plans Hok; [done|].
  unfold settings_ok in Hok. cbn [forallb fst snd] in Hok.
  apply andb_true_iff in Hok as [Hi Hok].
  rewrite (iteration_interfaces_cons store now i info dump tr repo count plans Hi).
  by apply IH.
Qed.

Lemma iteration_interfaces_raises store now dump tr repo count plans :
  settings_ok store dump = false →
  ∃ e, (iteration_interfaces store now dump tr repo count plans).2 = Some e.
Proof.
  revert tr repo count plans.
  induction dump as [|[i info] dump IH]; intros tr repo count plans Hok; [done|].
  unfold settings_ok in Hok. cbn [forallb fst snd] in Hok.
  destruct (forallb (readable store i) (peers info)) eqn:Hi.
  - rewrite (iteration_interfaces_cons store now i info dump tr repo count plans Hi).
    by apply IH.
  - cbn [iteration_interfaces]. fold (interface_start tr repo count info).
    destruct (iteration_peers_raises store now i (peers info)
                (interface_start tr repo count info) Hi) as [e He].
    destruct (iteration_peers _ _ _ _ _) as [loc raised]. simpl in He. subst raised.
    by exists e.
Qed.

Lemma dump_keys_cons i info dump :
  dump_keys ((i, info) :: dump)
  = ((λ peer, (i, public_key peer)) <$> peers info) ++ dump_keys dump.
Proof.
  unfold dump_keys, dump_peers. cbn [flat_map fst snd].
  rewrite fmap_app, <- list_fmap_compose. done.
Qed.

(** The loops leave alone what the tracker and the repository hold
    for the peers that are not in the dump. *)
Lemma iteration_interfaces_frame store now dump tr repo count plans
    (key : string * string) :
  key ∉ dump_keys dump →
  let r := iteration_interfaces store now dump tr repo count plans in
  r.1.1.1.1 !! key = tr !! key
  ∧ repo_rows r.1.1.1.2 key.1 key.2 = repo_rows repo key.1 key.2.
Proof.
  cbv zeta. revert tr repo count plans.
  induction dump as [|[i info] dump IH]; intros tr repo count plans Hkey; [done|].
  rewrite dump_keys_cons, not_elem_of_app in Hkey. destruct Hkey as [Hkey1 Hkey2].
  pose proof (iteration_peers_frame store now i (peers info)
                (interface_start tr repo count info) key Hkey1) as Hframe.
  cbv zeta in Hframe. cbn [iteration_interfaces].
  fold (interface_start tr repo count info).
  destruct (iteration_peers store now i (peers info) (interface_start tr repo count info))
    as [loc [e|]]; cbn [fst] in Hframe; [exact Hframe|].
  match goal with |- context [iteration_interfaces store now dump ?a ?b ?c ?d] =>
    destruct (IH a b c d Hkey2) as [-> ->] end.
  exact Hframe.
Qed.

Lemma distinct_peers_cons i info dump :
  distinct_peers ((i, info) :: dump) →
  (i ∉ dump.*1) ∧ NoDup (public_key <$> peers info) ∧ distinct_peers dump.
Proof.
  intros [Hnd Hall]. rewrite fmap_cons in Hnd. apply NoDup_cons in Hnd as [Hi Hnd].
  apply Forall_cons in Hall as [Hps Hall]. done.
Qed.

Lemma dump_keys_interface dump (key : string * string) :
  key ∈ dump_keys dump → key.1 ∈ dump.*1.
Proof.
  unfold dump_keys, dump_peers. intros ([i peer] & -> & Hin)%list_elem_of_fmap.
  apply list_elem_of_In, in_flat_map in Hin as ([i' info] & Hitem & Hin).
  apply list_elem_of_In in Hin, Hitem.
  apply list_elem_of_fmap in Hin as (peer' & [= -> ->] & _). simpl.
  apply list_elem_of_fmap. by exists (i', info).
Qed.

(** After the loops, the tracker holds for a peer of the first interface
    what it held at the end of the loop over the peers of that
    interface. *)
Lemma iteration_interfaces_first store now i info dump tr repo count plans peer :
  settings_ok store ((i, info) :: dump) = true →
  distinct_peers ((i, info) :: dump) →
  let loc := (iteration_peers store now i (peers info)
                (interface_start tr repo count info)).1 in
  let r := iteration_interfaces store now ((i, info) :: dump) tr repo count plans in
  r.1.1.1.1 !! (i, public_key peer) = loc_tracker loc !! (i, public_key peer)
  ∧ repo_rows r.1.1.1.2 i (public_key peer) = repo_rows (loc_state_repo loc) i (public_key peer).
Proof.
  cbv zeta. intros Hok (Hi & _ & _)%distinct_peers_cons.
  unfold settings_ok in Hok. cbn [forallb fst snd] in Hok.
  apply andb_true_iff in Hok as [Hps Hok].
  rewrite (iteration_interfaces_cons store now i info dump tr repo count plans Hps).
  cbv zeta.
  apply (iteration_interfaces_frame store now dump _ _ _ _ (i, public_key peer)).
  intros Hin%dump_keys_interface. done.
Qed.

(** After the loops, the repository holds for each peer of the dump the
    records of the peer's active sessions, as the tracker has them at the
    end. *)
Lemma iteration_interfaces_rows store now dump tr repo count plans i peer :
  settings_ok store dump = true → distinct_peers dump →
  (i, peer) ∈ dump_peers dump →
  let r := iteration_interfaces store now dump tr repo count plans in
  repo_rows r.1.1.1.2 i (public_key peer) = peer_records store now r.1.1.1.1 i peer.
Proof.
  cbv zeta. revert tr repo count plans.
  induction dump as [|[i0 info] dump IH]; intros tr repo count plans Hok Hd Hin.
  { by apply elem_of_nil in Hin. }
  unfold dump_peers in Hin. cbn [flat_map fst snd] in Hin.
  apply elem_of_app in Hin as [Hin|Hin].
  - apply list_elem_of_fmap in Hin as (peer' & [= -> ->] & Hin).
    destruct (iteration_interfaces_first store now i0 info dump tr repo count plans peer'
                Hok Hd) as [Htr ->].
    destruct (distinct_peers_cons _ _ _ Hd) as (_ & Hnd & _).
    unfold settings_ok in Hok. cbn [forallb fst snd] in Hok.
    apply andb_true_iff in Hok as [Hps Hok].
    rewrite (iteration_peers_rows store now i0 (peers info) _ peer' Hps Hnd Hin).
    symmetry. by apply peer_records_congr.
  - destruct (distinct_peers_cons _ _ _ Hd) as (_ & _ & Hd').
    unfold settings_ok in Hok. cbn [forallb fst snd] in Hok.
    apply andb_true_iff in Hok as [Hps Hok].
    rewrite (iteration_interfaces_cons store now i0 info dump tr repo count plans Hps).
    cbv zeta. by apply IH.
Qed.
End iteration_interfaces_facts.

Section iteration_plans_facts.
Implicit Types (store : PeerLimitStore) (tr : SessionTracker) (loc : Locals).
Implicit Types (repo : list (string * string * SessionRecord)).
Implicit Types (peer : PeerInfo) (info : InterfaceInfo) (ps : list PeerInfo).
Implicit Types (dump : list (string * InterfaceInfo)).
Implicit Types (plans : list (string * FirewallSyncPlan)).

Lemma dict_set_new {V} (d : list (string * V)) (k : string) (v : V) :
  k ∉ Dict.keys d → Dict.set k v d = d ++ [(k, v)].
Proof.
  unfold Dict.keys. induction d as [|[k0 v0] d IH]; [done|].
  rewrite fmap_cons, not_elem_of_cons. intros [Hne Hk]. cbn [Dict.set fst].
  rewrite bool_decide_eq_false_2 by done. by rewrite IH.
Qed.

Lemma elem_of_endpoints_of (family6 : bool) (sessions : list PeerSession)
    (x : string * Z) :
  x ∈ endpoints_of family6 sessions ↔
  ∃ s, s ∈ sessions ∧ split_endpoint (endpoint s) = Some x
       ∧ PyStr.contains ":" x.1 = family6.
Proof.
  unfold endpoints_of. rewrite elem_of_list_to_set, list_elem_of_omap.
  split; intros (s & Hs & Hx); exists s; (split; [done|]).
  - destruct (split_endpoint (endpoint s)) as [y|]; [|done].
    case_bool_decide; [|done]. by simplify_eq.
  - destruct Hx as [-> Hc]. by rewrite bool_decide_eq_true_2.
Qed.

Lemma plan_eq (p q : FirewallSyncPlan) :
  port p = port q → (∀ x, x ∈ ipv4 p ↔ x ∈ ipv4 q) → (∀ x, x ∈ ipv6 p ↔ x ∈ ipv6 q) →
  p = q.
Proof.
  destruct p, q. simpl. intros -> H4 H6. f_equal; by apply set_eq.
Qed.

(** The plan at the end of the loop over the peers of an interface is
    made of the endpoints of the active sessions of these peers. *)
Lemma iteration_peers_interface_plan store now i info tr repo count :
  forallb (readable store i) (peers info) = true →
  NoDup (public_key <$> peers info) →
  let loc := (iteration_peers store now i (peers info)
                (interface_start tr repo count info)).1 in
  loc_plan loc = interface_plan store now (loc_tracker loc) (i, info).
Proof.
  intros Hok Hnd loc.
  pose proof (λ x, iteration_peers_plan store now i (peers info)
                     (interface_start tr repo count info) x Hok Hnd) as Hplan.
  cbv zeta in Hplan. fold loc in Hplan.
  assert (∀ (f : bool) (x : string * Z),
            (x ∈ (∅ : gset (string * Z))
             ∨ ∃ peer s, peer ∈ peers info
                         ∧ s ∈ peer_active store now (loc_tracker loc) i peer
                         ∧ split_endpoint (endpoint s) = Some x
                         ∧ PyStr.contains ":" x.1 = f)
            ↔ x ∈ endpoints_of f
                    (flat_map (peer_active store now (loc_tracker loc) i) (peers info)))
    as Hsets.
  { intros f x. rewrite elem_of_endpoints_of. split.
    - intros [?%elem_of_empty|(peer & s & Hin & Hs & Hx)]; [done|].
      exists s. split; [|done]. apply list_elem_of_In, in_flat_map.
      exists peer. split; by apply list_elem_of_In.
    - intros (s & Hs & Hx). right.
      apply list_elem_of_In, in_flat_map in Hs as (peer & Hin & Hs).
      exists peer, s. split; [by apply list_elem_of_In|].
      split; [by apply list_elem_of_In|done]. }
  apply plan_eq.
  - by destruct (Hplan ("", 0)) as (-> & _).
  - intros x. destruct (Hplan x) as (_ & -> & _). apply Hsets.
  - intros x. destruct (Hplan x) as (_ & _ & ->). apply Hsets.
Qed.

Lemma interface_plan_congr store now tr tr' i info :
  (∀ peer, peer ∈ peers info → tr !! (i, public_key peer) = tr' !! (i, public_key peer)) →
  interface_plan store now tr (i, info) = interface_plan store now tr' (i, info).
Proof.
  intros Heq. unfold interface_plan. cbn [fst snd].
  assert (flat_map (peer_active store now tr i) (peers info)
          = flat_map (peer_active store now tr' i) (peers info)) as ->; [|done].
  induction (peers info) as [|peer ps IH]; [done|]. cbn [flat_map].
  rewrite IH by (intros; apply Heq; by right).
  by destruct (peer_records_congr store now tr tr' i peer (Heq peer ltac:(by left)))
    as (-> & _).
Qed.

(** The plans after the loops: those before, then one for each
    interface of the dump. *)
Lemma iteration_interfaces_plans store now dump tr repo count plans :
  settings_ok store dump = true → distinct_peers dump →
  (∀ i, i ∈ dump.*1 → i ∉ plans.*1) →
  let r := iteration_interfaces store now dump tr repo count plans in
  r.1.2 = plans ++ ((λ item, (item.1, interface_plan store now r.1.1.1.1 item)) <$> dump).
Proof.
  cbv zeta. revert tr repo count plans.
  induction dump as [|[i info] dump IH]; intros tr repo count plans Hok Hd Hnew.
  { cbn [iteration_interfaces fmap list_fmap fst snd]. by rewrite app_nil_r. }
  pose proof (iteration_interfaces_first store now i info dump tr repo count plans) as Hfirst.
  specialize (λ peer, Hfirst peer Hok Hd). cbv zeta in Hfirst.
  destruct (distinct_peers_cons _ _ _ Hd) as (Hi & Hnd & Hd').
  unfold settings_ok in Hok. cbn [forallb fst snd] in Hok.
  apply andb_true_iff in Hok as [Hps Hok].
  rewrite (iteration_interfaces_cons store now i info dump tr repo count plans Hps) in *.
  cbv zeta in *.
  set (loc := (iteration_peers store now i (peers info)
                 (interface_start tr repo count info)).1) in *.
  set (trf := (iteration_interfaces store now dump (loc_tracker loc) (loc_state_repo loc)
                 (loc_over_limit_count loc) (Dict.set i (loc_plan loc) plans)).1.1.1.1) in *.
  assert (loc_plan loc = interface_plan store now trf (i, info)) as Hplan.
  { unfold loc.
    rewrite (iteration_peers_interface_plan store now i info tr repo count Hps Hnd).
    fold loc. symmetry. apply interface_plan_congr. intros peer _. apply Hfirst. }
  rewrite IH; [|done|done|].
  2:{ intros j Hj. rewrite dict_set_new by (apply Hnew; by left).
      rewrite fmap_app, not_elem_of_app. split; [apply Hnew; by right|].
      cbn [fmap list_fmap fst]. rewrite list_elem_of_singleton. by intros ->. }
  fold trf. rewrite dict_set_new by (apply Hnew; by left).
  rewrite <- app_assoc. f_equal. rewrite fmap_cons. cbn [app fst]. by rewrite Hplan.
Qed.

Lemma filter_fmap_length {A B} (f : A → B) (P : B → Prop) `{!∀ y, Decision (P y)}
    (l : list A) :
  length (filter P (f <$> l)) = length (filter (λ x, P (f x)) l).
Proof.
  induction l as [|x l IH]; [done|]. rewrite fmap_cons, !filter_cons.
  destruct (decide (P (f x))); cbn [length]; by rewrite IH.
Qed.

(** The count of the peers over their limit after the loops. *)
Lemma iteration_interfaces_count store now dump tr repo count plans :
  settings_ok store dump = true → distinct_peers dump →
  let r := iteration_interfaces store now dump tr repo count plans in
  r.1.1.2
  = count + Z.of_nat (length (filter (λ ip : string * PeerInfo,
                                        peer_over_limit store now r.1.1.1.1 ip.1 ip.2 = true)
                                (dump_peers dump))).
Proof.
  cbv zeta. revert tr repo count plans.
  induction dump as [|[i info] dump IH]; intros tr repo count plans Hok Hd.
  { cbn [iteration_interfaces dump_peers flat_map fst snd]. rewrite filter_nil.
    cbn [length]. lia. }
  pose proof (iteration_interfaces_first store now i info dump tr repo count plans) as Hfirst.
  specialize (λ peer, Hfirst peer Hok Hd). cbv zeta in Hfirst.
  destruct (distinct_peers_cons _ _ _ Hd) as (Hi & Hnd & Hd').
  unfold settings_ok in Hok. cbn [forallb fst snd] in Hok.
  apply andb_true_iff in Hok as [Hps Hok].
  rewrite (iteration_interfaces_cons store now i info dump tr repo count plans Hps) in *.
  cbv zeta in *.
  set (loc := (iteration_peers store now i (peers info)
                 (interface_start tr repo count info)).1) in *.
  rewrite IH by done.
  unfold dump_peers at 2. cbn [flat_map fst snd]. fold (dump_peers dump).
  rewrite filter_app, length_app, filter_fmap_length. cbn [fst snd].
  unfold loc at 1.
  rewrite (iteration_peers_count store now i (peers info) _ Hps Hnd). fold loc.
  cbn [interface_start loc_over_limit_count].
  rewrite (filter_ext_elem_of
             (λ peer, peer_over_limit store now (loc_tracker loc) i peer = true)
             (λ peer, peer_over_limit store now
                        (iteration_interfaces store now dump (loc_tracker loc)
                           (loc_state_repo loc) (loc_over_limit_count loc)
                           (Dict.set i (loc_plan loc) plans)).1.1.1.1 i peer = true)).
  - lia.
  - intros peer _.
    destruct (peer_records_congr store now _ _ i peer (proj1 (Hfirst peer)))
      as (_ & _ & ->). done.
Qed.
End iteration_plans_facts.

Section iteration_top_facts.
Implicit Types (store : PeerLimitStore) (tr : SessionTracker) (loc : Locals).
Implicit Types (repo : list (string * string * SessionRecord)).
Implicit Types (peer : PeerInfo) (info : InterfaceInfo) (ps : list PeerInfo).
Implicit Types (dump : list (string * InterfaceInfo)).
Implicit Types (plans : list (string * FirewallSyncPlan)).

(** The loops keep the tracker well formed. *)
Lemma wf_iteration_peers store now i ps loc :
  wf_tracker (loc_tracker loc) →
  wf_tracker (loc_tracker (iteration_peers store now i ps loc).1).
Proof.
  revert loc. induction ps as [|peer ps IH]; intros loc Hwf; [done|].
  destruct (readable store i peer) eqn:Hp.
  - rewrite (iteration_peers_cons store now i peer ps loc Hp). apply IH.
    rewrite (iteration_peer_ok store now i peer loc Hp). cbv zeta.
    cbn [fst loc_tracker]. by apply wf_observe.
  - destruct (iteration_peer_raises store now i peer loc Hp) as [e He].
    cbn [iteration_peers]. by rewrite He.
Qed.

Lemma wf_iteration_interfaces store now dump tr repo count plans :
  wf_tracker tr →
  wf_tracker (iteration_interfaces store now dump tr repo count plans).1.1.1.1.
Proof.
  revert tr repo count plans.
  induction dump as [|[i info] dump IH]; intros tr repo count plans Hwf; [done|].
  pose proof (wf_iteration_peers store now i (peers info)
                (interface_start tr repo count info) Hwf) as Hwf'.
  cbn [iteration_interfaces]. fold (interface_start tr repo count info).
  destruct (iteration_peers store now i (peers info) (interface_start tr repo count info))
    as [loc [e|]]; cbn [fst] in Hwf'; [exact Hwf'|].
  by apply IH.
Qed.

(** What [iteration] returns and leaves in the daemon, from the results
    of its loops. *)
Lemma iteration_result {W B : Type} `{!FirewallBackend (W:=W) B}
    dump now (self : PeerLimiterDaemon B) (w : W) :
  let r := iteration dump now self w in
  let loops := iteration_interfaces (store self) now dump (tracker self)
                 (state_repo self) 0 [] in
  r.1.1.1 = loops.2
  ∧ store (run_self r) = store self
  ∧ tracker (run_self r) = loops.1.1.1.1
  ∧ state_repo (run_self r) = loops.1.1.1.2
  ∧ (loops.2 ≠ None →
     run_log r = [] ∧ run_host r = w ∧ backend (run_self r) = backend self
     ∧ peers_over_limit (run_self r) = peers_over_limit self)
  ∧ (loops.2 = None →
     peers_over_limit (run_self r) = loops.1.1.2
     ∧ match backend self with
       | Some b =>
           backend (run_self r) = Some (run_self (sync loops.1.2 b w))
           ∧ run_log r = run_log (sync loops.1.2 b w)
           ∧ run_host r = run_host (sync loops.1.2 b w)
       | None => backend (run_self r) = None ∧ run_log r = [] ∧ run_host r = w
       end).
Proof.
  cbv zeta. unfold iteration.
  destruct (iteration_interfaces _ _ _ _ _ _ _) as [[[[tr repo] count] plans] [e|]];
    cbn [fst snd]; unfold run_self, run_log, run_host.
  - split_and!; try done.
  - destruct (backend self) as [b|].
    + destruct (sync plans b w) as [[[[] b'] w'] log]. cbn [fst snd].
      split_and!; try done.
    + split_and!; try done.
Qed.
End iteration_top_facts.

(** ** The iptables/ipset backend *)

Section iptables_facts.
Context {W : Type} (subprocess_run : command → W → Z * W).
Implicit Types (b : IptablesBackend) (w : W).
Implicit Types (plans : list (string * FirewallSyncPlan)).

Lemma ipt_backend_eta b :
  {| ipt_current := ipt_current b; ipt_initialized := ipt_initialized b |} = b.
Proof. by destruct b. Qed.

Lemma run_bind_eq {S A B} (m : Run (W:=W) S A) (f : A → Run S B) (s : S) w :
  (m ≫= f) s w
  = let '(a, s1, w1, l1) := m s w in
    let '(b, s2, w2, l2) := f a s1 w1 in (b, s2, w2, l1 ++ l2).
Proof. reflexivity. Qed.

Lemma ipt_run_one (c : command) b w :
  (_ ← ipt_run subprocess_run c; mret tt) b w = (tt, b, (subprocess_run c w).2, [c]).
Proof.
  unfold mbind, Run_bind, ipt_run, exec, mret, Run_ret.
  by destruct (subprocess_run c w) as [rc w1].
Qed.

(** A loop that runs one command for each item runs these commands, in
    order, and leaves the backend as it is. *)
Lemma for_each_run {A} (f : A → command) (xs : list A) b w :
  ∃ w', for_each xs (λ x, _ ← ipt_run subprocess_run (f x); mret tt) b w
        = (tt, b, w', f <$> xs).
Proof.
  revert w. induction xs as [|x xs IH]; intros w; [by exists w|].
  cbn [for_each].
  unfold mbind at 1. unfold Run_bind at 1. rewrite ipt_run_one.
  destruct (IH (subprocess_run (f x) w).2) as [w' ->]. by exists w'.
Qed.

Lemma ipset_commands_entries (verb set_name : string) (xs : gset (string * Z)) :
  (verb = "add" ∨ verb = "del") →
  filter is_ipset_entry_command (ipset_commands verb set_name xs)
  = ipset_commands verb set_name xs.
Proof.
  intros Hverb. unfold ipset_commands.
  induction (elements xs) as [|x l IH]; [done|].
  rewrite fmap_cons, filter_cons_True, IH; [done|].
  unfold is_ipset_entry_command, ipset_command. apply bool_decide_pack.
  destruct Hverb as [-> | ->]; simpl; auto.
Qed.

(** [ensure_interface] marks the interface as set up, leaves the tracked
    sets alone and adds or deletes no entry; for an interface that is set
    up it runs nothing. *)
Lemma ipt_ensure_interface_effect i port' b w :
  ∃ w' log,
    ipt_ensure_interface subprocess_run i port' b w
    = (tt, {| ipt_current := ipt_current b;
              ipt_initialized := {[i]} ∪ ipt_initialized b |}, w', log)
    ∧ filter is_ipset_entry_command log = []
    ∧ (i ∈ ipt_initialized b → w' = w ∧ log = []).
Proof.
  unfold ipt_ensure_interface, mbind, Run_bind, get_self, set_self, mret, Run_ret.
  case_bool_decide as Hi.
  - exists w, []. split_and!; try done. f_equal. f_equal. f_equal.
    rewrite <- (ipt_backend_eta b) at 1. f_equal. set_solver.
  - unfold ipt_run, when, exec, mbind, Run_bind, mret, Run_ret.
    destruct (subprocess_run _ w) as [rc1 w1]. simpl.
    destruct (bool_decide (rc1 = 0)); simpl;
      [|destruct (subprocess_run _ w1) as [rc1' w1']; simpl];
      (destruct (subprocess_run _ _) as [rc2 w2]; simpl;
       destruct (bool_decide (rc2 = 0)); simpl;
         [|destruct (subprocess_run _ w2) as [rc2' w2']; simpl]);
      eexists _, _; (split_and!; [reflexivity|reflexivity|done]).
Qed.

(** One turn of the loop of [sync]. *)
Lemma ipt_sync_interface_effect i plan b w :
  let current := default ∅ (ipt_current b !! i) in
  let entries := ipset_commands "add" (ipt_set_name i) (ipv4 plan ∖ current)
                 ++ ipset_commands "del" (ipt_set_name i) (current ∖ ipv4 plan) in
  ∃ w' log,
    ipt_sync_interface subprocess_run (i, plan) b w
    = (tt, {| ipt_current := <[i := ipv4 plan]> (ipt_current b);
              ipt_initialized := {[i]} ∪ ipt_initialized b |}, w', log)
    ∧ filter is_ipset_entry_command log = entries
    ∧ (i ∈ ipt_initialized b → log = entries).
Proof.
  cbv zeta. unfold ipt_sync_interface. rewrite run_bind_eq.
  destruct (ipt_ensure_interface_effect i (port plan) b w)
    as (w1 & log1 & -> & Hlog1 & Hknown).
  cbv beta iota zeta. rewrite run_bind_eq. unfold get_self at 1.
  cbv beta iota zeta. cbn [ipt_current]. rewrite run_bind_eq.
  match goal with |- context [for_each (elements ?xs) _ ?b1 w1] =>
    destruct (for_each_run (ipset_command "add" (ipt_set_name i)) (elements xs) b1 w1)
      as [w2 ->] end.
  cbv beta iota zeta. rewrite run_bind_eq.
  match goal with |- context [for_each (elements ?xs) _ ?b1 w2] =>
    destruct (for_each_run (ipset_command "del" (ipt_set_name i)) (elements xs) b1 w2)
      as [w3 ->] end.
  cbv beta iota zeta. unfold set_self. cbn [ipt_current ipt_initialized].
  eexists _, _. split; [reflexivity|]. cbn [app]. split.
  - rewrite !filter_app, Hlog1. cbn [app].
    fold (ipset_commands "add" (ipt_set_name i) (ipv4 plan ∖ default ∅ (ipt_current b !! i))).
    fold (ipset_commands "del" (ipt_set_name i) (default ∅ (ipt_current b !! i) ∖ ipv4 plan)).
    rewrite !ipset_commands_entries by auto. by rewrite app_nil_r.
  - intros Hi. destruct (Hknown Hi) as [_ ->]. cbn [app]. by rewrite app_nil_r.
Qed.

Lemma ipt_sync_cons i plan plans b w :
  ∃ w1 log1,
    let b1 := {| ipt_current := <[i := ipv4 plan]> (ipt_current b);
                 ipt_initialized := {[i]} ∪ ipt_initialized b |} in
    let current := default ∅ (ipt_current b !! i) in
    let entries := ipset_commands "add" (ipt_set_name i) (ipv4 plan ∖ current)
                   ++ ipset_commands "del" (ipt_set_name i) (current ∖ ipv4 plan) in
    run_self (ipt_sync subprocess_run ((i, plan) :: plans) b w)
    = run_self (ipt_sync subprocess_run plans b1 w1)
    ∧ run_log (ipt_sync subprocess_run ((i, plan) :: plans) b w)
      = log1 ++ run_log (ipt_sync subprocess_run plans b1 w1)
    ∧ filter is_ipset_entry_command log1 = entries
    ∧ (i ∈ ipt_initialized b → log1 = entries).
Proof.
  destruct (ipt_sync_interface_effect i plan b w) as (w1 & log1 & Heq & Hlog & Hknown).
  exists w1, log1. cbv zeta. unfold ipt_sync at 1 3. cbn [for_each].
  rewrite !run_bind_eq, Heq. cbv beta iota zeta.
  fold (ipt_sync subprocess_run plans).
  destruct (ipt_sync subprocess_run plans _ w1) as [[[[] b2] w2] log2].
  by split_and!.
Qed.

(** What [sync] leaves in the backend. *)
Lemma ipt_sync_state plans b w :
  run_self (ipt_sync subprocess_run plans b w) = foldl ipt_note_synced b plans.
Proof.
  revert b w. induction plans as [|[i plan] plans IH]; intros b w; [done|].
  destruct (ipt_sync_cons i plan plans b w) as (w1 & log1 & -> & _).
  by rewrite IH.
Qed.

Lemma ipt_note_synced_frame plans b j :
  j ∉ plans.*1 →
  ipt_current (foldl ipt_note_synced b plans) !! j = ipt_current b !! j.
Proof.
  revert b. induction plans as [|[i plan] plans IH]; intros b Hj; [done|].
  rewrite fmap_cons, not_elem_of_cons in Hj. destruct Hj as [Hne Hj].
  cbn [foldl]. rewrite IH by done. cbn [ipt_note_synced ipt_current fst snd].
  by rewrite lookup_insert_ne.
Qed.

Lemma ipt_note_synced_initialized plans b :
  ipt_initialized (foldl ipt_note_synced b plans) = list_to_set plans.*1 ∪ ipt_initialized b.
Proof.
  revert b. induction plans as [|[i plan] plans IH]; intros b; [set_solver|].
  cbn [foldl]. rewrite IH. simpl. set_solver.
Qed.

Lemma ipt_note_synced_lookup plans b i plan :
  NoDup plans.*1 → (i, plan) ∈ plans →
  ipt_current (foldl ipt_note_synced b plans) !! i = Some (ipv4 plan).
Proof.
  revert b. induction plans as [|[i0 plan0] plans IH]; intros b Hnd Hin.
  { by apply elem_of_nil in Hin. }
  rewrite fmap_cons in Hnd. apply NoDup_cons in Hnd as [Hi0 Hnd].
  cbn [foldl]. apply elem_of_cons in Hin as [[= -> ->]|Hin]; [|by apply IH].
  rewrite ipt_note_synced_frame by done.
  cbn [ipt_note_synced ipt_current fst snd]. by rewrite lookup_insert_eq.
Qed.

Lemma ipt_expected_commands_ext plans b b' :
  (∀ j, j ∈ plans.*1 → ipt_current b' !! j = ipt_current b !! j) →
  ipt_expected_commands b' plans = ipt_expected_commands b plans.
Proof.
  unfold ipt_expected_commands.
  induction plans as [|[i plan] plans IH]; intros Hsame; [done|].
  cbn [flat_map fst snd]. rewrite (Hsame i) by by left.
  rewrite IH; [done|]. intros j Hj. apply Hsame. by right.
Qed.

(** The entries that [sync] adds and deletes. *)
Lemma ipt_sync_entry_commands plans b w :
  NoDup plans.*1 →
  filter is_ipset_entry_command (run_log (ipt_sync subprocess_run plans b w))
  = ipt_expected_commands b plans
  ∧ ((∀ j, j ∈ plans.*1 → j ∈ ipt_initialized b) →
     run_log (ipt_sync subprocess_run plans b w) = ipt_expected_commands b plans).
Proof.
  revert b w. induction plans as [|[i plan] plans IH]; intros b w Hnd; [done|].
  rewrite fmap_cons in Hnd. apply NoDup_cons in Hnd as [Hi Hnd].
  destruct (ipt_sync_cons i plan plans b w) as (w1 & log1 & _ & -> & Hlog1 & Hknown).
  cbv zeta in *.
  match goal with |- context [ipt_sync _ plans ?b1 w1] =>
    destruct (IH b1 w1 Hnd) as [IH1 IH2];
    assert (ipt_expected_commands b1 plans = ipt_expected_commands b plans) as Hext
  end.
  { apply ipt_expected_commands_ext. intros j Hj. cbn [ipt_current].
    rewrite lookup_insert_ne; [done|]. by intros ->. }
  assert (ipt_expected_commands b ((i, plan) :: plans)
          = (ipset_commands "add" (ipt_set_name i)
               (ipv4 plan ∖ default ∅ (ipt_current b !! i))
             ++ ipset_commands "del" (ipt_set_name i)
                  (default ∅ (ipt_current b !! i) ∖ ipv4 plan))
            ++ ipt_expected_commands b plans) as -> by done.
  split.
  - by rewrite filter_app, Hlog1, IH1, Hext.
  - intros Hinit. rewrite (Hknown (Hinit i ltac:(by left))), IH2, Hext; [done|].
    intros j Hj. cbn [ipt_initialized]. apply elem_of_union_r, Hinit. by right.
Qed.

Lemma ipset_commands_empty (verb set_name : string) : ipset_commands verb set_name ∅ = [].
Proof. unfold ipset_commands. by rewrite elements_empty. Qed.

(** When the backend tracks the IPv4 sets of the plans, [sync] runs no
    command and leaves the backend as it is. *)
Lemma ipt_sync_idle plans b w :
  NoDup plans.*1 →
  (∀ i plan, (i, plan) ∈ plans →
     i ∈ ipt_initialized b ∧ ipt_current b !! i = Some (ipv4 plan)) →
  run_self (ipt_sync subprocess_run plans b w) = b
  ∧ run_log (ipt_sync subprocess_run plans b w) = [].
Proof.
  intros Hnd Hs. split.
  - rewrite ipt_sync_state. clear w Hnd.
    induction plans as [|[i plan] plans IH]; [done|]. cbn [foldl].
    destruct (Hs i plan) as [Hi Hc]; [by left|].
    assert (ipt_note_synced b (i, plan) = b) as ->.
    { rewrite <- (ipt_backend_eta b) at 2. unfold ipt_note_synced. cbn [fst snd].
      f_equal; [by apply insert_id|set_solver]. }
    apply IH. intros j pl Hin. apply Hs. by right.
  - destruct (ipt_sync_entry_commands plans b w Hnd) as [_ ->].
    2:{ intros j (item & -> & Hin)%list_elem_of_fmap. destruct item as [j pl].
        by destruct (Hs j pl Hin). }
    unfold ipt_expected_commands. clear w Hnd.
    induction plans as [|[i plan] plans IH]; [done|]. cbn [flat_map fst snd].
    destruct (Hs i plan) as [Hi ->]; [by left|]. cbn [default].
    rewrite !difference_diag_L, !ipset_commands_empty. cbn [app].
    apply IH. intros j pl Hin. apply Hs. by right.
Qed.

End iptables_facts.

Section ipset_entry_facts.
Lemma str_of_int_inj (n m : Z) : str_of_int n = str_of_int m → n = m.
Proof.
  intros Heq. apply (f_equal PyStr.int_of_str) in Heq.
  rewrite !int_of_str_of_int in Heq. by injection Heq.
Qed.

Lemma entry_cut (a b : string) (n m : Z) :
  (String.length a ≤ String.length b)%nat →
  a +:+ "," +:+ str_of_int n = b +:+ "," +:+ str_of_int m → a = b ∧ n = m.
Proof.
  intros Hlen Heq. destruct (app_eq_split a b _ _ Heq Hlen) as (t & -> & Ht).
  destruct t as [|c t].
  - rewrite str_app_nil_l in Ht. rewrite str_app_nil_r. split; [done|].
    rewrite !str_app_cons, !str_app_nil_l in Ht. injection Ht as Ht.
    by apply str_of_int_inj.
  - exfalso. rewrite !str_app_cons, !str_app_nil_l in Ht. injection Ht as <- Ht.
    destruct (str_of_int_chars n) as [Hall _].
    by apply (all_chars_no_split _ _ t (str_of_int m) "," Hall).
Qed.

(** Two endpoints with the same entry text are the same. *)
Lemma ipset_entry_inj (x y : string * Z) : ipset_entry x = ipset_entry y → x = y.
Proof.
  destruct x as [a n], y as [b m]. unfold ipset_entry. cbn [fst snd]. intros Heq.
  destruct (decide (String.length a ≤ String.length b)%nat) as [Hlen|Hlen].
  - by destruct (entry_cut a b n m Hlen Heq) as [-> ->].
  - symmetry in Heq. destruct (entry_cut b a m n ltac:(lia) Heq) as [-> ->]. done.
Qed.

Lemma ipt_set_name_inj (i j : string) : ipt_set_name i = ipt_set_name j → i = j.
Proof.
  unfold ipt_set_name. intros Heq.
  rewrite !(str_app_cons "w"), !(str_app_cons "g"), !(str_app_cons "o"),
    !(str_app_cons "_"), !str_app_nil_l in Heq.
  injection Heq as Heq. by apply str_app_inv_tail in Heq.
Qed.
End ipset_entry_facts.

(** ** The dump collector *)

Section collector_facts.
Implicit Types (st : CollectState) (line : string) (lines : list string).


Lemma int_or_zero_ok (f : string) :
  f = "" ∨ is_Some (PyStr.int_of_str f) → ∃ n, int_or_zero f = Ok n.
Proof.
  unfold int_or_zero. intros [-> |[n Hn]]; [by exists 0|].
  case_bool_decide; [by exists 0|]. rewrite Hn. by exists n.
Qed.

(** A line that is neither a header nor a peer line changes nothing. *)
Lemma collect_line_skip line st :
  is_header line = false → is_peer_line line = false → collect_line line st = Ok st.
Proof.
  unfold is_header, is_peer_line, collect_line.
  case_bool_decide as Hl; [done|]. cbn [negb andb].
  intros -> ->. done.
Qed.

(** A peer line changes nothing while there is no current interface. *)
Lemma collect_line_no_interface line st :
  is_header line = false → truthy st.2 = false → collect_line line st = Ok st.
Proof.
  unfold is_header, collect_line.
  case_bool_decide as Hl; [done|]. cbn [negb andb].
  intros -> ->. by rewrite andb_false_r.
Qed.





(** The entry of the current interface is there when a peer line is
    read. *)
Lemma collect_inv_current st :
  collect_inv st → truthy st.2 = true → is_Some (Dict.get (default "" st.2) st.1).
Proof.
  intros [_ Hcur]. destruct st as [d [name|]]; [|done]. intros _. cbn [fst snd default].
  destruct (Dict.get name d) eqn:E; [by eexists|].
  apply dict_get_None in E. destruct E. by apply (Hcur name).
Qed.
End collector_facts.

(** * Further properties of the code *)

(** X1.  Every tracker reached from the empty one by calls of [observe],
    and by [prune_peer] after them, is well formed: the keys of each
    dictionary are distinct, each session is stored under its own endpoint,
    and no endpoint is empty or ["(none)"]. *)
Theorem reachable_tracker_well_formed (calls : list ObserveCall) (i p : string) :
  wf_tracker (run_calls calls new_tracker)
  ∧ wf_tracker (prune_peer i p (run_calls calls new_tracker)).2.
Proof.
  assert (wf_tracker (run_calls calls new_tracker)) as Hwf
    by apply wf_run_calls, wf_new_tracker.
  split; [done|]. by apply wf_prune_peer.
Qed.

(** X2.  Calls of [observe] for different keys commute: the tracker after
    both calls is the same in either order, and what a call returns does
    not depend on a call for another key made before it. *)
Theorem observe_commutes (c1 c2 : ObserveCall) (tr : SessionTracker) :
  call_key c1 ≠ call_key c2 →
  (do_observe c1 (do_observe c2 tr).2).2 = (do_observe c2 (do_observe c1 tr).2).2
  ∧ (do_observe c1 (do_observe c2 tr).2).1 = (do_observe c1 tr).1
  ∧ (do_observe c2 (do_observe c1 tr).2).1 = (do_observe c2 tr).1.
Proof.
  intros Hne. split_and!.
  - by apply observe_commute_state.
  - by apply observe_commute_result.
  - by apply observe_commute_result.
Qed.

Lemma observe_commutes_witness :
  (do_observe (call_for "peerA" "10.0.0.1:50000" 100 (seconds 1))
     (do_observe (call_for "peerB" "10.0.0.9:40000" 7 (seconds 2)) new_tracker).2).2
  = (do_observe (call_for "peerB" "10.0.0.9:40000" 7 (seconds 2))
       (do_observe (call_for "peerA" "10.0.0.1:50000" 100 (seconds 1)) new_tracker).2).2.
Proof.
  apply (observe_commutes (call_for "peerA" "10.0.0.1:50000" 100 (seconds 1))
           (call_for "peerB" "10.0.0.9:40000" 7 (seconds 2)) new_tracker).
  vm_compute. discriminate.
Defined.

(** X3.  In a well-formed tracker, right after [observe] every session the
    call returns is inside the TTL window of the call, so [active_sessions]
    with the same settings and time returns the same sessions, reordered. *)
Theorem observe_leaves_live_sessions (i p : string) (ep : option string)
    (hs : option Z) (rx tx : Z) (st : PeerLimitSettings) (now : Z)
    (tr : SessionTracker) :
  wf_tracker tr →
  let after := observe i p ep hs rx tx st now tr in
  (∀ s, s ∈ after.1 → now - timedelta (Z.max (ttl_seconds st) 1) ≤ last_seen s)
  ∧ (active_sessions i p st now after.2).1 ≡ₚ after.1.
Proof.
  intros Hwf after. pose proof (observe_sessions_live i p ep hs rx tx st now tr Hwf) as Hlive.
  assert (∀ s, s ∈ after.1 → now - timedelta (Z.max (ttl_seconds st) 1) ≤ last_seen s)
    as Hall.
  { intros s Hs. unfold after in Hs. rewrite observe_result in Hs.
    apply list_elem_of_fmap in Hs as (kv & -> & Hkv).
    by apply (proj1 (Forall_forall _ _) Hlive). }
  split; [done|].
  unfold active_sessions. simpl. rewrite stable_sort_Permutation.
  fold (tracked after.2 (i, p)). unfold after at 1. rewrite <- observe_result.
  fold after. assert (∀ l : list PeerSession, (∀ s, s ∈ l →
      now - timedelta (Z.max (ttl_seconds st) 1) ≤ last_seen s) →
      filter (λ s, now - timedelta (Z.max (ttl_seconds st) 1) ≤ last_seen s) l = l) as Hid.
  { clear. induction l as [|s l IH]; intros Hl; [done|].
    rewrite filter_cons_True by (apply Hl; by left).
    rewrite IH; [done|]. intros s' Hs'. apply Hl. by right. }
  by rewrite Hid.
Qed.

Lemma observe_leaves_live_sessions_witness :
  (active_sessions "wg0" "peer" (limit_one NEW_WINS 5 5) (seconds 8)
     (observe "wg0" "peer" (Some "10.0.0.2:50001") (Some 1700000005) 200 0
        (limit_one NEW_WINS 5 5) (seconds 8) (two_sessions (limit_one NEW_WINS 5 5))).2).1
  ≡ₚ (observe "wg0" "peer" (Some "10.0.0.2:50001") (Some 1700000005) 200 0
        (limit_one NEW_WINS 5 5) (seconds 8) (two_sessions (limit_one NEW_WINS 5 5))).1.
Proof.
  apply (observe_leaves_live_sessions "wg0" "peer" (Some "10.0.0.2:50001")
           (Some 1700000005) 200 0 (limit_one NEW_WINS 5 5) (seconds 8)
           (two_sessions (limit_one NEW_WINS 5 5))).
  by_evaluation.
Defined.

(** X4.  When the calls of [observe] come with times that do not go back,
    every session tracked after them, from the empty tracker, was first
    seen no later than it was last seen. *)
Theorem clock_order_keeps_times (calls : list ObserveCall) (key : string * string)
    (s : PeerSession) :
  StronglySorted (λ a b, call_now a ≤ call_now b) calls →
  s ∈ tracked (run_calls calls new_tracker) key →
  first_seen s ≤ last_seen s.
Proof.
  intros Hsorted Hs.
  assert (∃ t, times_ordered t (run_calls calls new_tracker)) as [t Ht].
  { destruct calls as [|c calls]; [exists 0; apply map_Forall_empty|].
    apply (run_calls_times_ordered (c :: calls) (call_now c)); [|done|].
    - apply map_Forall_empty.
    - apply StronglySorted_inv in Hsorted as [_ Hc].
      apply Forall_cons. split; [lia|done]. }
  unfold tracked in Hs. apply list_elem_of_fmap in Hs as (kv & -> & Hkv).
  destruct (run_calls calls new_tracker !! key) as [d|] eqn:Hd;
    [|by apply elem_of_nil in Hkv].
  pose proof (proj1 (Forall_forall _ _) (Ht key d Hd) kv Hkv). simpl in *. lia.
Qed.

Lemma clock_order_keeps_times_witness :
  Forall (λ s, first_seen s ≤ last_seen s)
    (tracked (run_calls (handshake_calls (limit_one NEW_WINS 180 5)) new_tracker)
       ("wg0", "peer")).
Proof.
  apply Forall_forall. intros s Hs.
  apply (clock_order_keeps_times (handshake_calls (limit_one NEW_WINS 180 5))
           ("wg0", "peer") s); [|exact Hs].
  repeat constructor; vm_compute; discriminate.
Defined.

(** X5.  In a well-formed tracker [_expire] keeps, under its key, exactly
    the sessions whose [last_seen] is not before [now - max(ttl, 1)]
    seconds, in their order; it removes the key when it had sessions and
    none is left; it leaves the other keys alone; and a second [_expire]
    with the same arguments changes nothing. *)
Theorem expire_keeps_window (key : string * string) (ttl now : Z) (tr : SessionTracker) :
  wf_tracker tr →
  let after := (_expire key ttl now tr).2 in
  let live := filter (λ kv : string * PeerSession,
                        ¬ last_seen kv.2 < now - timedelta (Z.max ttl 1))
                     (default [] (tr !! key)) in
  default [] (after !! key) = live
  ∧ (tr !! key ≠ Some [] → live = [] → after !! key = None)
  ∧ (∀ key', key' ≠ key → after !! key' = tr !! key')
  ∧ (_expire key ttl now after).2 = after.
Proof.
  intros Hwf after live.
  assert (default [] (after !! key) = live) as Hlive by by apply expire_sessions_wf.
  assert (∀ key', key' ≠ key → after !! key' = tr !! key') as Hother.
  { intros key' Hne. by apply expire_other. }
  split_and!; [done| |done|].
  - intros Hne Hnone. unfold after. rewrite expire_lookup by done.
    destruct (tr !! key) as [[|kv d]|]; try done.
    unfold live in Hnone. simpl in Hnone. by rewrite Hnone.
  - apply map_eq. intros key'. destruct (decide (key' = key)) as [->|Hne].
    2:{ by rewrite expire_other. }
    assert (wf_tracker after) as Hwf' by by apply wf_expire.
    rewrite (expire_lookup key ttl now after Hwf').
    unfold after. rewrite (expire_lookup key ttl now tr Hwf).
    destruct (tr !! key) as [[|kv d]|] eqn:E; try done.
    destruct (filter _ (kv :: d)) as [|kv' d'] eqn:F; [done|].
    rewrite <- F, list_filter_filter.
    assert (filter (λ x : string * PeerSession,
              ¬ last_seen x.2 < now - timedelta (Z.max ttl 1)
              ∧ ¬ last_seen x.2 < now - timedelta (Z.max ttl 1)) (kv :: d)
            = filter (λ x : string * PeerSession,
                ¬ last_seen x.2 < now - timedelta (Z.max ttl 1)) (kv :: d)) as ->.
    { apply list_filter_iff. intros x. tauto. }
    by rewrite F.
Qed.

Lemma expire_keeps_window_witness :
  default []
    ((_expire ("wg0", "peer") 5 (seconds 8) (two_sessions (limit_one NEW_WINS 5 5))).2
     !! ("wg0", "peer"))
  = [("10.0.0.2:50001",
      {| endpoint := "10.0.0.2:50001"; first_seen := seconds 5;
         last_seen := seconds 5; last_handshake := Some 1700000005000000;
         rx_bytes := 200; tx_bytes := 0; rx_delta := 0; tx_delta := 0 |})].
Proof.
  destruct (expire_keeps_window ("wg0", "peer") 5 (seconds 8)
              (two_sessions (limit_one NEW_WINS 5 5))) as (Hlive & _).
  { by_evaluation. }
  exact Hlive.
Defined.

(** X6.  In a well-formed tracker and under a limit [M > 0],
    [allowed_sessions] returns the active sessions of the grace window
    followed by the first [M] of the other active sessions: the most
    recently seen ones under [new_wins], the ones first seen earliest under
    [old_wins]. *)
Theorem allowed_sessions_policy (i p : string) (st : PeerLimitSettings) (now : Z)
    (tr : SessionTracker) (M : Z) :
  wf_tracker tr → max_concurrent st = Some M → 0 < M →
  let active := (active_sessions i p st now tr).1 in
  let grace_window := now - timedelta (Z.max (grace_seconds st) 0) in
  let grace := filter (λ s, grace_window ≤ first_seen s) active in
  let stable := filter (λ s, ¬ grace_window ≤ first_seen s) active in
  (policy st = NEW_WINS →
   (allowed_sessions i p st now tr).1 = grace ++ take (Z.to_nat M) stable)
  ∧ (policy st = OLD_WINS →
     (allowed_sessions i p st now tr).1
     = grace ++ take (Z.to_nat M)
                  (stable_sort (λ a b, first_seen a <=? first_seen b) stable)).
Proof.
  intros Hwf HM HM0 active grace_window grace stable.
  pose proof (allowed_sessions_exact i p st now tr M Hwf HM ltac:(lia)) as Hex.
  cbv zeta in Hex. split; intros Hp; by rewrite Hp in Hex.
Qed.

(** On the two sessions of the tests, after the grace period: [new_wins]
    keeps the one seen last, [old_wins] the one seen first. *)
Lemma allowed_sessions_policy_witness :
  endpoint <$> (allowed_sessions "wg0" "peer" (limit_one NEW_WINS 180 0) (seconds 6)
                  (two_sessions (limit_one NEW_WINS 180 0))).1 = ["10.0.0.2:50001"]
  ∧ endpoint <$> (allowed_sessions "wg0" "peer" (limit_one OLD_WINS 180 0) (seconds 6)
                    (two_sessions (limit_one OLD_WINS 180 0))).1 = ["10.0.0.1:50000"].
Proof.
  destruct (allowed_sessions_policy "wg0" "peer" (limit_one NEW_WINS 180 0) (seconds 6)
              (two_sessions (limit_one NEW_WINS 180 0)) 1) as [Hnew _];
    [by_evaluation|reflexivity|lia|].
  destruct (allowed_sessions_policy "wg0" "peer" (limit_one OLD_WINS 180 0) (seconds 6)
              (two_sessions (limit_one OLD_WINS 180 0)) 1) as [_ Hold];
    [by_evaluation|reflexivity|lia|].
  split.
  - rewrite (Hnew eq_refl). reflexivity.
  - rewrite (Hold eq_refl). reflexivity.
Defined.

(** X7.  In a well-formed tracker, when the active sessions are not more
    than the limit, [allowed_sessions] returns all of them. *)
Theorem allowed_sessions_all_within_limit (i p : string) (st : PeerLimitSettings)
    (now : Z) (tr : SessionTracker) (M : Z) :
  wf_tracker tr → max_concurrent st = Some M →
  Z.of_nat (length (active_sessions i p st now tr).1) ≤ M →
  (allowed_sessions i p st now tr).1 ≡ₚ (active_sessions i p st now tr).1.
Proof.
  intros Hwf HM Hlen. destruct (decide (M = 0)) as [->|HM0].
  { by rewrite allowed_sessions_unlimited by auto. }
  rewrite (allowed_sessions_exact i p st now tr M Hwf HM HM0).
  set (active := (active_sessions i p st now tr).1) in *.
  set (grace_window := now - timedelta (Z.max (grace_seconds st) 0)).
  set (stable := filter (λ s, ¬ grace_window ≤ first_seen s) active).
  assert (length stable ≤ length active)%nat as Hst by apply length_filter.
  rewrite take_ge.
  2:{ destruct (policy st); rewrite ?stable_sort_length; lia. }
  etrans; [|apply (filter_app_complement (λ s, grace_window ≤ first_seen s))].
  apply Permutation_app_head. fold stable.
  destruct (policy st); [done|]. apply stable_sort_Permutation.
Qed.

Lemma allowed_sessions_all_within_limit_witness :
  (allowed_sessions "wg0" "peer" (limit_one NEW_WINS 180 0) (seconds 6)
     (one_session (limit_one NEW_WINS 180 0))).1
  ≡ₚ (active_sessions "wg0" "peer" (limit_one NEW_WINS 180 0) (seconds 6)
        (one_session (limit_one NEW_WINS 180 0))).1.
Proof.
  apply (allowed_sessions_all_within_limit "wg0" "peer" (limit_one NEW_WINS 180 0)
           (seconds 6) (one_session (limit_one NEW_WINS 180 0)) 1).
  - by_evaluation.
  - reflexivity.
  - vm_compute. discriminate.
Defined.

(** X8.  In a well-formed tracker, when [observe] is called for an endpoint
    whose session is older than the TTL window of the call, the session is
    replaced by a new one: first seen and last seen at [now], both deltas
    0, the observed counters, and the observed handshake time or none when
    it is 0. *)
Theorem observe_expired_endpoint_restarts (i p : string) (ep : option string)
    (hs : option Z) (rx tx : Z) (st : PeerLimitSettings) (now : Z)
    (tr : SessionTracker) (old : PeerSession) :
  let e := PyStr.strip (default "" ep) in
  wf_tracker tr →
  session_at tr (i, p) e = Some old →
  last_seen old < now - timedelta (Z.max (ttl_seconds st) 1) →
  session_at (observe i p ep hs rx tx st now tr).2 (i, p) e
  = Some {| endpoint := e; first_seen := now; last_seen := now;
            last_handshake := handshake_datetime hs;
            rx_bytes := rx; tx_bytes := tx; rx_delta := 0; tx_delta := 0 |}.
Proof.
  intros e Hwf Hold Hstale.
  assert (names_session e = true) as Hn.
  { by apply (wf_sessions_endpoint _ _ _ (wf_tracker_sessions tr (i, p) Hwf) Hold). }
  assert (session_at (_expire (i, p) (ttl_seconds st) now tr).2 (i, p) e = None) as Hgone.
  { destruct (session_at (_expire _ _ _ _).2 (i, p) e) as [s|] eqn:Hs; [|done].
    apply expire_session_at in Hs as [Hs Hlive]; [|done].
    rewrite Hold in Hs. injection Hs as <-. lia. }
  unfold session_at in *. rewrite observe_state. cbv zeta. fold e.
  rewrite Hn, Hgone, lookup_insert_eq. simpl.
  rewrite dict_get_set. by rewrite bool_decide_eq_true_2.
Qed.

Lemma observe_expired_endpoint_restarts_witness :
  session_at (observe "wg0" "peer" (Some "10.0.0.1:50000") (Some 0) 2000 0
                (limit_one NEW_WINS 5 5) (seconds 60)
                (one_session (limit_one NEW_WINS 5 5))).2
    ("wg0", "peer") "10.0.0.1:50000"
  = Some {| endpoint := "10.0.0.1:50000"; first_seen := seconds 60;
            last_seen := seconds 60; last_handshake := None;
            rx_bytes := 2000; tx_bytes := 0; rx_delta := 0; tx_delta := 0 |}.
Proof.
  apply (observe_expired_endpoint_restarts "wg0" "peer" (Some "10.0.0.1:50000")
           (Some 0) 2000 0 (limit_one NEW_WINS 5 5) (seconds 60)
           (one_session (limit_one NEW_WINS 5 5))
           {| endpoint := "10.0.0.1:50000"; first_seen := seconds 0;
              last_seen := seconds 0; last_handshake := Some 1700000000000000;
              rx_bytes := 1000; tx_bytes := 0; rx_delta := 0; tx_delta := 0 |}).
  - by_evaluation.
  - reflexivity.
  - vm_compute. reflexivity.
Defined.

(** X9.  When the endpoint is absent, empty, blank or ["(none)"] in any
    case, [observe] only expires: in a well-formed tracker the sessions of
    the key afterwards are those inside the TTL window, in their order, the
    call returns them, and the other keys are as before. *)
Theorem observe_without_endpoint (i p : string) (ep : option string)
    (hs : option Z) (rx tx : Z) (st : PeerLimitSettings) (now : Z)
    (tr : SessionTracker) :
  wf_tracker tr →
  names_session (PyStr.strip (default "" ep)) = false →
  let after := observe i p ep hs rx tx st now tr in
  let live := filter (λ s, now - timedelta (Z.max (ttl_seconds st) 1) ≤ last_seen s)
                     (tracked tr (i, p)) in
  after.1 = live
  ∧ tracked after.2 (i, p) = live
  ∧ ∀ key, key ≠ (i, p) → after.2 !! key = tr !! key.
Proof.
  intros Hwf Hn after live.
  assert (tracked after.2 (i, p) = live) as Hlive.
  { unfold tracked, after. rewrite observe_state. cbv zeta. rewrite Hn.
    rewrite lookup_insert_eq. simpl. rewrite expire_sessions_wf by done.
    unfold live, tracked, Dict.values.
    generalize (default [] (tr !! (i, p))). clear.
    induction l as [|kv l IH]; [done|].
    rewrite fmap_cons, !filter_cons. simpl.
    repeat case_decide; try lia; rewrite ?fmap_cons, IH; done. }
  split_and!; [|done|].
  - unfold after at 1. by rewrite observe_result.
  - intros key Hne. by apply observe_other.
Qed.

Lemma observe_without_endpoint_witness :
  (observe "wg0" "peer" (Some " (None) ") (Some 0) 0 0 (limit_one NEW_WINS 5 5)
     (seconds 8) (two_sessions (limit_one NEW_WINS 5 5))).1
  = [{| endpoint := "10.0.0.2:50001"; first_seen := seconds 5;
        last_seen := seconds 5; last_handshake := Some 1700000005000000;
        rx_bytes := 200; tx_bytes := 0; rx_delta := 0; tx_delta := 0 |}].
Proof.
  destruct (observe_without_endpoint "wg0" "peer" (Some " (None) ") (Some 0) 0 0
              (limit_one NEW_WINS 5 5) (seconds 8)
              (two_sessions (limit_one NEW_WINS 5 5))) as (Hret & _).
  - by_evaluation.
  - reflexivity.
  - exact Hret.
Defined.

(** X10.  For settings tables whose cells are NULL, integers or text,
    whatever their values: the settings that [get_peer_settings] returns
    have a TTL of at least one second, a grace period that is not negative
    and, when they have a limit, a positive one. *)
Theorem get_peer_settings_valid (store : PeerLimitStore) (interface peer_id : string)
    (st : PeerLimitSettings) :
  get_peer_settings store interface peer_id = Ok st → valid_settings st.
Proof.
  unfold get_peer_settings, valid_settings.
  destruct (store !! interface) as [table|]; [destruct (table !! peer_id) as [row|]|].
  - intros Hrow. destruct (from_row_valid row st Hrow) as (? & ? & ?). done.
  - intros [= <-]. split_and!; [done|by cbv|by cbv].
  - intros [= <-]. split_and!; [done|by cbv|by cbv].
Qed.

Lemma get_peer_settings_valid_witness :
  valid_settings {| max_concurrent := None; policy := OLD_WINS;
                    ttl_seconds := 1; grace_seconds := 0 |}.
Proof.
  apply (get_peer_settings_valid
           {[ "wg0" := {[ "peerA" := {| row_max_concurrent := PyInt (-3);
                                        row_connection_policy := PyStr "old_wins";
                                        row_session_ttl := PyInt 0;
                                        row_grace_seconds := PyInt (-7) |} ]} ]}
           "wg0" "peerA").
  reflexivity.
Defined.

(** X11.  Settings written with [to_record] and read back with [from_row]
    come back normalized: a limit that is not positive becomes no limit,
    the TTL at least 1, the grace period at least 0; valid settings come
    back unchanged, and no settings make [from_row] raise. *)
Theorem from_row_to_record (st : PeerLimitSettings) :
  from_row (to_record st)
  = Ok {| max_concurrent :=
            match max_concurrent st with
            | Some n => if n <=? 0 then None else Some n
            | None => None
            end;
          policy := policy st;
          ttl_seconds := Z.max (ttl_seconds st) 1;
          grace_seconds := Z.max (grace_seconds st) 0 |}
  ∧ (valid_settings st → from_row (to_record st) = Ok st).
Proof.
  assert (from_row (to_record st)
          = Ok {| max_concurrent :=
                    match max_concurrent st with
                    | Some n => if n <=? 0 then None else Some n
                    | None => None
                    end;
                  policy := policy st;
                  ttl_seconds := Z.max (ttl_seconds st) 1;
                  grace_seconds := Z.max (grace_seconds st) 0 |}) as Hrt.
  { unfold from_row, to_record. simpl.
    destruct (max_concurrent st) as [[|n|n]|], (policy st); reflexivity. }
  split; [done|]. intros (HM & Httl & Hgrace). rewrite Hrt.
  destruct st as [mc pol ttl grace]. simpl in *. f_equal. f_equal; [|lia|lia].
  destruct mc as [n|]; [|done]. specialize (HM n eq_refl).
  destruct (n <=? 0) eqn:E; [|done]. apply Z.leb_le in E. lia.
Qed.

(** X11 on settings with a limit of 1. *)
Lemma from_row_to_record_witness :
  from_row (to_record (limit_one OLD_WINS 60 10)) = Ok (limit_one OLD_WINS 60 10).
Proof.
  apply (proj2 (from_row_to_record (limit_one OLD_WINS 60 10))).
  split_and!; [by intros M [= <-]|by cbv|by cbv].
Defined.


(** X12.  A limit that the settings row holds as text is read as the
    number: with the decimal text of [n] in [max_concurrent], [from_row]
    gives what it gives with the integer [n] there, whatever the other
    columns hold. *)
Theorem from_row_text_limit (row : Row) (n : Z) :
  from_row {| row_max_concurrent := PyStr (str_of_int n);
              row_connection_policy := row_connection_policy row;
              row_session_ttl := row_session_ttl row;
              row_grace_seconds := row_grace_seconds row |}
  = from_row {| row_max_concurrent := PyInt n;
                row_connection_policy := row_connection_policy row;
                row_session_ttl := row_session_ttl row;
                row_grace_seconds := row_grace_seconds row |}.
Proof. unfold from_row. cbn [row_max_concurrent]. by rewrite int_of_str_of_int. Qed.

(** X13.  An endpoint written as the host, a colon and the port in decimal
    is parsed back into that host and port: the host is any text that is
    not empty, does not start with whitespace or with ["["]; it may itself
    hold colons, as an IPv6 address without brackets does, since the cut
    is at the last colon. *)
Theorem split_endpoint_host_port (host : string) (port : Z) :
  host ≠ "" → PyStr.lstrip host = host → PyStr.startswith "[" host = false →
  split_endpoint (host +:+ ":" +:+ str_of_int port) = Some (host, port).
Proof.
  intros Hne Hl Hb. destruct (str_of_int_chars port) as [Hall Hpne].
  set (s := host +:+ ":" +:+ str_of_int port).
  assert (PyStr.strip s = s) as Hs.
  { unfold PyStr.strip, s. destruct host as [|c r]; [done|].
    assert (PyStr.is_space c = false) as Hc.
    { destruct (PyStr.is_space c) eqn:Ec; [|done]. cbn [PyStr.lstrip] in Hl. rewrite Ec in Hl.
      destruct (lstrip_head r) as [E|(c' & r' & E & Hc')]; rewrite E in Hl; [done|].
      injection Hl as -> _. congruence. }
    rewrite !str_app_cons. rewrite lstrip_nonspace by done.
    rewrite <- !str_app_cons.
    rewrite <- (str_app_assoc (String c r) ":" (str_of_int port)).
    by rewrite str_of_int_strip. }
  unfold split_endpoint. rewrite Hs.
  rewrite bool_decide_eq_false_2 by (unfold s; by destruct host).
  rewrite bool_decide_eq_false_2 by (unfold s; apply lower_none_no_colon).
  cbn [orb].
  assert (PyStr.startswith "[" s = false) as ->.
  { unfold s. destruct host as [|c r]; [done|]. rewrite str_app_cons.
    unfold PyStr.startswith in Hb |- *. cbn [PyStr.strip_prefix] in Hb |- *.
    destruct (bool_decide ("["%char = c)); [|done].
    apply bool_decide_eq_false in Hb. destruct Hb. by eexists. }
  unfold PyStr.rpartition.
  rewrite (rsplit1_rightmost ":" s host (str_of_int port)); [|done|done|].
  - rewrite bool_decide_eq_false_2 by done.
    rewrite bool_decide_eq_false_2 by done. cbn [orb].
    by rewrite int_of_str_of_int.
  - intros a' b' Heq. destruct (decide (String.length a' ≤ String.length host)%nat) as [|Hlt];
      [done|exfalso].
    unfold s in Heq.
    destruct (app_eq_split host a' _ _ Heq) as (m & -> & Hm); [lia|].
    destruct m as [|c m]; [rewrite str_app_length in Hlt; simpl in Hlt; lia|].
    rewrite !str_app_cons, str_app_nil_l in Hm. injection Hm as <- Hm.
    eapply (all_chars_no_split _ _ m b' ":"); [exact Hall| |exact Hm].
    destruct (is_sign_or_digit ":") eqn:E; [|done]. by vm_compute in E.
Qed.

Lemma split_endpoint_host_port_witness :
  split_endpoint ("fe80::1" +:+ ":" +:+ str_of_int 51820) = Some ("fe80::1", 51820).
Proof. apply (split_endpoint_host_port "fe80::1" 51820); [done|reflexivity|reflexivity]. Defined.

(** X14.  An endpoint written as ["[" host "]:" port], the port in decimal,
    is parsed back into that host and port, for any host that is not empty
    and does not itself hold ["]:"]. *)
Theorem split_endpoint_bracketed (host : string) (port : Z) :
  host ≠ "" → PyStr.contains "]:" host = false →
  split_endpoint ("[" +:+ host +:+ "]:" +:+ str_of_int port) = Some (host, port).
Proof.
  intros Hne Hc. destruct (str_of_int_chars port) as [Hall Hpne].
  set (s := "[" +:+ host +:+ "]:" +:+ str_of_int port).
  assert (PyStr.strip s = s) as Hs.
  { unfold PyStr.strip, s. rewrite str_app_cons, str_app_nil_l.
    rewrite lstrip_nonspace by done.
    change (String "[" (host +:+ "]:" +:+ str_of_int port))
      with ("[" +:+ (host +:+ ("]:" +:+ str_of_int port))).
    rewrite <- (str_app_assoc host "]:"), <- (str_app_assoc "[").
    by rewrite str_of_int_strip. }
  unfold split_endpoint. rewrite Hs. subst s.
  rewrite (str_app_cons "[" ""), str_app_nil_l.
  rewrite bool_decide_eq_false_2 by done.
  rewrite bool_decide_eq_false_2 by done.
  cbn [orb PyStr.tail]. assert (PyStr.startswith "[" (String "[" (host +:+ "]:" +:+ str_of_int port)) = true) as -> by done.
  unfold PyStr.partition.
  rewrite (split1_leftmost "]:" _ host (str_of_int port)); [|done|done|].
  - rewrite bool_decide_eq_false_2 by done.
    rewrite bool_decide_eq_false_2 by done. cbn [orb].
    by rewrite int_of_str_of_int.
  - intros a' b' Heq. destruct (decide (String.length host ≤ String.length a')%nat) as [|Hlt];
      [done|exfalso].
    symmetry in Heq.
    destruct (app_eq_split a' host _ _ Heq) as (m & -> & Hm); [lia|].
    destruct m as [|c m]; [rewrite str_app_length in Hlt; simpl in Hlt; lia|].
    rewrite !str_app_cons, str_app_nil_l in Hm. injection Hm as <- Hm.
    destruct m as [|c m].
    + rewrite str_app_nil_l in Hm. discriminate Hm.
    + rewrite str_app_cons in Hm. injection Hm as <- Hm.
      unfold PyStr.contains in Hc. apply bool_decide_eq_false in Hc.
      destruct (PyStr.split1 "]:" (a' +:+ String "]" (String ":" m))) as [[x y]|] eqn:E.
      * apply Hc. by eexists.
      * by apply (split1_None _ _ E a' m).
Qed.

Lemma split_endpoint_bracketed_witness :
  split_endpoint ("[" +:+ "2001:db8::7" +:+ "]:" +:+ str_of_int 40000)
  = Some ("2001:db8::7", 40000).
Proof. apply (split_endpoint_bracketed "2001:db8::7" 40000); [done|reflexivity]. Defined.


(** X15.  What [sync] of the native backend notes does not depend on the
    host: for plans with one entry for each interface and whatever the
    return codes of the commands, even if every one fails, the backend
    afterwards counts each interface of the plans as initialized and
    tracks for it exactly the IPv4 and the IPv6 set of its plan; the sets
    of the other interfaces are as before.  So the next [sync] of the same
    plans runs no command: a command that failed is not run again. *)
Theorem nft_sync_notes_plan {W1 W2 : Type} (run1 : command → W1 → Z * W1)
    (run2 : command → W2 → Z * W2) (plans : list (string * FirewallSyncPlan))
    (b : NftablesBackend) (w1 : W1) (w2 : W2) :
  NoDup plans.*1 →
  let after := run_self (nft_sync run1 plans b w1) in
  after = run_self (nft_sync run2 plans b w2)
  ∧ initialized after = list_to_set plans.*1 ∪ initialized b
  ∧ (∀ i plan, (i, plan) ∈ plans →
       current_v4 after !! i = Some (ipv4 plan)
       ∧ current_v6 after !! i = Some (ipv6 plan))
  ∧ (∀ j, j ∉ plans.*1 →
       current_v4 after !! j = current_v4 b !! j
       ∧ current_v6 after !! j = current_v6 b !! j)
  ∧ (∀ w', run_log (nft_sync run1 plans after w') = []
           ∧ run_self (nft_sync run1 plans after w') = after).
Proof.
  intros Hnd after.
  pose proof (sync_synced run1 plans b w1 Hnd) as Hsynced. fold after in Hsynced.
  split_and!.
  - unfold after. by rewrite !sync_state.
  - unfold after. rewrite sync_state. apply note_synced_initialized.
  - intros i plan Hin. by destruct (Hsynced i plan Hin) as (_ & ? & ?).
  - intros j Hj. destruct (sync_frame run1 plans b w1 j Hj) as (H4 & H6 & _). done.
  - intros w'. destruct (sync_idle run1 plans after w' Hsynced) as [Hb Hlog]. done.
Qed.

Lemma nft_sync_notes_plan_witness :
  current_v4 (run_self (nft_sync refusing_host plans_two new_backend tt)) !! "wg0"
  = Some {[("10.0.0.1", 1111); ("10.0.0.2", 2222)]}.
Proof.
  assert (H := nft_sync_notes_plan refusing_host refusing_host plans_two new_backend tt tt).
  destruct H as (_ & _ & H & _); [by_evaluation|].
  destruct (H "wg0" {| ipv4 := {[("10.0.0.1", 1111); ("10.0.0.2", 2222)]};
                       ipv6 := ∅; port := 51820 |}) as [H4 _];
    [apply list_elem_of_here|exact H4].
Defined.

(** X16.  When the interfaces of the plans are initialized, [sync] of the
    native backend runs element commands only, those of the differences:
    no set, chain or rule is looked up or added again, and the port of a
    plan plays no part. *)
Theorem nft_sync_initialized_elements_only {W : Type}
    (subprocess_run : command → W → Z * W)
    (plans : list (string * FirewallSyncPlan)) (b : NftablesBackend) (w : W) :
  NoDup plans.*1 →
  (∀ j, j ∈ plans.*1 → j ∈ initialized b) →
  let log := run_log (nft_sync subprocess_run plans b w) in
  log = expected_element_commands b plans
  ∧ Forall (λ c, is_element_command c = true) log
  ∧ ∀ p, log = run_log (nft_sync subprocess_run
                          ((λ item, (item.1, {| ipv4 := ipv4 item.2; ipv6 := ipv6 item.2;
                                                port := p |})) <$> plans) b w).
Proof.
  intros Hnd Hinit log.
  assert (log = expected_element_commands b plans) as Hlog
    by by apply sync_log_initialized.
  split_and!; [done| |].
  - rewrite Hlog. apply expected_element_commands_elements.
  - intros p.
    set (plans' := (λ item : string * FirewallSyncPlan,
                      (item.1, {| ipv4 := ipv4 item.2; ipv6 := ipv6 item.2;
                                  port := p |})) <$> plans).
    assert (plans'.*1 = plans.*1) as Hnames.
    { unfold plans'. clear. induction plans as [|[i plan] plans IH]; [done|].
      rewrite !fmap_cons. by rewrite IH. }
    rewrite sync_log_initialized by by rewrite Hnames.
    rewrite Hlog. unfold expected_element_commands, plans'.
    clear. induction plans as [|[i plan] plans IH]; [done|].
    rewrite fmap_cons. cbn [flat_map]. by rewrite IH.
Qed.

Lemma nft_sync_initialized_elements_only_witness :
  run_log (nft_sync obliging_host plans_two tracking_one tt)
  = expected_element_commands tracking_one plans_two.
Proof.
  apply (nft_sync_initialized_elements_only obliging_host plans_two tracking_one tt).
  - by_evaluation.
  - intros j Hj. apply list_elem_of_singleton in Hj as ->. by_evaluation.
Defined.


(** X17.  [teardown_peer] of the native backend runs no command and
    forgets the two sets of the interface, nothing else: the interface
    stays initialized and the sets of the other interfaces stay.  The next
    [sync] of the interface therefore looks nothing up and, for each set of
    the plan that is not empty, adds the whole set again; it deletes
    nothing. *)
Theorem nft_teardown_then_sync {W : Type} (subprocess_run : command → W → Z * W)
    (i : string) (plan : FirewallSyncPlan) (b : NftablesBackend) (w w' : W) :
  i ∈ initialized b →
  let torn := nft_teardown_peer i b w in
  run_log torn = [] ∧ run_host torn = w
  ∧ initialized (run_self torn) = initialized b
  ∧ current_v4 (run_self torn) !! i = None
  ∧ current_v6 (run_self torn) !! i = None
  ∧ (∀ j, j ≠ i →
       current_v4 (run_self torn) !! j = current_v4 b !! j
       ∧ current_v6 (run_self torn) !! j = current_v6 b !! j)
  ∧ run_log (nft_sync subprocess_run [(i, plan)] (run_self torn) w')
    = (if bool_decide (ipv4 plan = ∅) then []
       else [element_command "add" (set_v4_name i) (ipv4 plan)])
      ++ (if bool_decide (ipv6 plan = ∅) then []
          else [element_command "add" (set_v6_name i) (ipv6 plan)]).
Proof.
  intros Hi torn. unfold torn, nft_teardown_peer, set_self, run_log, run_host, run_self.
  cbn [fst snd].
  split_and!; try done.
  - cbn [current_v4]. apply lookup_delete_eq.
  - cbn [current_v6]. apply lookup_delete_eq.
  - intros j Hj. cbn [current_v4 current_v6]. by rewrite !lookup_delete_ne.
  - match goal with |- context [nft_sync _ _ ?x w'] => set (b1 := x) end.
    pose proof (sync_log_initialized subprocess_run [(i, plan)] b1 w') as Hlog.
    unfold run_log in Hlog. rewrite Hlog.
    + unfold expected_element_commands. cbn [flat_map fst snd].
      unfold b1. cbn [current_v4 current_v6]. rewrite !lookup_delete_eq. cbn [default].
      rewrite app_nil_r. unfold diff_commands.
      rewrite !difference_empty_L.
      assert (∀ X : gset (string * Z), ∅ ∖ X = ∅) as Hempty by set_solver.
      rewrite !Hempty, (bool_decide_eq_true_2 (∅ = ∅)) by done.
      by rewrite !app_nil_r.
    + apply NoDup_singleton.
    + intros j Hj. apply list_elem_of_singleton in Hj as ->. exact Hi.
Qed.

Lemma nft_teardown_then_sync_witness :
  run_log (nft_sync obliging_host plans_two
             (run_self (nft_teardown_peer "wg0" tracking_one tt)) tt)
  = [element_command "add" (set_v4_name "wg0")
       {[("10.0.0.1", 1111); ("10.0.0.2", 2222)]}].
Proof.
  assert (H := nft_teardown_then_sync obliging_host "wg0"
                 {| ipv4 := {[("10.0.0.1", 1111); ("10.0.0.2", 2222)]};
                    ipv6 := ∅; port := 51820 |} tracking_one tt tt).
  destruct H as (_ & _ & _ & _ & _ & _ & H); [by_evaluation|].
  rewrite bool_decide_eq_false_2, bool_decide_eq_true_2 in H; [exact H|done|].
  cbn [ipv4]. set_solver.
Defined.




(** X19.  One settings row that cannot be read, for any peer of the dump,
    ends the iteration with the exception: no command is run, the backend
    and the count of peers over their limit stay as they were, so no
    interface is synchronised in that iteration, also those whose rows are
    in order. *)
Theorem iteration_unreadable_row_blocks_sync {W B : Type} `{!FirewallBackend (W:=W) B}
    (dump : list (string * InterfaceInfo)) (now : Z) (self : PeerLimiterDaemon B) (w : W) :
  settings_ok (store self) dump = false →
  let r := iteration dump now self w in
  (∃ e, r.1.1.1 = Some e)
  ∧ run_log r = [] ∧ run_host r = w
  ∧ backend (run_self r) = backend self
  ∧ peers_over_limit (run_self r) = peers_over_limit self.
Proof.
  intros Hbad r.
  destruct (iteration_result dump now self w) as (Hres & _ & _ & _ & Hraised & _).
  destruct (iteration_interfaces_raises (store self) now dump (tracker self)
              (state_repo self) 0 [] Hbad) as [e He].
  fold r in Hres, Hraised. rewrite He in Hres, Hraised.
  destruct Hraised as (? & ? & ? & ?); [done|]. split_and!; try done. by exists e.
Qed.

Lemma iteration_unreadable_row_blocks_sync_witness :
  run_log (iteration (FirewallBackend0 := NftablesBackend_backend obliging_host)
             (dump_with "10.0.0.1:50000" 100) (seconds 0) unreadable_daemon tt) = [].
Proof.
  apply (iteration_unreadable_row_blocks_sync
           (FirewallBackend0 := NftablesBackend_backend obliging_host)
           (dump_with "10.0.0.1:50000" 100) (seconds 0) unreadable_daemon tt).
  vm_compute. reflexivity.
Defined.

(** X20.  After an iteration in which every settings row is read, for a
    dump that names each peer once: the repository holds for each peer of
    the dump exactly the records of the peer's active sessions, in the
    order of [active_sessions] and with [IsAllowed] as [allowed_sessions]
    gives it, both taken on the tracker the iteration leaves; and when the
    tracker was well formed before, it is so afterwards and the endpoints
    of these records are distinct. *)
Theorem iteration_repository_snapshot {W B : Type} `{!FirewallBackend (W:=W) B}
    (dump : list (string * InterfaceInfo)) (now : Z) (self : PeerLimiterDaemon B) (w : W)
    (i : string) (peer : PeerInfo) :
  settings_ok (store self) dump = true → distinct_peers dump →
  (i, peer) ∈ dump_peers dump →
  let after := run_self (iteration dump now self w) in
  repo_rows (state_repo after) i (public_key peer)
  = peer_records (store self) now (tracker after) i peer
  ∧ (wf_tracker (tracker self) →
     wf_tracker (tracker after)
     ∧ NoDup (Endpoint <$> repo_rows (state_repo after) i (public_key peer))).
Proof.
  intros Hok Hd Hin after.
  destruct (iteration_result dump now self w) as (_ & _ & Htr & Hrepo & _).
  fold after in Htr, Hrepo.
  assert (repo_rows (state_repo after) i (public_key peer)
          = peer_records (store self) now (tracker after) i peer) as Hrows.
  { rewrite Htr, Hrepo. by apply iteration_interfaces_rows. }
  split; [done|]. intros Hwf.
  assert (wf_tracker (tracker after)) as Hwf'
    by (rewrite Htr; by apply wf_iteration_interfaces).
  split; [done|]. rewrite Hrows. unfold peer_records, peer_active.
  rewrite <- list_fmap_compose.
  by apply (active_sessions_NoDup i (public_key peer) _ now (tracker after)).
Qed.

Lemma iteration_repository_snapshot_witness :
  let after := run_self (tick "10.0.0.2:50001" 300 (seconds 20) roamed_daemon) in
  repo_rows (state_repo after) "wg0" "peerA"
  = peer_records (store roamed_daemon) (seconds 20) (tracker after) "wg0"
      {| public_key := "peerA"; peer_endpoint := "10.0.0.2:50001";
         latest_handshake := 1700000000; peer_rx_bytes := 300; peer_tx_bytes := 0 |}.
Proof.
  apply (iteration_repository_snapshot
           (FirewallBackend0 := NftablesBackend_backend obliging_host)
           (dump_with "10.0.0.2:50001" 300) (seconds 20) roamed_daemon tt "wg0"
           {| public_key := "peerA"; peer_endpoint := "10.0.0.2:50001";
              latest_handshake := 1700000000; peer_rx_bytes := 300; peer_tx_bytes := 0 |}).
  - vm_compute. reflexivity.
  - by_evaluation.
  - by_evaluation.
Defined.

(** X21.  An iteration leaves alone what the tracker and the repository
    hold for a peer that is not in the dump, whether it ends with an
    exception or not: the sessions of such a peer are neither expired nor
    pruned, and its rows stay in the repository. *)
Theorem iteration_leaves_absent_peers {W B : Type} `{!FirewallBackend (W:=W) B}
    (dump : list (string * InterfaceInfo)) (now : Z) (self : PeerLimiterDaemon B) (w : W)
    (i p : string) :
  (i, p) ∉ dump_keys dump →
  let after := run_self (iteration dump now self w) in
  tracker after !! (i, p) = tracker self !! (i, p)
  ∧ repo_rows (state_repo after) i p = repo_rows (state_repo self) i p.
Proof.
  intros Hkey after.
  destruct (iteration_result dump now self w) as (_ & _ & Htr & Hrepo & _).
  fold after in Htr, Hrepo. rewrite Htr, Hrepo.
  apply (iteration_interfaces_frame (store self) now dump (tracker self) (state_repo self)
           0 [] (i, p) Hkey).
Qed.

Lemma iteration_leaves_absent_peers_witness :
  let after := run_self (iteration (FirewallBackend0 := NftablesBackend_backend obliging_host)
                           [] (seconds 400) roamed_daemon tt) in
  tracker after !! ("wg0", "peerA") = tracker roamed_daemon !! ("wg0", "peerA")
  ∧ repo_rows (state_repo after) "wg0" "peerA"
    = repo_rows (state_repo roamed_daemon) "wg0" "peerA".
Proof.
  apply (iteration_leaves_absent_peers
           (FirewallBackend0 := NftablesBackend_backend obliging_host)
           [] (seconds 400) roamed_daemon tt "wg0" "peerA").
  by_evaluation.
Defined.

(** X22.  When every settings row is read and the dump names each peer
    once, the plans of an iteration are, for each interface of the dump
    in the order of the dump, the listen port of the interface and,
    family by family, the endpoints that parse of the active sessions of
    its peers, as the tracker has them at the end of the loops, allowed or
    not; so the plans name each interface once. *)
Theorem iteration_plans_from_tracker (store : PeerLimitStore)
    (dump : list (string * InterfaceInfo)) (now : Z) (tr : SessionTracker)
    (repo : list (string * string * SessionRecord)) :
  settings_ok store dump = true → distinct_peers dump →
  let plans := iteration_plans store dump now tr repo in
  plans = (λ item, (item.1, interface_plan store now
                              (iteration_tracker store dump now tr repo) item)) <$> dump
  ∧ plans.*1 = dump.*1
  ∧ NoDup plans.*1.
Proof.
  intros Hok Hd plans.
  assert (plans = (λ item, (item.1, interface_plan store now
                                      (iteration_tracker store dump now tr repo) item))
                  <$> dump) as Hplans.
  { unfold plans, iteration_plans, iteration_tracker.
    rewrite (iteration_interfaces_plans store now dump tr repo 0 [] Hok Hd); [done|].
    intros j _. apply not_elem_of_nil. }
  assert (plans.*1 = dump.*1) as Hnames.
  { rewrite Hplans, <- list_fmap_compose. by apply list_fmap_ext. }
  split_and!; [done|done|]. rewrite Hnames. apply Hd.
Qed.

Lemma iteration_plans_from_tracker_witness :
  (iteration_plans (store roamed_daemon) (dump_with "10.0.0.2:50001" 300) (seconds 20)
     (tracker roamed_daemon) (state_repo roamed_daemon)).*1 = ["wg0"].
Proof.
  apply (iteration_plans_from_tracker (store roamed_daemon)
           (dump_with "10.0.0.2:50001" 300) (seconds 20)
           (tracker roamed_daemon) (state_repo roamed_daemon)).
  - vm_compute. reflexivity.
  - by_evaluation.
Defined.

(** X23.  After an iteration in which every settings row is read, for a
    dump that names each peer once, the count [peers_over_limit] is the
    number of peers of the dump with a limit that has more active sessions
    than the limit, on the tracker the iteration leaves; the count of the
    iteration before plays no part. *)
Theorem iteration_counts_peers_over_limit {W B : Type} `{!FirewallBackend (W:=W) B}
    (dump : list (string * InterfaceInfo)) (now : Z) (self : PeerLimiterDaemon B) (w : W) :
  settings_ok (store self) dump = true → distinct_peers dump →
  let after := run_self (iteration dump now self w) in
  peers_over_limit after
  = Z.of_nat (length (filter (λ ip : string * PeerInfo,
                                peer_over_limit (store self) now (tracker after) ip.1 ip.2
                                = true)
                        (dump_peers dump))).
Proof.
  intros Hok Hd after.
  destruct (iteration_result dump now self w) as (_ & _ & Htr & _ & _ & Hdone).
  fold after in Htr, Hdone.
  destruct Hdone as [-> _]; [by apply iteration_interfaces_ok|].
  rewrite Htr.
  by rewrite (iteration_interfaces_count (store self) now dump (tracker self)
                (state_repo self) 0 [] Hok Hd).
Qed.

Lemma iteration_counts_peers_over_limit_witness :
  peers_over_limit (run_self (tick "10.0.0.2:50001" 300 (seconds 20) roamed_daemon)) = 1.
Proof.
  assert (H := iteration_counts_peers_over_limit
                 (FirewallBackend0 := NftablesBackend_backend obliging_host)
                 (dump_with "10.0.0.2:50001" 300) (seconds 20) roamed_daemon tt).
  cbv zeta in H. etransitivity; [apply H|].
  - vm_compute. reflexivity.
  - by_evaluation.
  - vm_compute. reflexivity.
Defined.

(** X24.  An iteration with the native backend, in which every settings
    row is read, for a dump that names each peer once: whatever the host
    answers, the backend afterwards counts each interface of the dump as
    initialized and tracks for it, family by family, the endpoints that
    parse of the active sessions of its peers, as the tracker has them
    after the iteration; and the element commands that were run are those
    of the differences with what the backend tracked before. *)
Theorem iteration_native_backend_tracks_active {W : Type}
    (subprocess_run : command → W → Z * W)
    (dump : list (string * InterfaceInfo)) (now : Z)
    (self : PeerLimiterDaemon NftablesBackend) (b : NftablesBackend) (w : W) :
  settings_ok (store self) dump = true → distinct_peers dump →
  backend self = Some b →
  let r := iteration (FirewallBackend0 := NftablesBackend_backend subprocess_run)
             dump now self w in
  let plans := iteration_plans (store self) dump now (tracker self) (state_repo self) in
  r.1.1.1 = None
  ∧ filter is_element_command (run_log r) = expected_element_commands b plans
  ∧ ∃ b', backend (run_self r) = Some b'
          ∧ ∀ item, item ∈ dump →
              let active := flat_map (peer_active (store self) now (tracker (run_self r))
                                        item.1) (peers item.2) in
              item.1 ∈ initialized b'
              ∧ current_v4 b' !! item.1 = Some (endpoints_of false active)
              ∧ current_v6 b' !! item.1 = Some (endpoints_of true active).
Proof.
  intros Hok Hd Hb r plans.
  destruct (iteration_result (FirewallBackend0 := NftablesBackend_backend subprocess_run)
              dump now self w) as (Hres & _ & Htr & _ & _ & Hdone).
  fold r in Hres, Htr, Hdone.
  pose proof (iteration_interfaces_ok (store self) now dump (tracker self)
                (state_repo self) 0 [] Hok) as Hnone.
  destruct (Hdone Hnone) as [_ Hsync]. rewrite Hb in Hsync.
  destruct Hsync as (Hb' & Hlog & _). fold plans in Hb', Hlog.
  assert (plans = (λ item, (item.1, interface_plan (store self) now (tracker (run_self r))
                                      item)) <$> dump
          ∧ NoDup plans.*1) as [Hplans Hnd].
  { rewrite Htr. unfold plans, iteration_plans.
    rewrite (iteration_interfaces_plans (store self) now dump (tracker self)
               (state_repo self) 0 [] Hok Hd) by (intros j _; apply not_elem_of_nil).
    cbn [app]. split; [done|].
    match goal with |- NoDup ?l => assert (l = dump.*1) as -> end; [|apply Hd].
    rewrite <- list_fmap_compose. by apply list_fmap_ext. }
  split_and!.
  - by rewrite Hres.
  - rewrite Hlog. by apply (sync_element_commands subprocess_run).
  - eexists. split; [exact Hb'|]. intros item Hitem. cbv zeta.
    pose proof (sync_synced subprocess_run plans b w Hnd) as Hsynced.
    apply (Hsynced item.1 (interface_plan (store self) now (tracker (run_self r)) item)).
    rewrite Hplans at 1. apply list_elem_of_fmap. by exists item.
Qed.

Lemma iteration_native_backend_tracks_active_witness :
  (tick "10.0.0.1:50000" 100 (seconds 0) fresh_daemon).1.1.1 = None.
Proof.
  apply (iteration_native_backend_tracks_active obliging_host
           (dump_with "10.0.0.1:50000" 100) (seconds 0) fresh_daemon new_backend tt).
  - vm_compute. reflexivity.
  - by_evaluation.
  - reflexivity.
Defined.

(** X25.  What an iteration does to the tracker and to the repository,
    and whether it ends with an exception, does not depend on the
    firewall backend, nor on there being one: two daemons with the same
    settings, tracker and repository are left with the same tracker and
    repository; and a daemon without a backend runs no command. *)
Theorem iteration_sessions_without_backend {W1 W2 B1 B2 : Type}
    `{!FirewallBackend (W:=W1) B1} `{!FirewallBackend (W:=W2) B2}
    (dump : list (string * InterfaceInfo)) (now : Z)
    (self1 : PeerLimiterDaemon B1) (self2 : PeerLimiterDaemon B2) (w1 : W1) (w2 : W2) :
  store self1 = store self2 → tracker self1 = tracker self2 →
  state_repo self1 = state_repo self2 →
  let r1 := iteration dump now self1 w1 in
  let r2 := iteration dump now self2 w2 in
  r1.1.1.1 = r2.1.1.1
  ∧ tracker (run_self r1) = tracker (run_self r2)
  ∧ state_repo (run_self r1) = state_repo (run_self r2)
  ∧ (backend self2 = None → run_log r2 = [] ∧ run_host r2 = w2).
Proof.
  intros Hstore Htr Hrepo r1 r2.
  destruct (iteration_result dump now self1 w1) as (Hres1 & _ & Htr1 & Hrepo1 & _).
  destruct (iteration_result dump now self2 w2)
    as (Hres2 & _ & Htr2 & Hrepo2 & Hraised & Hdone).
  fold r1 in Hres1, Htr1, Hrepo1. fold r2 in Hres2, Htr2, Hrepo2, Hraised, Hdone.
  rewrite Hres1, Hres2, Htr1, Htr2, Hrepo1, Hrepo2, Hstore, Htr, Hrepo.
  split_and!; try done. intros Hnone.
  destruct (iteration_interfaces (store self2) now dump (tracker self2)
              (state_repo self2) 0 []).2 as [e|] eqn:E.
  - destruct Hraised as (? & ? & _); done.
  - destruct (Hdone eq_refl) as [_ Hsync]. rewrite Hnone in Hsync.
    by destruct Hsync as (_ & ? & ?).
Qed.

Lemma iteration_sessions_without_backend_witness :
  state_repo (run_self (tick "10.0.0.1:50000" 100 (seconds 0) fresh_daemon))
  = state_repo (run_self (iteration (FirewallBackend0 := NftablesBackend_backend obliging_host)
                            (dump_with "10.0.0.1:50000" 100) (seconds 0)
                            open_daemon tt)).
Proof.
  apply (iteration_sessions_without_backend
           (FirewallBackend0 := NftablesBackend_backend obliging_host)
           (FirewallBackend1 := NftablesBackend_backend obliging_host)
           (dump_with "10.0.0.1:50000" 100) (seconds 0) fresh_daemon open_daemon tt tt);
    reflexivity.
Defined.

(** X26.  For plans with one entry for each interface, [sync] of the
    iptables backend adds and deletes, for each interface in turn, one
    entry for each element of [desired − current] and then of
    [current − desired] of the IPv4 set, and no other entry; afterwards it
    counts each interface of the plans as set up and tracks the IPv4 set
    of its plan, leaves the sets of the other interfaces as they were, and
    a second [sync] of the same plans runs no command. *)
Theorem iptables_sync_diff {W : Type} (subprocess_run : command → W → Z * W)
    (plans : list (string * FirewallSyncPlan)) (b : IptablesBackend) (w : W) :
  NoDup plans.*1 →
  let first := ipt_sync subprocess_run plans b w in
  filter is_ipset_entry_command (run_log first) = ipt_expected_commands b plans
  ∧ (∀ i plan, (i, plan) ∈ plans →
       i ∈ ipt_initialized (run_self first)
       ∧ ipt_current (run_self first) !! i = Some (ipv4 plan))
  ∧ (∀ j, j ∉ plans.*1 → ipt_current (run_self first) !! j = ipt_current b !! j)
  ∧ (∀ w', let second := ipt_sync subprocess_run plans (run_self first) w' in
           run_log second = [] ∧ run_self second = run_self first).
Proof.
  intros Hnd first.
  assert (∀ i plan, (i, plan) ∈ plans →
            i ∈ ipt_initialized (run_self first)
            ∧ ipt_current (run_self first) !! i = Some (ipv4 plan)) as Hsynced.
  { intros i plan Hin. unfold first. rewrite ipt_sync_state. split.
    - rewrite ipt_note_synced_initialized. apply elem_of_union_l, elem_of_list_to_set.
      apply list_elem_of_fmap. by exists (i, plan).
    - by apply ipt_note_synced_lookup. }
  split_and!.
  - by apply ipt_sync_entry_commands.
  - exact Hsynced.
  - intros j Hj. unfold first. rewrite ipt_sync_state. by apply ipt_note_synced_frame.
  - intros w'. cbv zeta.
    destruct (ipt_sync_idle subprocess_run plans (run_self first) w' Hnd Hsynced). done.
Qed.

Lemma iptables_sync_diff_witness :
  filter is_ipset_entry_command
    (run_log (ipt_sync refusing_host plans_two new_iptables_backend tt))
  = ipt_expected_commands new_iptables_backend plans_two.
Proof.
  apply (iptables_sync_diff refusing_host plans_two new_iptables_backend tt).
  by_evaluation.
Defined.

(** X27.  [sync] of the iptables backend does nothing with the IPv6
    endpoints of a plan: with or without them it runs the same commands
    and leaves the same backend and host, so an IPv6 endpoint is never
    added to a set. *)
Theorem iptables_sync_ignores_ipv6 {W : Type} (subprocess_run : command → W → Z * W)
    (plans : list (string * FirewallSyncPlan)) (b : IptablesBackend) (w : W) :
  ipt_sync subprocess_run plans b w = ipt_sync subprocess_run (without_ipv6 plans) b w.
Proof.
  revert b w. induction plans as [|[i plan] plans IH]; intros b w; [done|].
  unfold without_ipv6. rewrite fmap_cons. fold (without_ipv6 plans).
  unfold ipt_sync. cbn [for_each]. rewrite !run_bind_eq.
  fold (ipt_sync subprocess_run plans). fold (ipt_sync subprocess_run (without_ipv6 plans)).
  assert (ipt_sync_interface subprocess_run
            ((i, plan).1, {| ipv4 := ipv4 (i, plan).2; ipv6 := ∅; port := port (i, plan).2 |})
          = ipt_sync_interface subprocess_run (i, plan)) as -> by done.
  destruct (ipt_sync_interface subprocess_run (i, plan) b w) as [[[[] b1] w1] log1].
  by rewrite IH.
Qed.

(** X28.  The entries of the iptables backend tell the endpoints apart:
    the text ["<ip>,<port>"] of two different endpoints is different, so
    the commands for the elements of a set are distinct, as many as the
    set has elements, and each names one element of the set. *)
Theorem ipset_entries_distinct (verb set_name : string) (xs : gset (string * Z)) :
  (∀ x y, ipset_entry x = ipset_entry y ↔ x = y)
  ∧ NoDup (ipset_commands verb set_name xs)
  ∧ length (ipset_commands verb set_name xs) = size xs
  ∧ ∀ x, ipset_command verb set_name x ∈ ipset_commands verb set_name xs ↔ x ∈ xs.
Proof.
  assert (∀ x y, ipset_command verb set_name x = ipset_command verb set_name y → x = y)
    as Hinj.
  { intros x y [= Heq]. by apply ipset_entry_inj. }
  split_and!.
  - intros x y. split; [apply ipset_entry_inj|by intros ->].
  - unfold ipset_commands. apply NoDup_fmap_2; [exact Hinj|apply NoDup_elements].
  - unfold ipset_commands. by rewrite length_fmap.
  - intros x. unfold ipset_commands. rewrite list_elem_of_fmap. split.
    + intros (y & Heq & Hy). apply Hinj in Heq as <-. by apply elem_of_elements.
    + intros Hx. exists x. split; [done|]. by apply elem_of_elements.
Qed.

(** X29.  The loop of [collect] does something only with the lines that
    are not empty and have 5 fields, the headers, or at least 8, the peer
    lines: the other lines can be left out without changing the outcome;
    and as long as there is no current interface, before the first header
    or after a header with an empty name, the peer lines are dropped as
    well. *)
Theorem collect_ignores_other_lines (lines : list string) (st : CollectState) :
  collect_lines lines st
  = collect_lines (filter (λ line, is_header line || is_peer_line line = true) lines) st
  ∧ (truthy st.2 = false → Forall (λ line, is_header line = false) lines →
     collect_lines lines st = Ok st).
Proof.
  split.
  - revert st. induction lines as [|line lines IH]; intros st; [done|].
    rewrite filter_cons. destruct (decide _) as [Hrel|Hrel].
    + cbn [collect_lines]. destruct (collect_line line st) as [st'|e]; [apply IH|done].
    + apply not_true_is_false, orb_false_iff in Hrel as [Hh Hp].
      cbn [collect_lines]. rewrite (collect_line_skip line st Hh Hp). apply IH.
  - intros Hcur Hall. induction Hall as [|line lines Hh Hall IH]; [done|].
    cbn [collect_lines]. by rewrite (collect_line_no_interface line st Hh Hcur).
Qed.

Lemma collect_ignores_other_lines_witness :
  collect_lines ["a	b	c	d	e	f	g	h"; "junk"; ""] ([], None) = Ok ([], None).
Proof.
  apply (collect_ignores_other_lines ["a	b	c	d	e	f	g	h"; "junk"; ""] ([], None)).
  - reflexivity.
  - by_evaluation.
Defined.


